(** * saiki: the MCP client manager and the in-built LLM driving loop

    A shallow embedding of
      - [src/core/client/manager.ts]       (class [MCPManager]),
      - [src/ai/llm/services/anthropic.ts] (class [AnthropicService]),
      - [src/core/llm/services/vercel.ts]  ([VercelLLMService.formatTools],
        [validateToolSupport], [mapProviderError]),
      - [createMessageManager], the factory that follows the formatter in
        [src/ai/llm/messages/formatters/openai.ts],
      - the callers and neighbours of these: the factory of LLM services
        ([createLLMService]), [SaikiAgent.run] and
        [SaikiAgent.connectMcpServer], the error middleware
        ([errorHandler]) and the helpers of [LocalBlobBackend]
        ([parseReference], [detectMimeType], [isTextBuffer]),
    together with the properties the specification states about them and
    further properties read off the code.

    Conventions of the embedding.
      - A promise that has settled is a value of [Settled]: fulfilled with a
        value or rejected with an error.
      - A JS [Map] is a [gmap]; the iteration order of a [Map] is not
        modelled (no result below is order-sensitive, only the text of logs
        would be).  A plain object used as a dictionary is the [gmap] of the
        properties of its own, written with [assign] and read with
        [read_property] and [read_tool], which know what every object
        inherits from [Object.prototype].
      - Object identity of [IMCPClient] instances ([===]) is an allocation
        number, [clientId].
      - What a remote server answers is part of the input: a [Server] record
        lists the outcome of every request the manager can send to it.
      - The external calls a function performs are recorded, in order, in
        the [trace] of the [State].  Calls to the logger are not recorded:
        the logger is an external collaborator and nothing it does reaches
        the manager, so a [catch] that only logs is a no-op here.
      - An [async] function runs without interruption between two [await]s.
        [initializeFromConfig] starts one [connectServer] per entry and
        awaits them together, so their segments interleave; the order is a
        parameter, [sched], and the properties hold for every order.
      - A JS number is an IEEE 754 binary64 value ([spec_float]).
      - A JS string is a [string], the bytes of its UTF-8 encoding.
        [trim] removes the white space and the line terminators of
        ECMAScript, of one byte or more; [toLowerCase] is the one on
        ASCII. *)

From stdpp Require Import base gmap strings list pretty.
From Stdlib Require Import ZArith Lia SpecFloat Strings.Byte.

(** ** JavaScript values, errors and settled promises *)

#[warnings="-register-all"]
Inductive Json :=
| JNull
| JBool (b : bool)
| JStr (s : string)
| JObj (fields : list (string * Json)).

(** [ToolErrorCode] of [core/tools/error-codes.ts]. *)
Inductive ToolErrorCode :=
| EXECUTION_DENIED
| EXECUTION_TIMEOUT
| EXECUTION_FAILED
| CONFIRMATION_HANDLER_MISSING
| CONFIRMATION_TIMEOUT
| CONFIRMATION_CANCELLED
| TOOL_NOT_FOUND
| TOOL_INVALID_ARGS
| TOOL_UNAUTHORIZED
| CONFIG_INVALID.

Global Instance ToolErrorCode_eq_dec : EqDecision ToolErrorCode.
Proof. solve_decision. Defined.

(** The values the code throws and catches. [NonError] is a thrown value
    that is not an instance of [Error]; its text is [String(value)]. *)
Inductive JsError :=
| Error (message : string)
| NonError (text : string)
| ToolExecutionDeniedError (toolName : string) (sessionId : option string)
    (message : string)
| DextoRuntimeError (code : ToolErrorCode) (message : string).

(** [error instanceof Error ? error.message : String(error)] *)
Definition errorMessage (e : JsError) : string :=
  match e with
  | Error m => m
  | NonError t => t
  | ToolExecutionDeniedError _ _ m => m
  | DextoRuntimeError _ m => m
  end.

(** [error instanceof Error ? error : new Error(errorMessage)] *)
Definition as_Error (e : JsError) : JsError :=
  match e with
  | NonError text => Error text
  | _ => e
  end.

Inductive Settled (A : Type) :=
| Fulfilled (a : A)
| Rejected (e : JsError).
Arguments Fulfilled {A} a.
Arguments Rejected {A} e.

(** JS truthiness of a string: only the empty string is falsy. *)
Definition truthy (s : string) : bool := negb (String.eqb s "").

(** [s || dflt] on strings that may be [undefined]. *)
Definition or_default (o : option string) (dflt : string) : string :=
  match o with
  | Some s => if truthy s then s else dflt
  | None => dflt
  end.

(** ** Plain objects used as dictionaries

    [connectionErrors] of the manager, [allTools] in [getAllTools] and the
    accumulator of [formatTools] are plain objects, created as [{}].  Such
    an object inherits from [Object.prototype] the accessor [__proto__] and
    the methods listed here; a [gmap] holds the properties of its own. *)

Definition Object_prototype_methods : list string :=
  ["constructor"; "__defineGetter__"; "__defineSetter__"; "hasOwnProperty";
   "__lookupGetter__"; "__lookupSetter__"; "isPrototypeOf"; "propertyIsEnumerable";
   "toString"; "valueOf"; "toLocaleString"].

(** [object[key] = value].  For the key [__proto__] the assignment goes to
    the setter the object inherits, which changes the prototype when
    [value] is an object and does nothing otherwise: in neither case does
    the object get a property of its own.  Only an object that already has
    a property of its own by that name is written to. *)
Definition assign {A : Type} (key : string) (value : A) (object : gmap string A)
    : gmap string A :=
  match object !! key with
  | None => if bool_decide (key = "__proto__") then object else <[key := value]> object
  | Some _ => <[key := value]> object
  end.

(** What [object[key]] evaluates to, on an object whose own values are
    strings: the value of its own, or what it inherits. *)
Inductive Property :=
| OwnValue (value : string)
| ObjectPrototype
| PrototypeMethod (key : string)
| Undefined.

Definition read_property (object : gmap string string) (key : string) : Property :=
  match object !! key with
  | Some value => OwnValue value
  | None =>
      if bool_decide (key = "__proto__") then ObjectPrototype
      else if bool_decide (key ∈ Object_prototype_methods) then PrototypeMethod key
      else Undefined
  end.

(** [`${property || dflt}`].  An object is truthy, and as a string
    [Object.prototype] is "[object Object]" and a method of it is its
    source text, which Node gives as below ([constructor] is the function
    [Object]). *)
Definition text_or (property : Property) (dflt : string) : string :=
  match property with
  | OwnValue value => if truthy value then value else dflt
  | ObjectPrototype => "[object Object]"
  | PrototypeMethod key =>
      "function " +:+ (if String.eqb key "constructor" then "Object" else key) +:+
      "() { [native code] }"
  | Undefined => dflt
  end.

(** ** Servers, clients and configurations *)

Record Tool := {
  description : option string;
  parameters : Json
}.

(** A [ToolSet] is a plain object; the [gmap] holds the tools it lists as
    properties of its own. *)
Abbreviation ToolSet := (gmap string Tool).

(** A method of [Object.prototype] where a tool definition is expected: the
    function object has no [description] and no [parameters]. *)
Definition method_as_tool : Tool := {| description := None; parameters := JNull |}.

(** [tools[key]], when it is truthy and can become a property of another
    object: the tool [tools] lists under [key] or, for a name it does not
    list, the method it inherits.  (For [__proto__] it inherits
    [Object.prototype]; assigning that to [__proto__] changes nothing, see
    [assign].) *)
Definition read_tool (tools : ToolSet) (key : string) : option Tool :=
  match tools !! key with
  | Some tool => Some tool
  | None =>
      if bool_decide (key ∈ Object_prototype_methods) then Some method_as_tool else None
  end.

(** The behaviour of one remote tool server, as seen through [IMCPClient]:
    how each request to a client settles.  [MCPClient] is not in the
    sources.  What a client answers once [disconnect] was called on it is
    not known, and the model does not tell such a client from another: a
    property that reads the answer of a client holds of the code as long as
    that client was not disconnected. *)
Record Server := {
  connect_outcome : Settled unit;
  getTools_outcome : Settled ToolSet;
  listPrompts_outcome : Settled (list string);
  listResources_outcome : Settled (list string);
  callTool_outcome : string → Json → Settled Json;
  (** [None]: the client object has no [disconnect] method. *)
  disconnect_outcome : option (Settled unit)
}.

Record IMCPClient := {
  clientId : nat;
  server : Server
}.

(** [mappedClient === client] *)
Definition same_client (c1 c2 : IMCPClient) : bool :=
  bool_decide (clientId c1 = clientId c2).

Inductive ConnectionMode := strict | lenient.

Global Instance ConnectionMode_eq_dec : EqDecision ConnectionMode.
Proof. solve_decision. Defined.

(** [McpServerConfig]: the transport descriptor is identified with the
    server it designates. *)
Record McpServerConfig := {
  connectionMode : option ConnectionMode;
  endpoint : Server
}.

(** [ServerConfigs], as [Object.entries] lists it. *)
Abbreviation ServerConfigs := (list (string * McpServerConfig)).

(** ** The confirmation gate *)

Record ToolExecutionDetails := {
  td_toolName : string;
  td_args : Json;
  td_sessionId : option string
}.

Record ToolConfirmationProvider := {
  requestConfirmation : ToolExecutionDetails → Settled bool
}.

(** [NoOpConfirmationProvider]: approves everything. *)
Definition NoOpConfirmationProvider : ToolConfirmationProvider :=
  {| requestConfirmation := λ _, Fulfilled true |}.

(** ** Manager state *)

Inductive Event :=
| EvConnect (name : string) (cid : nat)
| EvGetTools (cid : nat)
| EvListPrompts (cid : nat)
| EvListResources (cid : nat)
| EvDisconnect (cid : nat)
| EvCallTool (cid : nat) (toolName : string) (args : Json)
| EvRequestConfirmation (details : ToolExecutionDetails).

Record MCPManager := {
  clients : gmap string IMCPClient;
  connectionErrors : gmap string string;
  toolToClientMap : gmap string IMCPClient;
  promptToClientMap : gmap string IMCPClient;
  resourceToClientMap : gmap string IMCPClient;
  confirmationProvider : ToolConfirmationProvider
}.

(** The manager together with the part of the runtime it acts on: the
    allocator of client objects and the record of external calls. *)
Record State := {
  mgr : MCPManager;
  nextClientId : nat;
  trace : list Event
}.

(** [new MCPManager(confirmationProvider?)] *)
Definition new_MCPManager (p : option ToolConfirmationProvider) : MCPManager :=
  {| clients := ∅; connectionErrors := ∅;
     toolToClientMap := ∅; promptToClientMap := ∅; resourceToClientMap := ∅;
     confirmationProvider := default NoOpConfirmationProvider p |}.

Definition initial_State (p : option ToolConfirmationProvider) : State :=
  {| mgr := new_MCPManager p; nextClientId := 0; trace := [] |}.

Definition with_mgr (f : MCPManager → MCPManager) (s : State) : State :=
  {| mgr := f (mgr s); nextClientId := nextClientId s; trace := trace s |}.

Definition emit (e : Event) (s : State) : State :=
  {| mgr := mgr s; nextClientId := nextClientId s; trace := trace s ++ [e] |}.

(** [new MCPClient()] for the server a configuration designates. *)
Definition new_MCPClient (config : McpServerConfig) (s : State) : IMCPClient * State :=
  ({| clientId := nextClientId s; server := endpoint config |},
   {| mgr := mgr s; nextClientId := S (nextClientId s); trace := trace s |}).

Definition set_clients (f : gmap string IMCPClient → gmap string IMCPClient)
    (m : MCPManager) : MCPManager :=
  {| clients := f (clients m); connectionErrors := connectionErrors m;
     toolToClientMap := toolToClientMap m; promptToClientMap := promptToClientMap m;
     resourceToClientMap := resourceToClientMap m;
     confirmationProvider := confirmationProvider m |}.

Definition set_connectionErrors (f : gmap string string → gmap string string)
    (m : MCPManager) : MCPManager :=
  {| clients := clients m; connectionErrors := f (connectionErrors m);
     toolToClientMap := toolToClientMap m; promptToClientMap := promptToClientMap m;
     resourceToClientMap := resourceToClientMap m;
     confirmationProvider := confirmationProvider m |}.

Definition set_toolToClientMap (f : gmap string IMCPClient → gmap string IMCPClient)
    (m : MCPManager) : MCPManager :=
  {| clients := clients m; connectionErrors := connectionErrors m;
     toolToClientMap := f (toolToClientMap m); promptToClientMap := promptToClientMap m;
     resourceToClientMap := resourceToClientMap m;
     confirmationProvider := confirmationProvider m |}.

Definition set_promptToClientMap (f : gmap string IMCPClient → gmap string IMCPClient)
    (m : MCPManager) : MCPManager :=
  {| clients := clients m; connectionErrors := connectionErrors m;
     toolToClientMap := toolToClientMap m; promptToClientMap := f (promptToClientMap m);
     resourceToClientMap := resourceToClientMap m;
     confirmationProvider := confirmationProvider m |}.

Definition set_resourceToClientMap (f : gmap string IMCPClient → gmap string IMCPClient)
    (m : MCPManager) : MCPManager :=
  {| clients := clients m; connectionErrors := connectionErrors m;
     toolToClientMap := toolToClientMap m; promptToClientMap := promptToClientMap m;
     resourceToClientMap := f (resourceToClientMap m);
     confirmationProvider := confirmationProvider m |}.

(** ** Cache maintenance *)

(** The body of the [forEach] in [clearClientCache]: drop from one cache
    map every entry whose value is [client]. *)
Definition purge (client : IMCPClient) (cacheMap : gmap string IMCPClient)
    : gmap string IMCPClient :=
  filter (λ kv, same_client (snd kv) client = false) cacheMap.

(** [clearClientCache(clientName)] *)
Definition clearClientCache (clientName : string) (s : State) : State :=
  match clients (mgr s) !! clientName with
  | None => s
  | Some client =>
      with_mgr (λ m, set_toolToClientMap (purge client)
                       (set_promptToClientMap (purge client)
                          (set_resourceToClientMap (purge client) m))) s
  end.

(** [registerClient(name, client)] *)
Definition registerClient (name : string) (client : IMCPClient) (s : State) : State :=
  let s1 := clearClientCache name s in
  with_mgr (λ m, set_connectionErrors (delete name)
                   (set_clients (<[name := client]>) m)) s1.

(** [for (const k of keys) cacheMap.set(k, client)] *)
Definition set_all (keys : list string) (client : IMCPClient)
    (cacheMap : gmap string IMCPClient) : gmap string IMCPClient :=
  foldl (λ acc k, <[k := client]> acc) cacheMap keys.

(** ** [connectServer], one segment at a time

    [connectServer] suspends at [await client.connect], and, inside
    [updateClientCache], at [await client.getTools()],
    [await client.listPrompts()] and [await client.listResources()].  A
    [ConnectTask] is the point where a call is suspended; the code between
    two suspensions runs without interruption. *)

Inductive ConnectTask :=
| AwaitConnect (name : string) (client : IMCPClient)
| AwaitGetTools (name : string) (client : IMCPClient)
| AwaitListPrompts (name : string) (client : IMCPClient)
| AwaitListResources (name : string) (client : IMCPClient)
| Done (r : Settled unit).

Definition connect_failure (name errorMsg : string) : string :=
  "Failed to connect to new server '" +:+ name +:+ "': " +:+ errorMsg.

(** [connectServer(name, config)] up to its first suspension. *)
Definition connectServer_start (name : string) (config : McpServerConfig)
    (s : State) : ConnectTask * State :=
  if bool_decide (is_Some (clients (mgr s) !! name)) then
    (Done (Fulfilled ()), s)
  else
    let '(client, s1) := new_MCPClient config s in
    (AwaitConnect name client, emit (EvConnect name (clientId client)) s1).

(** From one suspension to the next. *)
Definition connectServer_resume (t : ConnectTask) (s : State) : ConnectTask * State :=
  match t with
  | AwaitConnect name client =>
      match connect_outcome (server client) with
      | Fulfilled _ =>
          let s1 := registerClient name client s in
          (AwaitGetTools name client, emit (EvGetTools (clientId client)) s1)
      | Rejected error =>
          let errorMsg := errorMessage error in
          let s1 := with_mgr (set_connectionErrors (assign name errorMsg)) s in
          let s2 := with_mgr (set_clients (delete name)) s1 in
          (Done (Rejected (Error (connect_failure name errorMsg))), s2)
      end
  | AwaitGetTools name client =>
      match getTools_outcome (server client) with
      | Fulfilled tools =>
          let s1 := with_mgr (set_toolToClientMap
                                (set_all (fst <$> map_to_list tools) client)) s in
          (AwaitListPrompts name client, emit (EvListPrompts (clientId client)) s1)
      | Rejected _ => (Done (Fulfilled ()), s)
      end
  | AwaitListPrompts name client =>
      let s1 :=
        match listPrompts_outcome (server client) with
        | Fulfilled prompts => with_mgr (set_promptToClientMap (set_all prompts client)) s
        | Rejected _ => s
        end in
      (AwaitListResources name client, emit (EvListResources (clientId client)) s1)
  | AwaitListResources name client =>
      let s1 :=
        match listResources_outcome (server client) with
        | Fulfilled resources =>
            with_mgr (set_resourceToClientMap (set_all resources client)) s
        | Rejected _ => s
        end in
      (Done (Fulfilled ()), s1)
  | Done r => (Done r, s)
  end.

Fixpoint resume_n (n : nat) (t : ConnectTask) (s : State) : ConnectTask * State :=
  match n with
  | 0 => (t, s)
  | S n' => let '(t', s') := connectServer_resume t s in resume_n n' t' s'
  end.

(** The number of suspensions a task still has before it settles. *)
Definition suspensions (t : ConnectTask) : nat :=
  match t with
  | AwaitConnect _ _ => 4
  | AwaitGetTools _ _ => 3
  | AwaitListPrompts _ _ => 2
  | AwaitListResources _ _ => 1
  | Done _ => 0
  end.

(** [await connectServer(name, config)] with nothing else running. *)
Definition connectServer (name : string) (config : McpServerConfig)
    (s : State) : ConnectTask * State :=
  let '(t, s1) := connectServer_start name config s in
  resume_n (suspensions t) t s1.

(** ** Tool lookup and execution *)

(** One iteration of the loop of [getAllTools]; a rejected
    [client.getTools()] ends the call. *)
Definition getAllTools_visit (toolName : string) (client : IMCPClient)
    (acc : Settled ToolSet * State) : Settled ToolSet * State :=
  match acc with
  | (Rejected e, s) => (Rejected e, s)
  | (Fulfilled allTools, s) =>
      let s1 := emit (EvGetTools (clientId client)) s in
      match getTools_outcome (server client) with
      | Rejected e => (Rejected e, s1)
      | Fulfilled clientTools =>
          match read_tool clientTools toolName with
          | Some toolDef => (Fulfilled (assign toolName toolDef allTools), s1)
          | None => (Fulfilled allTools, s1)
          end
      end
  end.

(** [getAllTools()] *)
Definition getAllTools (s : State) : Settled ToolSet * State :=
  map_fold getAllTools_visit (Fulfilled ∅, s) (toolToClientMap (mgr s)).

(** [getToolClient(toolName)] *)
Definition getToolClient (toolName : string) (s : State) : option IMCPClient :=
  toolToClientMap (mgr s) !! toolName.

(** [...(sessionId && { sessionId })] *)
Definition sessionId_field (sessionId : option string) : option string :=
  match sessionId with
  | Some sid => if truthy sid then Some sid else None
  | None => None
  end.

Section ExecuteTool.

(** The message [ToolExecutionDeniedError] builds from its arguments, in
    [tool-confirmation/errors.ts]. *)
Variable deniedMessage : string → option string → string.

(** [executeTool(toolName, args, sessionId?)] *)
Definition executeTool (toolName : string) (args : Json) (sessionId : option string)
    (s : State) : Settled Json * State :=
  match getToolClient toolName s with
  | None => (Rejected (Error ("No client found for tool: " +:+ toolName)), s)
  | Some client =>
      let details := {| td_toolName := toolName; td_args := args;
                        td_sessionId := sessionId_field sessionId |} in
      let s1 := emit (EvRequestConfirmation details) s in
      match requestConfirmation (confirmationProvider (mgr s)) details with
      | Rejected e => (Rejected e, s1)
      | Fulfilled approved =>
          if approved then
            (callTool_outcome (server client) toolName args,
             emit (EvCallTool (clientId client) toolName args) s1)
          else
            (Rejected (ToolExecutionDeniedError toolName sessionId
                         (deniedMessage toolName sessionId)), s1)
      end
  end.

End ExecuteTool.

(** ** Removal *)

(** [removeClient(name)] *)
Definition removeClient (name : string) (s : State) : Settled unit * State :=
  let s1 :=
    match clients (mgr s) !! name with
    | Some client =>
        let sa :=
          match disconnect_outcome (server client) with
          | Some _ => emit (EvDisconnect (clientId client)) s
          | None => s
          end in
        let sb := with_mgr (set_clients (delete name)) sa in
        clearClientCache name sb
    | None => s
    end in
  let s2 :=
    match connectionErrors (mgr s1) !! name with
    | Some e =>
        if truthy e then with_mgr (set_connectionErrors (delete name)) s1 else s1
    | None => s1
    end in
  (Fulfilled (), s2).

(** [disconnectAll()] *)
Definition disconnectAll (s : State) : Settled unit * State :=
  let s1 :=
    map_fold (λ (_ : string) client acc,
                match disconnect_outcome (server client) with
                | Some _ => emit (EvDisconnect (clientId client)) acc
                | None => acc
                end) s (clients (mgr s)) in
  (Fulfilled (),
   with_mgr (λ m, {| clients := ∅; connectionErrors := ∅;
                     toolToClientMap := ∅; promptToClientMap := ∅;
                     resourceToClientMap := ∅;
                     confirmationProvider := confirmationProvider m |}) s1).

(** ** Prompts, resources and the getters *)

(** [listAllPrompts()]: the keys of the prompt cache. *)
Definition listAllPrompts (s : State) : list string :=
  (map_to_list (promptToClientMap (mgr s))).*1.

(** [getPromptClient(promptName)] *)
Definition getPromptClient (promptName : string) (s : State) : option IMCPClient :=
  promptToClientMap (mgr s) !! promptName.

(** [listAllResources()]: the keys of the resource cache. *)
Definition listAllResources (s : State) : list string :=
  (map_to_list (resourceToClientMap (mgr s))).*1.

(** [getResourceClient(resourceUri)] *)
Definition getResourceClient (resourceUri : string) (s : State) : option IMCPClient :=
  resourceToClientMap (mgr s) !! resourceUri.

(** [getClients()] *)
Definition getClients (s : State) : gmap string IMCPClient := clients (mgr s).

(** [getFailedConnections()] *)
Definition getFailedConnections (s : State) : gmap string string :=
  connectionErrors (mgr s).

Section PromptsAndResources.

(** [client.getPrompt(name, args)] and [client.readResource(uri)]: what
    the server of a client answers. *)
Variable client_getPrompt : IMCPClient → string → option Json → Settled Json.
Variable client_readResource : IMCPClient → string → Settled Json.

(** [getPrompt(name, args?)] *)
Definition getPrompt (name : string) (args : option Json) (s : State) : Settled Json :=
  match getPromptClient name s with
  | None => Rejected (Error ("No client found for prompt: " +:+ name))
  | Some client => client_getPrompt client name args
  end.

(** [readResource(uri)] *)
Definition readResource (uri : string) (s : State) : Settled Json :=
  match getResourceClient uri s with
  | None => Rejected (Error ("No client found for resource: " +:+ uri))
  | Some client => client_readResource client uri
  end.

End PromptsAndResources.

(** ** [initializeFromConfig] *)

(** One element of [connectionPromises]:
    [connectServer(name, config).then(...).catch(...)].  It is [Pending]
    while [connectServer] runs and until the callback for its outcome has
    run, [Finished] afterwards. *)
Inductive ConnectPromise :=
| Pending (t : ConnectTask)
| Finished.

(** The local variables of [initializeFromConfig]. *)
Record InitFrame := {
  successfulConnections : list string;
  strictServers : list string;
  lenientServers : list string;
  connectionPromises : list (string * ConnectPromise)
}.

Definition empty_frame : InitFrame :=
  {| successfulConnections := []; strictServers := []; lenientServers := [];
     connectionPromises := [] |}.

(** [config.connectionMode || 'lenient'] *)
Definition effectiveMode (config : McpServerConfig) : ConnectionMode :=
  default lenient (connectionMode config).

(** The body of the [for] loop over [Object.entries(serverConfigs)]. *)
Definition init_visit (acc : InitFrame * State) (entry : string * McpServerConfig)
    : InitFrame * State :=
  let '(fr, s) := acc in
  let '(name, config) := entry in
  let isStrict := bool_decide (effectiveMode config = strict) in
  let '(t, s1) := connectServer_start name config s in
  ({| successfulConnections := successfulConnections fr;
      strictServers := if isStrict then strictServers fr ++ [name] else strictServers fr;
      lenientServers := if isStrict then lenientServers fr else lenientServers fr ++ [name];
      connectionPromises := connectionPromises fr ++ [(name, Pending t)] |}, s1).

Definition set_promise (i : nat) (p : string * ConnectPromise) (fr : InitFrame) : InitFrame :=
  {| successfulConnections := successfulConnections fr;
     strictServers := strictServers fr;
     lenientServers := lenientServers fr;
     connectionPromises := <[i := p]> (connectionPromises fr) |}.

Definition push_success (name : string) (fr : InitFrame) : InitFrame :=
  {| successfulConnections := successfulConnections fr ++ [name];
     strictServers := strictServers fr;
     lenientServers := lenientServers fr;
     connectionPromises := connectionPromises fr |}.

(** The event loop runs the next segment of promise [i]: either
    [connectServer] goes on to its next suspension, or, once it has
    settled, the [.then] callback pushes the name (the [.catch] callback
    only logs). *)
Definition promise_step (acc : InitFrame * State) (i : nat) : InitFrame * State :=
  let '(fr, s) := acc in
  match connectionPromises fr !! i with
  | Some (name, Pending (Done (Fulfilled _))) =>
      (set_promise i (name, Finished) (push_success name fr), s)
  | Some (name, Pending (Done (Rejected _))) =>
      (set_promise i (name, Finished) fr, s)
  | Some (name, Pending t) =>
      let '(t', s') := connectServer_resume t s in
      (set_promise i (name, Pending t') fr, s')
  | Some (_, Finished) | None => acc
  end.

(** Every promise takes at most five segments. *)
Definition drain (n : nat) : list nat :=
  i ← seq 0 n; replicate 5 i.

(** [await Promise.all(connectionPromises)]: the segments run in the
    order [sched] gives (indices into [connectionPromises]), and the await
    returns when every promise has finished; whatever [sched] left
    unfinished is run to its end, one promise after the other. *)
Definition await_all (sched : list nat) (acc : InitFrame * State) : InitFrame * State :=
  foldl promise_step acc (sched ++ drain (length (connectionPromises (fst acc)))).

(** [Array.prototype.join] on strings. *)
Fixpoint join (sep : string) (l : list string) : string :=
  match l with
  | [] => ""
  | [x] => x
  | x :: rest => x +:+ sep +:+ join sep rest
  end.

Definition strict_failure (strictErrors : string) : string :=
  "Failed to connect to required strict servers: " +:+ strictErrors.

(** [initializeFromConfig(serverConfigs)], under the schedule [sched]. *)
Definition initializeFromConfig (sched : list nat) (serverConfigs : ServerConfigs)
    (s : State) : Settled unit * State :=
  if bool_decide (length serverConfigs = 0) then (Fulfilled (), s)
  else
    let '(fr, s') := await_all sched (foldl init_visit (empty_frame, s) serverConfigs) in
    let failedStrictServers :=
      filter (λ name, name ∉ successfulConnections fr) (strictServers fr) in
    if bool_decide (0 < length failedStrictServers) then
      let strictErrors :=
        join "; " ((λ name, name +:+ ": " +:+
                      text_or (read_property (connectionErrors (mgr s')) name)
                        "Unknown error")
                   <$> failedStrictServers) in
      (Rejected (Error (strict_failure strictErrors)), s')
    else (Fulfilled (), s').

(** * The driving loops *)

(** ** Numbers

    A JS number is an IEEE 754 binary64 value: [spec_float] with a
    precision of 53 bits and [emax = 1024]. *)

(** The number an integer literal denotes. *)
Definition number_of_Z (n : Z) : spec_float := binary_normalize 53 1024 n 0 false.

(** [undefined], converted to a number, is NaN. *)
Definition to_number (v : option Z) : spec_float :=
  match v with
  | Some n => number_of_Z n
  | None => S754_nan
  end.

(** The literal [0.9]: the binary64 value nearest to nine tenths,
    8106479329266893 / 2^53. *)
Definition js_0_9 : spec_float := S754_finite false 8106479329266893 (-53).

(** [x * y] *)
Definition js_mul : spec_float → spec_float → spec_float := SFmul 53 1024.

(** [Math.floor(x)], as an integer; [None] when the result is not one
    (NaN and the infinities). *)
Definition Math_floor (x : spec_float) : option Z :=
  match x with
  | S754_zero _ => Some 0%Z
  | S754_finite s m e => Some (Z.shiftl (cond_Zopp s (Zpos m)) e)
  | S754_infinity _ | S754_nan => None
  end.

(** [Math.floor(max * 0.9)] *)
Definition with_margin (max : spec_float) : option Z := Math_floor (js_mul max js_0_9).

(** [String.prototype.toLowerCase], on the ASCII letters. *)
Definition lower_ascii (c : Ascii.ascii) : Ascii.ascii :=
  let n := Ascii.nat_of_ascii c in
  if (65 <=? n)%nat && (n <=? 90)%nat then Ascii.ascii_of_nat (n + 32) else c.

Fixpoint toLowerCase (s : string) : string :=
  match s with
  | EmptyString => EmptyString
  | String c rest => String (lower_ascii c) (toLowerCase rest)
  end.


(** ** Conversation *)

(** One [tool_calls] entry of an assistant message.  The code stores
    [JSON.stringify(toolUse.input)]; the value is kept instead of its
    text. *)
Record ToolCall := {
  tc_id : string;
  tc_name : string;
  tc_arguments : Json
}.

Inductive InternalMessage :=
| UserMessage (content : string) (imageData : option string)
| AssistantMessage (content : string) (toolCalls : option (list ToolCall))
| ToolMessage (toolCallId : string) (name : string) (result : Json).

(** Modelled from the spec: the message manager of [messages/manager.ts],
    of which only the factory is in the sources.  Section 4.2: the
    [add...] operations are "pure appends to the message log", and the
    configured maximum of input tokens is kept with the log ([None]: the
    value is not a number). *)
Record MessageManager := {
  history : list InternalMessage;
  maxTokens : option Z
}.

Definition addMessage (msg : InternalMessage) (mm : MessageManager) : MessageManager :=
  {| history := history mm ++ [msg]; maxTokens := maxTokens mm |}.

Definition addUserMessage (text : string) (imageData : option string) :=
  addMessage (UserMessage text imageData).

Definition addAssistantMessage (text : string) (toolCalls : option (list ToolCall)) :=
  addMessage (AssistantMessage text toolCalls).

Definition addToolResult (toolCallId name : string) (result : Json) :=
  addMessage (ToolMessage toolCallId name result).

(** ** [AnthropicService.completeTask] *)

(** The blocks of [response.content]. *)
Inductive ContentBlock :=
| TextBlock (text : string)
| ToolUseBlock (id name : string) (input : Json)
| OtherBlock.

(** What the service emits on its event bus. *)
Inductive ServiceEvent :=
| Thinking
| ToolCallEvent (toolName : string) (args : Json)
| ToolResultEvent (toolName : string) (result : Json)
| ResponseEvent (text : string)
| ErrorEvent (error : JsError).

Definition MAX_ITERATIONS : nat := 10.

(** The string ["\n"]. *)
Definition newline : string :=
  String (Ascii.Ascii false true false true false false false false) "".

(** [fullResponse || 'Reached maximum ...'], returned after the loop. *)
Definition best_effort (fullResponse : string) : string :=
  if truthy fullResponse then fullResponse
  else "Reached maximum number of tool call iterations without a final response.".

(** [textContent]: the text blocks, concatenated. *)
Fixpoint textContent (content : list ContentBlock) : string :=
  match content with
  | [] => ""
  | TextBlock text :: rest => text +:+ textContent rest
  | _ :: rest => textContent rest
  end.

(** [toolUses]: the [tool_use] blocks, as (id, name, input). *)
Fixpoint toolUses (content : list ContentBlock) : list (string * string * Json) :=
  match content with
  | [] => []
  | ToolUseBlock id name input :: rest => (id, name, input) :: toolUses rest
  | _ :: rest => toolUses rest
  end.

Definition formattedToolCalls (uses : list (string * string * Json)) : list ToolCall :=
  (λ '(id, name, input), {| tc_id := id; tc_name := name; tc_arguments := input |}) <$> uses.

Section AnthropicService.

(** The client manager the service was built with: its state and the two
    methods the service calls. *)
Context {M : Type}.
Variable clientManager_getAllTools : M → Settled ToolSet * M.
Variable clientManager_executeTool : string → Json → M → Settled Json * M.

(** [this.anthropic.messages.create]: what the provider answers to the
    messages and tools it is sent.  [formatToolsForClaude] depends on
    [rawTools] alone, so the answer is taken as a function of [rawTools]. *)
Variable messages_create : list InternalMessage → ToolSet → Settled (list ContentBlock).

Record Service := {
  sv_model : string;
  messageManager : MessageManager;
  clientManager : M;
  emitted : list ServiceEvent;
  (** the messages of every request sent to the provider, in order *)
  requests : list (list InternalMessage)
}.

Definition with_messageManager (f : MessageManager → MessageManager) (sv : Service) : Service :=
  {| sv_model := sv_model sv;
     messageManager := f (messageManager sv); clientManager := clientManager sv;
     emitted := emitted sv; requests := requests sv |}.

Definition with_clientManager (m : M) (sv : Service) : Service :=
  {| sv_model := sv_model sv;
     messageManager := messageManager sv; clientManager := m;
     emitted := emitted sv; requests := requests sv |}.

Definition emit_event (e : ServiceEvent) (sv : Service) : Service :=
  {| sv_model := sv_model sv;
     messageManager := messageManager sv; clientManager := clientManager sv;
     emitted := emitted sv ++ [e]; requests := requests sv |}.

Definition record_request (messages : list InternalMessage) (sv : Service) : Service :=
  {| sv_model := sv_model sv;
     messageManager := messageManager sv; clientManager := clientManager sv;
     emitted := emitted sv; requests := requests sv ++ [messages] |}.

(** The body of [for (const toolUse of toolUses)], with its [try] and
    [catch]. *)
Definition handleToolUse (sv : Service) (toolUse : string * string * Json) : Service :=
  let '(toolUseId, toolName, args) := toolUse in
  let sv1 := emit_event (ToolCallEvent toolName args) sv in
  let '(outcome, m) := clientManager_executeTool toolName args (clientManager sv1) in
  let sv2 := with_clientManager m sv1 in
  match outcome with
  | Fulfilled result =>
      emit_event (ToolResultEvent toolName result)
        (with_messageManager (addToolResult toolUseId toolName result) sv2)
  | Rejected error =>
      let payload := JObj [("error", JStr (errorMessage error))] in
      emit_event (ToolResultEvent toolName payload)
        (with_messageManager (addToolResult toolUseId toolName payload) sv2)
  end.

(** How one pass through the body of the [while] loop ends. *)
Inductive Pass :=
| Return (result : string) (sv : Service)
| Continue (fullResponse : string) (sv : Service).

(** The body of the [while] loop, after [iterationCount++], inside the
    outer [try]: a rejected request is caught by the outer [catch]. *)
Definition iteration (formattedTools : ToolSet) (fullResponse : string)
    (sv : Service) : Pass :=
  let messages := history (messageManager sv) in
  let sv1 := record_request messages sv in
  match messages_create messages formattedTools with
  | Rejected error =>
      Return ("Error processing request: " +:+ errorMessage error)
             (emit_event (ErrorEvent (as_Error error)) sv1)
  | Fulfilled content =>
      let text := textContent content in
      let uses := toolUses content in
      match uses with
      | [] =>
          let sv2 := with_messageManager (addAssistantMessage text None) sv1 in
          Return (fullResponse +:+ text)
                 (emit_event (ResponseEvent (fullResponse +:+ text)) sv2)
      | _ :: _ =>
          let sv2 := with_messageManager
                       (addAssistantMessage text (Some (formattedToolCalls uses))) sv1 in
          let fullResponse' :=
            if truthy text then fullResponse +:+ text +:+ newline else fullResponse in
          let sv3 := foldl handleToolUse sv2 uses in
          Continue fullResponse' (emit_event Thinking sv3)
      end
  end.

(** [while (iterationCount < MAX_ITERATIONS) { ... }] and what follows it.
    [fuel] bounds the number of passes the model may take. *)
Fixpoint toolLoop (fuel : nat) (formattedTools : ToolSet) (iterationCount : nat)
    (fullResponse : string) (sv : Service) : option (string * Service) :=
  match fuel with
  | 0 => None
  | S fuel' =>
      if bool_decide (iterationCount < MAX_ITERATIONS) then
        match iteration formattedTools fullResponse sv with
        | Return result sv' => Some (result, sv')
        | Continue fullResponse' sv' =>
            toolLoop fuel' formattedTools (iterationCount + 1) fullResponse' sv'
        end
      else
        Some (best_effort fullResponse, emit_event (ResponseEvent fullResponse) sv)
  end.

(** [completeTask(userInput, imageData?)].  [getAllTools] is awaited
    outside the [try]: if it rejects, so does [completeTask]. *)
Definition completeTask (fuel : nat) (userInput : string) (imageData : option string)
    (sv : Service) : option (Settled string * Service) :=
  let sv1 := with_messageManager (addUserMessage userInput imageData) sv in
  let '(rawTools, m) := clientManager_getAllTools (clientManager sv1) in
  let sv2 := with_clientManager m sv1 in
  match rawTools with
  | Rejected error => Some (Rejected error, sv2)
  | Fulfilled tools =>
      let sv3 := emit_event Thinking sv2 in
      '(result, sv') ← toolLoop fuel tools 0 "" sv3;
      Some (Fulfilled result, sv')
  end.

End AnthropicService.

(** ** [VercelLLMService.formatTools] *)

Record VercelTool (M : Type) := {
  vt_parameters : Json;
  vt_execute : Json → M → Settled Json * M;
  vt_description : option string
}.
Arguments vt_parameters {M} _.
Arguments vt_execute {M} _.
Arguments vt_description {M} _.

Section VercelService.

(** The tool manager of the service, [this.toolManager.executeTool]. *)
Context {M : Type}.
Variable toolManager_executeTool : string → Json → string → M → Settled Json * M.

(** The [execute] callback [formatTools] builds for [toolName]. *)
Definition execute (sessionId toolName : string) (args : Json) (m : M)
    : Settled Json * M :=
  let '(outcome, m') := toolManager_executeTool toolName args sessionId m in
  match outcome with
  | Fulfilled result => (Fulfilled result, m')
  | Rejected err =>
      match err with
      | DextoRuntimeError EXECUTION_DENIED message =>
          (Fulfilled (JObj [("error", JStr message); ("denied", JBool true)]), m')
      | DextoRuntimeError CONFIRMATION_TIMEOUT message =>
          (Fulfilled (JObj [("error", JStr message); ("denied", JBool true);
                            ("timeout", JBool true)]), m')
      | _ => (Fulfilled (JObj [("error", JStr (errorMessage err))]), m')
      end
  end.

(** The body of the [reduce] in [formatTools], for a name of
    [Object.keys(tools)] and the tool under it. *)
Definition formatTools_visit (sessionId toolName : string) (tool : Tool)
    (acc : gmap string (VercelTool M)) : gmap string (VercelTool M) :=
  assign toolName
    {| vt_parameters := parameters tool;
       vt_execute := execute sessionId toolName;
       vt_description :=
         match description tool with
         | Some d => if truthy d then Some d else None
         | None => None
         end |} acc.

(** [formatTools(tools)] *)
Definition formatTools (sessionId : string) (tools : ToolSet) : gmap string (VercelTool M) :=
  map_fold (formatTools_visit sessionId) ∅ tools.

End VercelService.

(** ** The token budget of a message manager *)

Section TokenBudget.

(** [getMaxTokensForModel] of [llm/registry.ts] and [getMaxTokens] of
    [tokenizer/utils.ts], neither in the sources: the maximum number of
    tokens the registry has for a provider and a model, [None] when it has
    none. *)
Variable getMaxTokensForModel : string → string → option Z.
Variable getMaxTokens : string → string → option Z.

(** [createMessageManager(config, router, promptManager)], for the
    [provider] and [model] of [config]; of the manager it builds only the
    log and the budget are kept. *)
Definition createMessageManager (provider model : string) : MessageManager :=
  let provider := toLowerCase provider in
  let model := toLowerCase model in
  let registryMaxTokens := getMaxTokensForModel provider model in
  let maxTokens := with_margin (to_number registryMaxTokens) in
  {| history := []; maxTokens := maxTokens |}.

(** [model || 'claude-3-7-sonnet-20250219'] *)
Definition anthropic_model (model : option string) : string :=
  or_default model "claude-3-7-sonnet-20250219".

(** [new AnthropicService(clientManager, systemPrompt, apiKey, agentEventBus, model?)] *)
Definition new_AnthropicService {M : Type} (clientManager : M) (model : option string)
    : Service :=
  let rawMaxTokens := getMaxTokens "anthropic" (anthropic_model model) in
  let maxTokensWithMargin := with_margin (to_number rawMaxTokens) in
  {| sv_model := anthropic_model model;
     messageManager := {| history := []; maxTokens := maxTokensWithMargin |};
     clientManager := clientManager;
     emitted := []; requests := [] |}.

End TokenBudget.

(** * The services around the driving loops *)

(** ** [VercelLLMService]: tool support of a model

    [src/core/llm/services/vercel.ts], [validateToolSupport]. *)

(** [s.startsWith(searchString)] *)
Fixpoint startsWith (s searchString : string) : bool :=
  match searchString, s with
  | EmptyString, _ => true
  | String a rest, String b s' => Ascii.eqb a b && startsWith s' rest
  | String _ _, EmptyString => false
  end.

(** [s.includes(searchString)] *)
Fixpoint includes (s searchString : string) : bool :=
  startsWith s searchString ||
  match s with
  | EmptyString => false
  | String _ rest => includes rest searchString
  end.

(** The fields of a [VercelLLMService] that [validateToolSupport] and
    [mapProviderError] read and write.  [probes] counts the test calls to
    [generateText] the service has made. *)
Record VercelLLMService := {
  vs_sessionId : string;
  vs_provider : string;
  vs_modelId : string;
  vs_baseURL : option string;
  toolSupportCache : gmap string bool;
  probes : nat
}.

(** [`${this.config.provider}:${this.model.modelId}`] *)
Definition modelKey (vs : VercelLLMService) : string :=
  vs_provider vs +:+ ":" +:+ vs_modelId vs.

(** [this.toolSupportCache.set(modelKey, supported)] *)
Definition cache_support (supported : bool) (vs : VercelLLMService) : VercelLLMService :=
  {| vs_sessionId := vs_sessionId vs;
     vs_provider := vs_provider vs; vs_modelId := vs_modelId vs;
     vs_baseURL := vs_baseURL vs;
     toolSupportCache := <[modelKey vs := supported]> (toolSupportCache vs);
     probes := probes vs |}.

Definition count_probe (vs : VercelLLMService) : VercelLLMService :=
  {| vs_sessionId := vs_sessionId vs;
     vs_provider := vs_provider vs; vs_modelId := vs_modelId vs;
     vs_baseURL := vs_baseURL vs;
     toolSupportCache := toolSupportCache vs;
     probes := S (probes vs) |}.

(** [validateToolSupport()]; [probe] is how the test call to [generateText]
    settles, if it is made. *)
Definition validateToolSupport (probe : Settled unit) (vs : VercelLLMService)
    : bool * VercelLLMService :=
  match toolSupportCache vs !! modelKey vs with
  | Some supported => (supported, vs)
  | None =>
      if negb (truthy (default "" (vs_baseURL vs))) then (true, cache_support true vs)
      else
        let vs1 := count_probe vs in
        match probe with
        | Fulfilled _ => (true, cache_support true vs1)
        | Rejected error =>
            if includes (errorMessage error) "does not support tools"
            then (false, cache_support false vs1)
            else (true, cache_support true vs1)
        end
  end.

(** ** Provider errors and their HTTP status

    [mapProviderError] of [src/core/llm/services/vercel.ts] and the error
    middleware ([mapErrorTypeToStatus], [statusForValidation],
    [errorHandler]). *)

(** [ErrorType], as the [switch] of [mapErrorTypeToStatus] lists it. *)
Inductive ErrorType :=
| USER | NOT_FOUND | FORBIDDEN | TIMEOUT | RATE_LIMIT | SYSTEM | THIRD_PARTY | UNKNOWN.

(** The members of [LLMErrorCode] the service names. *)
Inductive LLMErrorCode := RATE_LIMIT_EXCEEDED | GENERATION_FAILED | MODEL_UNKNOWN.

Inductive Phase := generate | stream.

(** The context object of a provider error.  [retryAfter] and [body],
    copied from the headers and the body of the response, are left out. *)
Record ErrorContext := {
  ctx_sessionId : string;
  ctx_provider : string;
  ctx_model : string;
  ctx_status : option N;
  ctx_phase : Phase
}.

(** An [Issue] of a validation error: its severity and, if it has one, its
    type. *)
Record Issue := {
  severity : string;
  issue_type : option ErrorType
}.

(** What is thrown on the way from the provider to the HTTP response: a
    [DextoRuntimeError] of the LLM or of the tools, a
    [DextoValidationError], a [ZodError] (with the issues [zodToIssues]
    gives for it), an [APICallError] of the SDK with its [statusCode], or
    anything else. *)
Inductive Failure :=
| LLMRuntimeError (code : LLMErrorCode) (type : ErrorType) (message : string)
    (context : ErrorContext)
| ToolRuntimeError (code : ToolErrorCode) (type : ErrorType) (message : string)
| DextoValidationError (issues : list Issue)
| ZodError (issues : list Issue)
| APICallError (statusCode : option N)
| OtherFailure (text : string).

(** [`${status}`] *)
Definition status_text (status : option N) : string :=
  match status with
  | Some n => pretty n
  | None => "undefined"
  end.

(** [mapProviderError(err, phase)]: the value it throws (it never
    returns). *)
Definition mapProviderError (vs : VercelLLMService) (err : Failure) (phase : Phase)
    : Failure :=
  match err with
  | APICallError status =>
      let context := {| ctx_sessionId := vs_sessionId vs; ctx_provider := vs_provider vs;
                        ctx_model := vs_modelId vs; ctx_status := status;
                        ctx_phase := phase |} in
      if bool_decide (status = Some 429%N) then
        LLMRuntimeError RATE_LIMIT_EXCEEDED RATE_LIMIT "Rate limit exceeded" context
      else if bool_decide (status = Some 408%N) then
        LLMRuntimeError GENERATION_FAILED TIMEOUT "Provider timed out" context
      else
        LLMRuntimeError GENERATION_FAILED THIRD_PARTY
          ("Provider error " +:+ status_text status) context
  | _ => err
  end.

(** [mapErrorTypeToStatus(type)] *)
Definition mapErrorTypeToStatus (type : ErrorType) : N :=
  match type with
  | USER => 400
  | NOT_FOUND => 404
  | FORBIDDEN => 403
  | TIMEOUT => 408
  | RATE_LIMIT => 429
  | SYSTEM => 500
  | THIRD_PARTY => 502
  | UNKNOWN => 500
  end%N.

(** [statusForValidation(issues)] *)
Definition statusForValidation (issues : list Issue) : N :=
  let firstError := find (λ i, String.eqb (severity i) "error") issues in
  let type := default USER (firstError ≫= issue_type) in
  mapErrorTypeToStatus type.

(** The body of the response: [toJSON()] of an error, or the generic
    [internal_error] object. *)
Inductive ResponseBody :=
| ErrorJson (err : Failure)
| InternalErrorJson.

(** [errorHandler(err, req, res, next)]: the status and the body it
    sends. *)
Definition errorHandler (err : Failure) : N * ResponseBody :=
  match err with
  | LLMRuntimeError _ type _ _ | ToolRuntimeError _ type _ =>
      (mapErrorTypeToStatus type, ErrorJson err)
  | DextoValidationError issues => (statusForValidation issues, ErrorJson err)
  | ZodError issues =>
      (statusForValidation issues, ErrorJson (DextoValidationError issues))
  | _ => (500%N, InternalErrorJson)
  end.

(** ** The factory of LLM services

    [extractApiKey], [_createLLMService], [_createVercelModel],
    [_createVercelLLMService] and [createLLMService] of
    [llm/services/factory.ts]. *)

(** A synchronous call returns or throws. *)
Inductive Completion (A : Type) :=
| Returns (a : A)
| Throws (e : JsError).
Arguments Returns {A} a.
Arguments Throws {A} e.

(** [LLMConfig]; the system prompt, passed on as it is, is left out. *)
Record LLMConfig := {
  llm_provider : string;
  llm_model : string;
  llm_apiKey : option string;
  llm_maxIterations : option nat
}.

(** The models [_createVercelModel] can ask the SDK for. *)
Inductive LanguageModelV1 :=
| openai (model : string)
| anthropic (model : string)
| google (model : string).

(** [extractApiKey(config)] *)
Definition extractApiKey (config : LLMConfig) : Completion string :=
  let provider := llm_provider config in
  let apiKey := or_default (llm_apiKey config) "" in
  if negb (truthy apiKey) then
    Throws (Error ("Error: API key for " +:+ provider +:+ " not found"))
  else Returns apiKey.

(** [_createVercelModel(provider, model)] *)
Definition _createVercelModel (provider model : string) : Completion LanguageModelV1 :=
  let p := toLowerCase provider in
  if String.eqb p "openai" then Returns (openai model)
  else if String.eqb p "anthropic" then Returns (anthropic model)
  else if String.eqb p "google" then Returns (google model)
  else Throws (Error ("Unsupported LLM provider: " +:+ provider)).

Section Factory.

Context {M : Type}.
Variable getMaxTokens : string → string → option Z.
Variable clientManager : M.

(** The service a call of the factory has constructed, with the arguments
    of the constructor that come from the configuration. *)
Inductive ILLMService :=
| OpenAI_service (apiKey model : string)
| Anthropic_service (apiKey : string) (service : @Service M)
| Vercel_service (model : LanguageModelV1) (maxIter : nat).

(** [_createLLMService(config, clientManager, agentEventBus)] *)
Definition _createLLMService (config : LLMConfig) : Completion ILLMService :=
  match extractApiKey config with
  | Throws e => Throws e
  | Returns apiKey =>
      let provider := toLowerCase (llm_provider config) in
      if String.eqb provider "openai" then
        Returns (OpenAI_service apiKey (llm_model config))
      else if String.eqb provider "anthropic" then
        Returns (Anthropic_service apiKey
                   (new_AnthropicService getMaxTokens clientManager
                      (Some (llm_model config))))
      else Throws (Error ("Unsupported LLM provider: " +:+ llm_provider config))
  end.

(** [_createVercelLLMService(config, clientManager, agentEventBus)] *)
Definition _createVercelLLMService (config : LLMConfig) : Completion ILLMService :=
  match _createVercelModel (llm_provider config) (llm_model config) with
  | Throws e => Throws e
  | Returns model =>
      let maxIter := default 50 (llm_maxIterations config) in
      Returns (Vercel_service model maxIter)
  end.

(** [createLLMService(config, vercel, clientManager, agentEventBus)] *)
Definition createLLMService (config : LLMConfig) (vercel : bool)
    : Completion ILLMService :=
  if vercel then _createVercelLLMService config else _createLLMService config.

End Factory.

(** ** The agent

    [run] and [connectMcpServer] of class [SaikiAgent]. *)

(** The UTF-8 encoding of a code point. *)
Definition utf8 (cp : N) : string :=
  let byte (n : N) := String (Ascii.ascii_of_N n) "" in
  if (cp <? 0x80)%N then byte cp
  else if (cp <? 0x800)%N then
    byte (0xC0 + cp / 64)%N +:+ byte (0x80 + cp mod 64)%N
  else if (cp <? 0x10000)%N then
    byte (0xE0 + cp / 4096)%N +:+ byte (0x80 + (cp / 64) mod 64)%N +:+
    byte (0x80 + cp mod 64)%N
  else
    byte (0xF0 + cp / 262144)%N +:+ byte (0x80 + (cp / 4096) mod 64)%N +:+
    byte (0x80 + (cp / 64) mod 64)%N +:+ byte (0x80 + cp mod 64)%N.

(** The string of a list of code points. *)
Definition utf8_string (cps : list N) : string :=
  foldr (λ cp s, utf8 cp +:+ s) "" cps.

(** The code points [String.prototype.trim] removes, the WhiteSpace and
    the LineTerminator of ECMAScript: tab, line feed, vertical tab, form
    feed, carriage return, space, no-break space, the other space
    separators of Unicode (U+1680, U+2000 to U+200A, U+202F, U+205F,
    U+3000), the line and the paragraph separator, and the byte order
    mark. *)
Definition white_space_code_points : list N :=
  [0x09; 0x0A; 0x0B; 0x0C; 0x0D; 0x20; 0xA0; 0x1680;
   0x2000; 0x2001; 0x2002; 0x2003; 0x2004; 0x2005; 0x2006; 0x2007; 0x2008; 0x2009;
   0x200A; 0x2028; 0x2029; 0x202F; 0x205F; 0x3000; 0xFEFF]%N.

Definition is_white_space (cp : N) : bool := bool_decide (cp ∈ white_space_code_points).

(** [s] without its prefix [p], if it starts with it. *)
Fixpoint strip_prefix (p s : string) : option string :=
  match p, s with
  | EmptyString, _ => Some s
  | String a p', String b s' => if Ascii.eqb a b then strip_prefix p' s' else None
  | String _ _, EmptyString => None
  end.

(** [s] without the white space character it starts with, if it starts
    with one. *)
Definition strip_white_space (s : string) : option string :=
  foldr (λ cp found,
           match strip_prefix (utf8 cp) s with
           | Some rest => Some rest
           | None => found
           end) None white_space_code_points.

Fixpoint trimStart_from (fuel : nat) (s : string) : string :=
  match fuel with
  | 0 => s
  | S fuel' =>
      match strip_white_space s with
      | Some rest => trimStart_from fuel' rest
      | None => s
      end
  end.

(** [String.prototype.trimStart]: a character takes a byte at least, so
    the length of the string bounds the number of characters to remove. *)
Definition trimStart (s : string) : string := trimStart_from (String.length s) s.

(** [String.prototype.trimEnd]: nothing is left of a string of white space,
    and any other string keeps its first byte. *)
Fixpoint trimEnd (s : string) : string :=
  match s with
  | EmptyString => EmptyString
  | String c rest =>
      if String.eqb (trimStart s) "" then EmptyString else String c (trimEnd rest)
  end.

(** [String.prototype.trim] *)
Definition trim (s : string) : string := trimStart (trimEnd s).

(** [run(userInput, imageDataInput?)], given how
    [this._llmService.completeTask(userInput, imageDataInput)] settles;
    [None] is [null]. *)
Definition run (llmResponse : Settled string) : Settled (option string) :=
  match llmResponse with
  | Fulfilled response =>
      if truthy response && negb (String.eqb (trim response) "")
      then Fulfilled (Some response)
      else Fulfilled None
  | Rejected error => Rejected error
  end.

(** What the agent emits on its event bus: [saiki:mcpServerConnected] with
    its payload, and [saiki:availableToolsUpdated]. *)
Inductive AgentEvent :=
| McpServerConnected (name : string) (success : bool) (error : option string)
| AvailableToolsUpdated.

(** [connectMcpServer(name, config)], on the state of the client manager
    and the events emitted so far.  [None]: [connectServer] had not
    settled. *)
Definition connectMcpServer (name : string) (config : McpServerConfig)
    (agent : State * list AgentEvent) : option (Settled unit * (State * list AgentEvent)) :=
  let '(s, bus) := agent in
  match connectServer name config s with
  | (Done (Fulfilled _), s') =>
      Some (Fulfilled (),
            (s', bus ++ [McpServerConnected name true None; AvailableToolsUpdated]))
  | (Done (Rejected error), s') =>
      Some (Rejected error,
            (s', bus ++ [McpServerConnected name false (Some (errorMessage error))]))
  | _ => None
  end.

(** ** The local blob store

    [parseReference], [detectMimeType] and [isTextBuffer] of class
    [LocalBlobBackend].  A [Buffer] is a list of bytes. *)

(** The errors of [BlobError] that [parseReference] throws. *)
Inductive BlobError :=
| invalidReference (reference reason : string).

(** [s.substring(n)] *)
Fixpoint substring_from (n : nat) (s : string) : string :=
  match n, s with
  | 0, _ => s
  | S n', String _ rest => substring_from n' rest
  | S _, EmptyString => EmptyString
  end.

(** [`blob:${id}`], the [uri] of the reference [store] returns. *)
Definition blob_uri (id : string) : string := "blob:" +:+ id.

(** [parseReference(reference)] *)
Definition parseReference (reference : string) : BlobError + string :=
  if negb (truthy reference) then inl (invalidReference reference "Empty reference")
  else if startsWith reference "blob:" then
    let id := substring_from 5 reference in
    if negb (truthy id) then
      inl (invalidReference reference "Empty blob ID after prefix")
    else inr id
  else inr reference.

Global Instance byte_eq_dec : EqDecision byte := Byte.byte_eq_dec.

(** The literal [0.7]: the binary64 value nearest to seven tenths,
    6305039478318694 / 2^53. *)
Definition js_0_7 : spec_float := S754_finite false 6305039478318694 (-53).

(** [x / y] *)
Definition js_div : spec_float → spec_float → spec_float := SFdiv 53 1024.

(** [x > y] *)
Definition js_gt (x y : spec_float) : bool := SFltb y x.

(** The test on [byte] in the loop of [isTextBuffer]. *)
Definition printable (b : byte) : bool :=
  let n := Byte.to_N b in
  ((32 <=? n)%N && (n <=? 126)%N) || (n =? 9)%N || (n =? 10)%N || (n =? 13)%N.

(** [isTextBuffer(buffer)] *)
Definition isTextBuffer (buffer : list byte) : bool :=
  let sampleSize := Nat.min 512 (length buffer) in
  let printableCount :=
    length (filter (λ b, printable b = true) (take sampleSize buffer)) in
  js_gt (js_div (number_of_Z (Z.of_nat printableCount))
                (number_of_Z (Z.of_nat sampleSize)))
        js_0_7.

(** The table [mimeTypes] of [detectMimeType]. *)
Definition mimeTypes : list (string * string) :=
  [(".jpg", "image/jpeg"); (".jpeg", "image/jpeg"); (".png", "image/png");
   (".gif", "image/gif"); (".pdf", "application/pdf"); (".txt", "text/plain");
   (".json", "application/json"); (".xml", "text/xml"); (".html", "text/html");
   (".css", "text/css"); (".js", "text/javascript"); (".mp3", "audio/mpeg");
   (".mp4", "video/mp4"); (".wav", "audio/wav")].

(** [table[key]] on a table of strings. *)
Fixpoint assoc (key : string) (table : list (string * string)) : option string :=
  match table with
  | [] => None
  | (k, v) :: rest => if String.eqb k key then Some v else assoc key rest
  end.

Section MimeType.

(** [path.extname] of Node.  It returns the empty string or an extension
    that starts with a dot, so [mimeTypes[ext]] never finds a property the
    table inherits. *)
Variable extname : string → string.

(** "Basic magic number detection": the first four bytes of the buffer,
    compared with [Buffer.equals]. *)
Definition by_signature (buffer : list byte) : option string :=
  let header := take 16 buffer in
  if (4 <=? length header)%nat then
    let signature := take 4 header in
    if bool_decide (signature = [xff; xd8; xff]) then Some "image/jpeg"
    else if bool_decide (signature = [x89; x50; x4e; x47]) then Some "image/png"
    else if bool_decide (signature = [x47; x49; x46; x38]) then Some "image/gif"
    else if bool_decide (signature = [x25; x50; x44; x46]) then Some "application/pdf"
    else None
  else None.

(** "Try filename extension" *)
Definition by_extension (filename : option string) : option string :=
  match filename with
  | Some name =>
      if truthy name then assoc (toLowerCase (extname name)) mimeTypes else None
  | None => None
  end.

(** [detectMimeType(buffer, filename?)] *)
Definition detectMimeType (buffer : list byte) (filename : option string) : string :=
  match by_signature buffer with
  | Some mimeType => mimeType
  | None =>
      match by_extension filename with
      | Some mimeType => mimeType
      | None => if isTextBuffer buffer then "text/plain" else "application/octet-stream"
      end
  end.

End MimeType.


(** * Specification

    The predicates the properties are stated with, and the servers and
    configurations of the examples. *)

(** ** Outcomes of a connection *)

(** A settled promise was fulfilled. *)
Definition is_fulfilled {A} (r : Settled A) : bool :=
  match r with Fulfilled _ => true | Rejected _ => false end.

(** [effectiveMode === 'strict'] for an entry. *)
Definition is_strict (entry : string * McpServerConfig) : bool :=
  bool_decide (effectiveMode (snd entry) = strict).

(** Whether the connection of an entry succeeds, in a manager whose clients
    were [cl0] when [initializeFromConfig] was called: a registered name
    makes [connectServer] return at once, any other name succeeds exactly
    when [client.connect] does. *)
Definition connects (cl0 : gmap string IMCPClient)
    (entry : string * McpServerConfig) : bool :=
  match cl0 !! fst entry with
  | Some _ => true
  | None =>
      match connect_outcome (endpoint (snd entry)) with
      | Fulfilled _ => true
      | Rejected _ => false
      end
  end.

(** The message of the error [client.connect] rejects with. *)
Definition failure_cause (config : McpServerConfig) : string :=
  match connect_outcome (endpoint config) with
  | Rejected e => errorMessage e
  | Fulfilled _ => ""
  end.

(** The entries whose failure makes [initializeFromConfig] fail. *)
Definition failed_strict (cl0 : gmap string IMCPClient)
    (entry : string * McpServerConfig) : bool :=
  is_strict entry && negb (connects cl0 entry).

(** What a rejected connection leaves under [name] in [connectionErrors],
    where [before] was there: the message of the error.  Only under the
    name [__proto__] nothing is stored, unless the object had a property of
    its own by that name. *)
Definition recorded (name : string) (before : option string) (errorMsg : string)
    : option string :=
  match before with
  | None => if bool_decide (name = "__proto__") then None else Some errorMsg
  | Some _ => Some errorMsg
  end.

(** [this.connectionErrors[name] || 'Unknown error'] for a server whose
    connection was rejected, in a manager whose recorded errors were [err0]
    when [initializeFromConfig] was called: the recorded cause, or
    [Object.prototype] as a string where nothing could be recorded. *)
Definition cause_text (err0 : gmap string string)
    (entry : string * McpServerConfig) : string :=
  match recorded (fst entry) (err0 !! fst entry) (failure_cause (snd entry)) with
  | Some cause => or_default (Some cause) "Unknown error"
  | None => "[object Object]"
  end.

(** The part of the aggregate message that names one failed server. *)
Definition strict_error_line (err0 : gmap string string)
    (entry : string * McpServerConfig) : string :=
  fst entry +:+ ": " +:+ cause_text err0 entry.

(** ** States of the manager *)

(** The three cache maps, as [clearClientCache] lists them. *)
Definition caches (m : MCPManager) : list (gmap string IMCPClient) :=
  [toolToClientMap m; promptToClientMap m; resourceToClientMap m].

(** Every client a cache map refers to is an object that was created
    before: its allocation number is below the next one. *)
Definition allocated (s : State) : Prop :=
  ∀ cacheMap k c, cacheMap ∈ caches (mgr s) → cacheMap !! k = Some c →
    clientId c < nextClientId s.

(** The name is registered, with a client of the configured server. *)
Definition registered_as (s : State) (name : string) (config : McpServerConfig) : Prop :=
  ∃ c, clients (mgr s) !! name = Some c ∧ server c = endpoint config.

(** Every tool the configured server advertises has an owner in the tool
    cache. *)
Definition tools_cached (s : State) (config : McpServerConfig) : Prop :=
  ∀ tools t, getTools_outcome (endpoint config) = Fulfilled tools →
    is_Some (tools !! t) → is_Some (toolToClientMap (mgr s) !! t).

(** What a connection attempt has left in the manager once it settled, for
    a name that was not registered before: the client and its tools, or
    the recorded error. *)
Definition settled_facts (cl0 : gmap string IMCPClient) (err0 : gmap string string)
    (s : State) (name : string) (config : McpServerConfig) : Prop :=
  cl0 !! name = None →
  match connect_outcome (endpoint config) with
  | Fulfilled _ => registered_as s name config ∧ tools_cached s config
  | Rejected e =>
      connectionErrors (mgr s) !! name = recorded name (err0 !! name) (errorMessage e) ∧
      clients (mgr s) !! name = None
  end.

(** The client is registered, and no [disconnect] was sent to it. *)
Definition still_connected (s : State) (c : IMCPClient) : Prop :=
  (∃ name, clients (mgr s) !! name = Some c) ∧ EvDisconnect (clientId c) ∉ trace s.

(** The tool cache is current: every tool in it belongs to a client that is
    still connected and that lists the tool, and none is named
    [__proto__]. *)
Definition cache_current (s : State) : Prop :=
  ∀ t c, toolToClientMap (mgr s) !! t = Some c →
    still_connected s c ∧ t ≠ "__proto__" ∧
    ∃ ts, getTools_outcome (server c) = Fulfilled ts ∧ is_Some (ts !! t).

(** One state comes after another: calls were only added to the record,
    and no tool name left the tool cache. *)
Definition extends (s s' : State) : Prop :=
  (∃ new, trace s' = trace s ++ new) ∧
  (∀ k, is_Some (toolToClientMap (mgr s) !! k) → is_Some (toolToClientMap (mgr s') !! k)).

(** The second half of C4 as the specification states it: when
    [initializeFromConfig] rejects, no tool of a lenient server that
    connected during the call is left in the tool cache. *)
Definition discards_on_abort (sched : list nat) (configs : ServerConfigs) (s : State) : Prop :=
  let '(r, s') := initializeFromConfig sched configs s in
  is_fulfilled r = false →
  ∀ name config tools t,
    (name, config) ∈ configs → effectiveMode config = lenient →
    clients (mgr s) !! name = None →
    is_fulfilled (connect_outcome (endpoint config)) = true →
    getTools_outcome (endpoint config) = Fulfilled tools → is_Some (tools !! t) →
    toolToClientMap (mgr s') !! t = None.

(** ** The promises of [initializeFromConfig] *)

(** What the promise of an entry looks like when the [for] loop has gone
    over it, in a manager whose clients are [cl]. *)
Definition started (cl : gmap string IMCPClient) (entry : string * McpServerConfig)
    (np : string * ConnectPromise) : Prop :=
  fst np = fst entry ∧
  match cl !! fst entry with
  | Some _ => snd np = Pending (Done (Fulfilled ()))
  | None => ∃ c, snd np = Pending (AwaitConnect (fst entry) c) ∧
                 server c = endpoint (snd entry)
  end.

(** The attempt has connected and registered [c], and its promise has not
    finished yet. *)
Definition connected_as (cl0 : gmap string IMCPClient) (succ : list string) (s : State)
    (name : string) (config : McpServerConfig) (c : IMCPClient) : Prop :=
  server c = endpoint config ∧ cl0 !! name = None ∧
  is_fulfilled (connect_outcome (endpoint config)) = true ∧
  clients (mgr s) !! name = Some c ∧ name ∉ succ.

(** The condition a promise satisfies at each point of its life. *)
Definition pinv (cl0 : gmap string IMCPClient) (err0 : gmap string string)
    (succ : list string) (s : State)
    (name : string) (config : McpServerConfig) (p : ConnectPromise) : Prop :=
  match p with
  | Pending (AwaitConnect n c) =>
      n = name ∧ server c = endpoint config ∧ cl0 !! name = None ∧
      clients (mgr s) !! name = None ∧ (name ∉ succ) ∧
      connectionErrors (mgr s) !! name = err0 !! name
  | Pending (AwaitGetTools n c) =>
      n = name ∧ connected_as cl0 succ s name config c
  | Pending (AwaitListPrompts n c) | Pending (AwaitListResources n c) =>
      n = name ∧ connected_as cl0 succ s name config c ∧ tools_cached s config
  | Pending (Done r) =>
      (name ∉ succ) ∧ is_fulfilled r = connects cl0 (name, config) ∧
      settled_facts cl0 err0 s name config
  | Finished =>
      (name ∈ succ ↔ connects cl0 (name, config) = true) ∧
      settled_facts cl0 err0 s name config
  end.

(** The connection is suspended at an await, not settled. *)
Definition pending_task (t : ConnectTask) : Prop :=
  match t with Done _ => False | _ => True end.

(** Every promise is the one of the entry at its index and satisfies
    [pinv]. *)
Definition Inv (cl0 : gmap string IMCPClient) (err0 : gmap string string)
    (configs : ServerConfigs) (acc : InitFrame * State) : Prop :=
  length (connectionPromises (fst acc)) = length configs ∧
  ∀ i name config, configs !! i = Some (name, config) →
    ∃ p, connectionPromises (fst acc) !! i = Some (name, p) ∧
         pinv cl0 err0 (successfulConnections (fst acc)) (snd acc) name config p.

(** The number of segments a promise still has to run. *)
Definition rank (p : ConnectPromise) : nat :=
  match p with
  | Pending t => S (suspensions t)
  | Finished => 0
  end.

(** The same, for the promise at index [j] (none: nothing to run). *)
Definition rank_at (fr : InitFrame) (j : nat) : nat :=
  match connectionPromises fr !! j with
  | Some (_, p) => rank p
  | None => 0
  end.

(** ** Answers and payloads in the driving loops *)

(** The payload [handleToolUse] stores for an outcome of [executeTool]. *)
Definition tool_payload (outcome : Settled Json) : Json :=
  match outcome with
  | Fulfilled result => result
  | Rejected error => JObj [("error", JStr (errorMessage error))]
  end.

(** The tool messages a pass of [completeTask] appends for the tool uses of
    an answer, where [m] is the client manager when the first of them
    runs: for each tool use in turn, one message with its id and name that
    carries what [executeTool] fulfilled with or, when it rejected, the
    object [{ error: message }]. *)
Fixpoint tool_messages {M : Type} (exec : string → Json → M → Settled Json * M)
    (uses : list (string * string * Json)) (m : M) : list InternalMessage :=
  match uses with
  | [] => []
  | (id, name, input) :: rest =>
      let '(outcome, m') := exec name input m in
      ToolMessage id name
        match outcome with
        | Fulfilled result => result
        | Rejected error => JObj [("error", JStr (errorMessage error))]
        end
      :: tool_messages exec rest m'
  end.

(** The events that go with them: for each tool use the call and, at once,
    its result. *)
Fixpoint tool_events {M : Type} (exec : string → Json → M → Settled Json * M)
    (uses : list (string * string * Json)) (m : M) : list ServiceEvent :=
  match uses with
  | [] => []
  | (id, name, input) :: rest =>
      let '(outcome, m') := exec name input m in
      ToolCallEvent name input :: ToolResultEvent name (tool_payload outcome)
      :: tool_events exec rest m'
  end.

(** A tool message answers a tool use when it carries its id and name. *)
Definition answers (toolUse : string * string * Json) (msg : InternalMessage) : Prop :=
  ∃ payload, msg = ToolMessage (fst (fst toolUse)) (snd (fst toolUse)) payload.

(** The request was answered with at least one tool call. *)
Definition answered_with_tool_calls
    (create : list InternalMessage → ToolSet → Settled (list ContentBlock))
    (tools : ToolSet) (messages : list InternalMessage) : Prop :=
  ∃ content, create messages tools = Fulfilled content ∧ toolUses content ≠ [].

(** The request was rejected, or answered without tool calls. *)
Definition answered_finally
    (create : list InternalMessage → ToolSet → Settled (list ContentBlock))
    (tools : ToolSet) (messages : list InternalMessage) : Prop :=
  is_fulfilled (create messages tools) = false ∨
  ∃ content, create messages tools = Fulfilled content ∧ toolUses content = [].

(** The payload the [execute] callback of [formatTools] returns for an
    error of [executeTool]. *)
Definition vercel_payload (err : JsError) : Json :=
  match err with
  | DextoRuntimeError EXECUTION_DENIED message =>
      JObj [("error", JStr message); ("denied", JBool true)]
  | DextoRuntimeError CONFIRMATION_TIMEOUT message =>
      JObj [("error", JStr message); ("denied", JBool true); ("timeout", JBool true)]
  | _ => JObj [("error", JStr (errorMessage err))]
  end.

(** ** Servers, configurations and services of the examples *)

(** The definition every example server gives for its tools. *)
Definition sample_tool : Tool :=
  {| description := Some "a tool"; parameters := JObj [("type", JStr "object")] |}.

(** A server that accepts the connection and advertises [tools]. *)
Definition reachable_server (tools : list string) : Server :=
  {| connect_outcome := Fulfilled ();
     getTools_outcome := Fulfilled (list_to_map ((λ t, (t, sample_tool)) <$> tools));
     listPrompts_outcome := Fulfilled [];
     listResources_outcome := Rejected (Error "Method not found");
     callTool_outcome := λ _ _, Fulfilled (JStr "ok");
     disconnect_outcome := Some (Fulfilled ()) |}.

(** A server the client cannot connect to. *)
Definition unreachable_server (cause : string) : Server :=
  {| connect_outcome := Rejected (Error cause);
     getTools_outcome := Rejected (Error "Not connected");
     listPrompts_outcome := Rejected (Error "Not connected");
     listResources_outcome := Rejected (Error "Not connected");
     callTool_outcome := λ _ _, Rejected (Error "Not connected");
     disconnect_outcome := Some (Fulfilled ()) |}.

(** A gate that denies every call. *)
Definition deny_all : ToolConfirmationProvider :=
  {| requestConfirmation := λ _, Fulfilled false |}.

(** A message for [ToolExecutionDeniedError]. *)
Definition sample_deniedMessage (toolName : string) (_ : option string) : string :=
  "Tool '" +:+ toolName +:+ "' execution was denied".

(** A reachable server that advertises the tool [read]. *)
Definition fs_config : McpServerConfig :=
  {| connectionMode := None; endpoint := reachable_server ["read"] |}.

(** The state after [connectServer("fs", ...)] on a fresh manager. *)
Definition fs_connected : State :=
  snd (connectServer "fs" fs_config (initial_State None)).

(** The state after [removeClient("fs")] in that state. *)
Definition fs_removed : State :=
  snd (removeClient "fs" fs_connected).

(** A reachable server that advertises the tool [search]. *)
Definition docs_config : McpServerConfig :=
  {| connectionMode := Some lenient; endpoint := reachable_server ["search"] |}.

(** The state after [connectServer("fs", ...)] and
    [connectServer("docs", ...)] on a fresh manager, and the client
    registered for [docs]. *)
Definition both_connected : State :=
  snd (connectServer "docs" docs_config fs_connected).

Definition docs_client : IMCPClient :=
  {| clientId := 1; server := reachable_server ["search"] |}.

(** A strict server that cannot be reached. *)
Definition unreachable_fs : McpServerConfig :=
  {| connectionMode := Some strict; endpoint := unreachable_server "ENOENT" |}.

(** The state after the failed [connectServer("fs", ...)] on a fresh
    manager. *)
Definition fs_failed : State :=
  snd (connectServer "fs" unreachable_fs (initial_State None)).

(** The state after [connectServer("fs", ...)] has connected [fs] and a
    later [connectServer("docs", ...)] has failed. *)
Definition docs_failed : State :=
  snd (connectServer "docs" unreachable_fs fs_connected).

(** The scenario of the specification: [fs] is strict and unreachable,
    [docs] is lenient, reachable, and advertises the tool [search]. *)
Definition abort_configs : ServerConfigs :=
  [("fs", {| connectionMode := Some strict; endpoint := unreachable_server "ENOENT" |});
   ("docs", {| connectionMode := Some lenient; endpoint := reachable_server ["search"] |})].

(** A single server, strict and unreachable, whose name is [__proto__], as
    [JSON.parse] gives it for the key ["__proto__"]. *)
Definition proto_configs : ServerConfigs := [("__proto__", unreachable_fs)].

(** A server without a [connectionMode] that cannot be reached. *)
Definition unreachable_lenient : McpServerConfig :=
  {| connectionMode := None; endpoint := unreachable_server "ECONNREFUSED" |}.

(** The same single server, without a [connectionMode]. *)
Definition proto_lenient_configs : ServerConfigs := [("__proto__", unreachable_lenient)].

(** Two unreachable servers without a [connectionMode] and a strict one
    that is reachable. *)
Definition degraded_configs : ServerConfigs :=
  [("mail", {| connectionMode := None; endpoint := unreachable_server "ECONNREFUSED" |});
   ("fs", {| connectionMode := Some strict; endpoint := reachable_server ["read"] |});
   ("web", {| connectionMode := None; endpoint := unreachable_server "" |})].

(** A manager whose gate denies everything and whose tool cache knows
    [delete_file]. *)
Definition guarded_manager : State :=
  snd (connectServer "fs"
         {| connectionMode := None; endpoint := reachable_server ["delete_file"] |}
         (initial_State (Some deny_all))).

(** A provider that asks for [delete_file] when the conversation ends with
    a message of the user, and gives up when it ends with anything else. *)
Definition asks_after_user (messages : list InternalMessage) (_ : ToolSet)
    : Settled (list ContentBlock) :=
  match last messages with
  | Some (UserMessage _ _) =>
      Fulfilled [TextBlock "Deleting."; ToolUseBlock "call_1" "delete_file" JNull]
  | _ => Fulfilled [TextBlock "I was not allowed to."]
  end.

(** A provider that asks for [delete_file] first and gives up after. *)
Definition asks_for_delete (messages : list InternalMessage) (_ : ToolSet)
    : Settled (list ContentBlock) :=
  match messages with
  | [_] => Fulfilled [TextBlock "Deleting."; ToolUseBlock "call_1" "delete_file" JNull]
  | _ => Fulfilled [TextBlock "I was not allowed to."]
  end.

(** A service at the start of its loop, after the user message. *)
Definition first_turn : Service :=
  {| sv_model := "claude-3-7-sonnet-20250219";
     messageManager := {| history := [UserMessage "remove the file" None];
                          maxTokens := Some 180000%Z |};
     clientManager := guarded_manager;
     emitted := []; requests := [] |}.

(** The same service one turn later: the first turn, with its tool call
    and the denial, is in the history. *)
Definition second_turn : Service :=
  {| sv_model := "claude-3-7-sonnet-20250219";
     messageManager :=
       {| history :=
            [UserMessage "remove the file" None;
             AssistantMessage "Deleting."
               (Some [{| tc_id := "call_1"; tc_name := "delete_file";
                         tc_arguments := JNull |}]);
             ToolMessage "call_1" "delete_file"
               (JObj [("error", JStr "Tool 'delete_file' execution was denied")]);
             AssistantMessage "I was not allowed to." None];
          maxTokens := Some 180000%Z |};
     clientManager := guarded_manager;
     emitted := []; requests := [] |}.

(** A tool manager whose gate denies every call. *)
Definition always_denied (toolName : string) (_ : Json) (_ : string) (t : unit)
    : Settled Json * unit :=
  (Rejected (DextoRuntimeError EXECUTION_DENIED ("Tool " +:+ toolName +:+ " denied")), t).

(** A registry with one entry. *)
Definition sample_registry (provider model : string) : option Z :=
  if bool_decide (provider = "anthropic" ∧ model = "claude-3-7-sonnet-20250219")
  then Some 200000%Z else None.

(** ** Requests of the manager *)

(** The [disconnect] request [removeClient] and [disconnectAll] send to a
    client: none if it has no [disconnect] method. *)
Definition disconnect_events (client : option IMCPClient) : list Event :=
  match client with
  | Some c =>
      match disconnect_outcome (server c) with
      | Some _ => [EvDisconnect (clientId c)]
      | None => []
      end
  | None => []
  end.

(** The [connect] requests the loop of [initializeFromConfig] sends, in a
    manager whose clients are [cl] and whose next client object is number
    [next]: one for each entry whose name is not registered, in the order
    of the entries. *)
Fixpoint connect_events (cl : gmap string IMCPClient) (next : nat)
    (configs : ServerConfigs) : list Event :=
  match configs with
  | [] => []
  | (name, _) :: rest =>
      if bool_decide (is_Some (cl !! name)) then connect_events cl next rest
      else EvConnect name next :: connect_events cl (S next) rest
  end.

Definition is_connect (e : Event) : bool :=
  match e with EvConnect _ _ => true | _ => false end.

(** The name a suspended connection is for. *)
Definition task_name (t : ConnectTask) : option string :=
  match t with
  | AwaitConnect n _ | AwaitGetTools n _ | AwaitListPrompts n _
  | AwaitListResources n _ => Some n
  | Done _ => None
  end.

(** No connection is under way for a name that was registered in [cl0]. *)
Definition fresh_tasks (cl0 : gmap string IMCPClient) (fr : InitFrame) : Prop :=
  ∀ i n t k, connectionPromises fr !! i = Some (n, Pending t) →
    task_name t = Some k → cl0 !! k = None.

(** The names registered in [cl0] have the same client and the same
    recorded error in [s'] as in [s]. *)
Definition same_registrations (cl0 : gmap string IMCPClient) (s s' : State) : Prop :=
  ∀ k, is_Some (cl0 !! k) →
    clients (mgr s') !! k = clients (mgr s) !! k ∧
    connectionErrors (mgr s') !! k = connectionErrors (mgr s) !! k.

(** Every promise is for a connection that returned at once: its callback
    has not run yet, or it has and the name is among the successful
    connections.  The names of the promises cover the strict servers. *)
Definition returned_at_once (fr : InitFrame) : Prop :=
  (∀ i n p, connectionPromises fr !! i = Some (n, p) →
     p = Pending (Done (Fulfilled ())) ∨
     (p = Finished ∧ n ∈ successfulConnections fr)) ∧
  (∀ n, n ∈ strictServers fr → n ∈ (connectionPromises fr).*1).

(** ** Events and conversations of [completeTask] *)

(** The events between the first [thinking] and the last event, read off
    the messages [added] to the conversation; [pending] are the tool calls
    of the last assistant message that have no tool message yet.  A tool
    message goes with two events, the call, with the name and the
    arguments the assistant message has for it, and at once the result,
    with the payload of the tool message; and when the last tool call of
    an assistant message has its tool message, [thinking] announces the
    next pass.  No other message goes with an event. *)
Fixpoint conversation_events (pending : list ToolCall) (added : list InternalMessage)
    : list ServiceEvent :=
  match added with
  | [] => []
  | AssistantMessage _ (Some calls) :: rest => conversation_events calls rest
  | ToolMessage _ name result :: rest =>
      match pending with
      | call :: later =>
          ToolCallEvent (tc_name call) (tc_arguments call) :: ToolResultEvent name result
          :: (match later with [] => [Thinking] | _ :: _ => [] end)
          ++ conversation_events later rest
      | [] => conversation_events [] rest
      end
  | _ :: rest => conversation_events pending rest
  end.

(** The text of the assistant in the messages [added]: the contents of its
    messages, in order; a message with tool calls, unless it is empty, is
    followed by a line feed. *)
Fixpoint response_text (added : list InternalMessage) : string :=
  match added with
  | [] => ""
  | AssistantMessage content (Some _) :: rest =>
      (if truthy content then content +:+ newline else "") +:+ response_text rest
  | AssistantMessage content None :: rest => content +:+ response_text rest
  | _ :: rest => response_text rest
  end.

(** The messages [added] end with an answer of the assistant that has no
    tool call. *)
Fixpoint answered (added : list InternalMessage) : bool :=
  match added with
  | [] => false
  | AssistantMessage _ None :: rest =>
      match rest with [] => true | _ :: _ => answered rest end
  | _ :: rest => answered rest
  end.

(** The last event [completeTask] emits, and the text it returns, for the
    messages [added] to the conversation.  The event is the response, with
    the text of the assistant; the text returned is that text, except when
    the conversation does not end with an answer (the limit of iterations
    was reached) and the text is empty: then it is the fixed sentence.  Or
    the event is the error of the provider, as an [Error] object, and the
    text returned is "Error processing request: " and its message. *)
Definition final_event (added : list InternalMessage) (e : ServiceEvent) (text : string)
    : Prop :=
  match e with
  | ResponseEvent full =>
      full = response_text added ∧
      text = if answered added || truthy full then full
             else "Reached maximum number of tool call iterations without a final response."
  | ErrorEvent error =>
      text = "Error processing request: " +:+ errorMessage error ∧
      ∀ value, error ≠ NonError value
  | _ => False
  end.

(** A tool message answers a tool call of an assistant message. *)
Definition answers_call (call : ToolCall) (msg : InternalMessage) : Prop :=
  ∃ payload, msg = ToolMessage (tc_id call) (tc_name call) payload.

(** A conversation in which every tool call of an assistant message is
    answered, in order, by the tool messages that follow the message. *)
Inductive balanced : list InternalMessage → Prop :=
| balanced_nil : balanced []
| balanced_user content imageData rest :
    balanced rest → balanced (UserMessage content imageData :: rest)
| balanced_text content rest :
    balanced rest → balanced (AssistantMessage content None :: rest)
| balanced_calls content calls results rest :
    Forall2 answers_call calls results → balanced rest →
    balanced (AssistantMessage content (Some calls) :: results ++ rest).

(** ** Statuses, keys and blank text *)

(** The statuses [errorHandler] answers with. *)
Definition http_statuses : list N := [400; 403; 404; 408; 429; 500; 502]%N.

Definition is_returned {A} (c : Completion A) : bool :=
  match c with Returns _ => true | Throws _ => false end.

(** [config.apiKey || ''] is not empty. *)
Definition has_apiKey (config : LLMConfig) : bool :=
  truthy (or_default (llm_apiKey config) "").

Definition with_apiKey (k : option string) (config : LLMConfig) : LLMConfig :=
  {| llm_provider := llm_provider config; llm_model := llm_model config;
     llm_apiKey := k; llm_maxIterations := llm_maxIterations config |}.

(** The string has white space only: it is the string of a list of code
    points that are all white space. *)
Definition all_white_space (s : string) : Prop :=
  ∃ cps, s = utf8_string cps ∧ Forall (λ cp, is_white_space cp = true) cps.

(** Three blanks that are not ASCII: a no-break space, an ideographic
    space and a line separator. *)
Definition wide_blanks : string := utf8_string [0xA0; 0x3000; 0x2028]%N.

(** ** Further servers and services of the examples *)

(** A server that accepts the connection and fails to list its tools. *)
Definition toolless_server : Server :=
  {| connect_outcome := Fulfilled ();
     getTools_outcome := Rejected (Error "Method not found");
     listPrompts_outcome := Fulfilled ["summarize"];
     listResources_outcome := Fulfilled ["file:///notes"];
     callTool_outcome := λ _ _, Rejected (Error "Method not found");
     disconnect_outcome := Some (Fulfilled ()) |}.

Definition toolless_config : McpServerConfig :=
  {| connectionMode := None; endpoint := toolless_server |}.

(** A server with a tool, a prompt and a resource. *)
Definition notes_server : Server :=
  {| connect_outcome := Fulfilled ();
     getTools_outcome := Fulfilled {[ "read" := sample_tool ]};
     listPrompts_outcome := Fulfilled ["summarize"];
     listResources_outcome := Fulfilled ["file:///notes"];
     callTool_outcome := λ _ _, Fulfilled (JStr "ok");
     disconnect_outcome := None |}.

Definition notes_config : McpServerConfig :=
  {| connectionMode := None; endpoint := notes_server |}.

(** A client object for [notes_server], not yet registered. *)
Definition notes_client : IMCPClient := {| clientId := 1; server := notes_server |}.

(** The client [connectServer("fs", fs_config)] registers in a fresh
    manager. *)
Definition fs_client : IMCPClient :=
  {| clientId := 0; server := reachable_server ["read"] |}.

(** A service for a model behind a custom endpoint, not asked about tools
    yet. *)
Definition local_model : VercelLLMService :=
  {| vs_sessionId := "s1"; vs_provider := "openai-compatible";
     vs_modelId := "gemma3n:e2b"; vs_baseURL := Some "http://localhost:11434/v1";
     toolSupportCache := ∅; probes := 0 |}.

(** * Properties *)

(** ** The caches *)

(** [clearClientCache] does nothing for a name that is not registered. *)
Lemma clearClientCache_absent name s :
  clients (mgr s) !! name = None → clearClientCache name s = s.
Proof. unfold clearClientCache. by intros ->. Qed.

Lemma purge_lookup client cacheMap k c :
  purge client cacheMap !! k = Some c ↔
  cacheMap !! k = Some c ∧ clientId c ≠ clientId client.
Proof.
  unfold purge. rewrite map_lookup_filter_Some. simpl.
  unfold same_client. by rewrite bool_decide_eq_false.
Qed.

(** For a registered name [clearClientCache] leaves no entry of its client
    in any of the three cache maps. *)
Lemma clearClientCache_purges name old s cacheMap k c :
  clients (mgr s) !! name = Some old →
  cacheMap ∈ caches (mgr (clearClientCache name s)) →
  cacheMap !! k = Some c → clientId c ≠ clientId old.
Proof.
  intros Hold Hin Hk. unfold clearClientCache in Hin. rewrite Hold in Hin.
  unfold caches in Hin. simpl in Hin.
  repeat (apply elem_of_cons in Hin as [->|Hin]; [by apply purge_lookup in Hk as [_ ?]|]).
  by apply elem_of_nil in Hin.
Qed.

(** [registerClient] clears the cache while the old client is still
    registered under the name: none of its entries is left. *)
Lemma registerClient_purges name client old s cacheMap k c :
  clients (mgr s) !! name = Some old →
  cacheMap ∈ caches (mgr (registerClient name client s)) →
  cacheMap !! k = Some c → clientId c ≠ clientId old.
Proof.
  intros Hold Hin Hk. by eapply (clearClientCache_purges name old s cacheMap k c).
Qed.

(** [disconnectAll] leaves nothing behind. *)
Lemma disconnectAll_clears s :
  let s' := snd (disconnectAll s) in
  clients (mgr s') = ∅ ∧ connectionErrors (mgr s') = ∅ ∧ caches (mgr s') = [∅; ∅; ∅].
Proof. done. Qed.

(** ** [executeTool] and the confirmation gate *)

(** C2. [executeTool(name, args, sessionId?)] leaves the manager as it is
    and adds [new] to the record of external calls.  With no owner in the
    tool cache it rejects with "No client found for tool" and calls
    nothing.  With an owner the gate is asked exactly once, first; when it
    answers [false] the call rejects with [ToolExecutionDeniedError] and
    the owner's transport is not called; the transport is called (once, on
    the owner) only when the gate answers [true], and the call then settles
    as the transport does. *)
Theorem executeTool_gated deniedMessage toolName args sessionId s :
  let details := {| td_toolName := toolName; td_args := args;
                    td_sessionId := sessionId_field sessionId |} in
  let '(r, s') := executeTool deniedMessage toolName args sessionId s in
  ∃ new, trace s' = trace s ++ new ∧ mgr s' = mgr s ∧
    match toolToClientMap (mgr s) !! toolName with
    | None =>
        r = Rejected (Error ("No client found for tool: " +:+ toolName)) ∧ new = []
    | Some owner =>
        match requestConfirmation (confirmationProvider (mgr s)) details with
        | Fulfilled true =>
            new = [EvRequestConfirmation details;
                   EvCallTool (clientId owner) toolName args] ∧
            r = callTool_outcome (server owner) toolName args
        | Fulfilled false =>
            new = [EvRequestConfirmation details] ∧
            r = Rejected (ToolExecutionDeniedError toolName sessionId
                            (deniedMessage toolName sessionId))
        | Rejected e =>
            new = [EvRequestConfirmation details] ∧ r = Rejected e
        end
    end.
Proof.
  unfold executeTool, getToolClient. simpl.
  destruct (toolToClientMap (mgr s) !! toolName) as [owner|].
  - destruct (requestConfirmation _ _) as [[|]|e]; simpl.
    + eexists. split; [|done]. by rewrite <- app_assoc.
    + by eexists.
    + by eexists.
  - exists []. by rewrite app_nil_r.
Qed.

(** ** [removeClient] *)

(** [removeClient] deletes the name from [clients] before it calls
    [clearClientCache], which looks the client up by that name: the three
    cache maps are never touched. *)
Lemma removeClient_caches name s :
  let s' := snd (removeClient name s) in
  toolToClientMap (mgr s') = toolToClientMap (mgr s) ∧
  promptToClientMap (mgr s') = promptToClientMap (mgr s) ∧
  resourceToClientMap (mgr s') = resourceToClientMap (mgr s).
Proof.
  unfold removeClient. simpl.
  destruct (clients (mgr s) !! name) as [client|] eqn:Hc.
  - rewrite clearClientCache_absent by (simpl; apply lookup_delete_eq).
    simpl.
    destruct (connectionErrors _ !! name) as [e|]; [destruct (truthy e)|];
      by destruct (disconnect_outcome (server client)).
  - destruct (connectionErrors (mgr s) !! name) as [e|]; [destruct (truthy e)|]; done.
Qed.

Lemma removeClient_clients name s :
  clients (mgr (snd (removeClient name s))) = delete name (clients (mgr s)).
Proof.
  unfold removeClient. simpl.
  destruct (clients (mgr s) !! name) as [client|] eqn:Hc.
  - rewrite clearClientCache_absent by (simpl; apply lookup_delete_eq).
    simpl.
    destruct (connectionErrors _ !! name) as [e|]; [destruct (truthy e)|];
      by destruct (disconnect_outcome (server client)).
  - symmetry in Hc.
    destruct (connectionErrors (mgr s) !! name) as [e|]; [destruct (truthy e)|];
      simpl; by rewrite delete_id.
Qed.

(** C3, at the failing input.  After [connectServer("fs", ...)] the tool
    cache maps [read] to the client registered as [fs]; after
    [removeClient("fs")] no client is registered, and the tool cache still
    maps [read] to that client. *)
Theorem removeClient_keeps_stale_entry :
  clientId <$> clients (mgr fs_connected) !! "fs" = Some 0 ∧
  clientId <$> toolToClientMap (mgr fs_connected) !! "read" = Some 0 ∧
  clients (mgr fs_removed) = ∅ ∧
  clientId <$> toolToClientMap (mgr fs_removed) !! "read" = Some 0.
Proof. vm_compute. done. Qed.

(** ** [initializeFromConfig] on no server *)

(** C10. With no server configured [initializeFromConfig] fulfils at once:
    the state, and with it the clients, the caches, the recorded
    connection errors and the record of external calls, is the one it
    started from. *)
Theorem initializeFromConfig_empty sched s :
  initializeFromConfig sched [] s = (Fulfilled (), s).
Proof. reflexivity. Qed.

(** ** [initializeFromConfig]: the loop that starts the connections *)

Lemma connectServer_start_mgr name config s :
  mgr (snd (connectServer_start name config s)) = mgr s.
Proof. unfold connectServer_start. by case_bool_decide. Qed.

Lemma init_loop_spec (configs : ServerConfigs) : ∀ fr s,
  let '(fr', s') := foldl init_visit (fr, s) configs in
  mgr s' = mgr s ∧
  successfulConnections fr' = successfulConnections fr ∧
  strictServers fr' = strictServers fr ++ (filter (λ e, is_strict e = true) configs).*1 ∧
  (∃ ps, connectionPromises fr' = connectionPromises fr ++ ps ∧
         Forall2 (started (clients (mgr s))) configs ps) ∧
  (∃ new, trace s' = trace s ++ new ∧
          ∀ name config, (name, config) ∈ configs →
            clients (mgr s) !! name = None → ∃ cid, EvConnect name cid ∈ new).
Proof.
  induction configs as [|[name config] configs IH]; intros fr s; simpl.
  - rewrite !app_nil_r. repeat split; try done.
    + exists []. by rewrite app_nil_r.
    + exists []. rewrite app_nil_r. split; [done|]. by intros ?? ?%elem_of_nil.
  - destruct (connectServer_start name config s) as [t s1] eqn:Hstart.
    assert (Hmgr : mgr s1 = mgr s).
    { by rewrite <- (connectServer_start_mgr name config s), Hstart. }
    match goal with |- context [foldl init_visit (?f, s1) configs] =>
      specialize (IH f s1); destruct (foldl init_visit (f, s1) configs) as [fr' s'] end.
    simpl in IH. destruct IH as (Hm & Hsucc & Hstrict & (ps & Hps & Hall) & (new & Htr & Hev)).
    rewrite Hmgr in *. split_and!; [done|done|..].
    + rewrite Hstrict. rewrite filter_cons.
      destruct (decide (is_strict (name, config) = true)) as [Hs|Hs];
        unfold is_strict in Hs; simpl in Hs; rewrite ?Hs.
      * rewrite fmap_cons. simpl. by rewrite <- app_assoc.
      * apply not_true_is_false in Hs. by rewrite Hs.
    + exists ((name, Pending t) :: ps). split.
      { rewrite Hps. by rewrite <- app_assoc. }
      constructor; [|done]. split; [done|]. simpl.
      unfold connectServer_start in Hstart. case_bool_decide as Hreg.
      * destruct Hreg as [c ->]. by inversion Hstart.
      * apply eq_None_not_Some in Hreg. rewrite Hreg. inversion Hstart. by eexists.
    + unfold connectServer_start in Hstart. case_bool_decide as Hreg.
      * inversion Hstart; subst. exists new. split; [done|].
        intros n c [Heq|Hin]%elem_of_cons Hn; [|by eauto].
        inversion Heq; subst. destruct Hreg as [? Hreg]. congruence.
      * inversion Hstart; subst. simpl in Htr.
        exists (EvConnect name (nextClientId s) :: new). split.
        { rewrite Htr. by rewrite <- app_assoc. }
        intros n c [Heq|Hin]%elem_of_cons Hn.
        -- inversion Heq; subst. eexists. by left.
        -- destruct (Hev n c Hin Hn) as [cid ?]. exists cid. by right.
Qed.

(** ** [initializeFromConfig]: what holds while the connections run *)

Lemma set_all_lookup keys client : ∀ (cacheMap : gmap string IMCPClient) k,
  set_all keys client cacheMap !! k =
  if bool_decide (k ∈ keys) then Some client else cacheMap !! k.
Proof.
  unfold set_all. induction keys as [|k0 keys IH]; intros cacheMap k; simpl.
  - done.
  - rewrite IH. destruct (decide (k = k0)) as [->|Hne].
    + rewrite lookup_insert_eq.
      rewrite (bool_decide_eq_true_2 (k0 ∈ k0 :: keys)) by left.
      by case_bool_decide.
    + rewrite lookup_insert_ne by done.
      rewrite (bool_decide_ext (k ∈ k0 :: keys) (k ∈ keys)); [done|].
      rewrite elem_of_cons. split; [by intros [?|?]|by right].
Qed.

Lemma set_all_mono keys client (cacheMap : gmap string IMCPClient) k :
  is_Some (cacheMap !! k) → is_Some (set_all keys client cacheMap !! k).
Proof. rewrite set_all_lookup. by case_bool_decide. Qed.

Lemma elem_of_tool_names (tools : ToolSet) t :
  t ∈ (map_to_list tools).*1 ↔ is_Some (tools !! t).
Proof.
  rewrite list_elem_of_fmap. split.
  - intros [[k v] [-> Hin]]. apply elem_of_map_to_list in Hin. by eexists.
  - intros [v Hv]. exists (t, v). split; [done|]. by apply elem_of_map_to_list.
Qed.

(** ** Plain objects *)

Lemma lookup_assign_eq {A} key (value : A) object :
  assign key value object !! key =
  match object !! key with
  | None => if bool_decide (key = "__proto__") then None else Some value
  | Some _ => Some value
  end.
Proof.
  unfold assign. destruct (object !! key) eqn:Hk.
  - apply lookup_insert_eq.
  - case_bool_decide; [done|]. apply lookup_insert_eq.
Qed.

Lemma lookup_assign_ne {A} key key' (value : A) object :
  key ≠ key' → assign key value object !! key' = object !! key'.
Proof.
  intros Hne. unfold assign.
  destruct (object !! key); [|case_bool_decide; [done|]]; by rewrite lookup_insert_ne.
Qed.

(** What [initializeFromConfig] prints for a name under which a failed
    connection has left its trace. *)
Lemma text_or_recorded errs name before errorMsg :
  errs !! name = recorded name before errorMsg →
  text_or (read_property errs name) "Unknown error" =
  match recorded name before errorMsg with
  | Some cause => or_default (Some cause) "Unknown error"
  | None => "[object Object]"
  end.
Proof.
  unfold read_property. intros ->. unfold recorded.
  destruct before; [done|]. by case_bool_decide.
Qed.

Section InitInvariant.

Variable cl0 : gmap string IMCPClient.
Variable err0 : gmap string string.

(** [pinv] for one name only looks at that name's entries. *)
Lemma pinv_frame succ s succ' s' name config p :
  clients (mgr s') !! name = clients (mgr s) !! name →
  connectionErrors (mgr s') !! name = connectionErrors (mgr s) !! name →
  (∀ t, is_Some (toolToClientMap (mgr s) !! t) → is_Some (toolToClientMap (mgr s') !! t)) →
  (name ∈ succ' ↔ name ∈ succ) →
  pinv cl0 err0 succ s name config p → pinv cl0 err0 succ' s' name config p.
Proof.
  intros Hcl Herr Htools Hsucc.
  assert (Hfacts : settled_facts cl0 err0 s name config → settled_facts cl0 err0 s' name config).
  { unfold settled_facts, registered_as, tools_cached. intros H H0. specialize (H H0).
    destruct (connect_outcome (endpoint config)); rewrite Hcl, ?Herr; [|done].
    destruct H as [? Ht]. split; [done|]. intros ????. eapply Htools, Ht; eauto. }
  assert (Hconn : ∀ c, connected_as cl0 succ s name config c → connected_as cl0 succ' s' name config c).
  { unfold connected_as. intros c. rewrite Hcl, Hsucc. tauto. }
  assert (Hcached : tools_cached s config → tools_cached s' config).
  { unfold tools_cached. intros Ht ????. eapply Htools, Ht; eauto. }
  destruct p as [[n c|n c|n c|n c|r]|]; simpl; rewrite ?Hcl, ?Hsucc, ?Herr; intuition auto.
Qed.

Local Ltac split4 := split; [|split; [|split]].

Lemma connectServer_resume_pinv succ s name config t t' s' :
  pending_task t →
  pinv cl0 err0 succ s name config (Pending t) →
  connectServer_resume t s = (t', s') →
  pinv cl0 err0 succ s' name config (Pending t') ∧
  (∀ k, k ≠ name → clients (mgr s') !! k = clients (mgr s) !! k ∧
                   connectionErrors (mgr s') !! k = connectionErrors (mgr s) !! k) ∧
  (∀ k, is_Some (toolToClientMap (mgr s) !! k) → is_Some (toolToClientMap (mgr s') !! k)) ∧
  (∃ new, trace s' = trace s ++ new).
Proof.
  intros Hpend Hinv Hstep.
  destruct t as [n c|n c|n c|n c|r]; [| | | |done]; simpl in Hinv, Hstep.
  - (* await client.connect *)
    destruct Hinv as (-> & Hsrv & H0 & Hcl & Hsucc & Herr0).
    destruct (connect_outcome (server c)) as [[]|e] eqn:Hout; inversion Hstep; subst; clear Hstep.
    + unfold registerClient. rewrite clearClientCache_absent by done. simpl.
      split4.
      * split; [done|]. unfold connected_as. simpl.
        rewrite lookup_insert_eq, <- Hsrv, Hout. done.
      * intros k Hk. by rewrite lookup_insert_ne, lookup_delete_ne.
      * done.
      * by eexists.
    + simpl. split4.
      * split; [done|]. split.
        { unfold connects. simpl. by rewrite H0, <- Hsrv, Hout. }
        intros _. rewrite <- Hsrv, Hout. simpl.
        rewrite lookup_assign_eq, lookup_delete_eq, Herr0. done.
      * intros k Hk. by rewrite lookup_assign_ne, lookup_delete_ne.
      * done.
      * exists []. by rewrite app_nil_r.
  - (* await client.getTools() *)
    destruct Hinv as (-> & Hconn).
    pose proof Hconn as (Hsrv & H0 & Hok & Hcl & Hsucc).
    destruct (getTools_outcome (server c)) as [tools|e] eqn:Hout; inversion Hstep; subst; clear Hstep.
    + simpl. split4.
      * split; [done|]. split; [done|].
        unfold tools_cached. simpl. intros tools' t Htools' Ht.
        rewrite <- Hsrv, Hout in Htools'. inversion Htools'; subst.
        rewrite set_all_lookup, bool_decide_eq_true_2; [done|].
        by apply elem_of_tool_names.
      * done.
      * intros k. apply set_all_mono.
      * by eexists.
    + split4; [|done|done|exists []; by rewrite app_nil_r].
      split; [done|]. split.
      { unfold connects. simpl. rewrite H0.
        by destruct (connect_outcome (endpoint config)). }
      intros _. destruct (connect_outcome (endpoint config)); [|done].
      split; [by exists c|]. unfold tools_cached. intros ??. rewrite <- Hsrv, Hout. done.
  - (* await client.listPrompts() *)
    destruct Hinv as (-> & Hconn & Hcached).
    destruct (listPrompts_outcome (server c)) as [prompts|e];
      inversion Hstep; subst; clear Hstep; simpl;
      (split4; [done|done|done|by eexists]).
  - (* await client.listResources() *)
    destruct Hinv as (-> & Hconn & Hcached).
    pose proof Hconn as (Hsrv & H0 & Hok & Hcl & Hsucc).
    assert (Hfacts : ∀ s', clients (mgr s') = clients (mgr s) →
              toolToClientMap (mgr s') = toolToClientMap (mgr s) →
              pinv cl0 err0 succ s' name config (Pending (Done (Fulfilled ())))).
    { intros s1 Hcl1 Htl1. split; [done|]. split.
      { unfold connects. simpl. rewrite H0.
        by destruct (connect_outcome (endpoint config)). }
      intros _. destruct (connect_outcome (endpoint config)); [|done].
      split; [exists c; by rewrite Hcl1|].
      unfold tools_cached. rewrite Htl1. apply Hcached. }
    destruct (listResources_outcome (server c)) as [resources|e];
      inversion Hstep; subst; clear Hstep;
      (split4; [by apply Hfacts|done|done|exists []; by rewrite app_nil_r]).
Qed.

End InitInvariant.

(** ** [initializeFromConfig]: any order of the segments *)

Lemma extends_refl s : extends s s.
Proof. split; [exists []; by rewrite app_nil_r|done]. Qed.

Lemma extends_trans s1 s2 s3 : extends s1 s2 → extends s2 s3 → extends s1 s3.
Proof.
  intros [[n1 H1] T1] [[n2 H2] T2]. split; [|by auto].
  exists (n1 ++ n2). by rewrite H2, H1, app_assoc.
Qed.

Section InitRun.

Variable cl0 : gmap string IMCPClient.
Variable err0 : gmap string string.
Variable configs : ServerConfigs.
Hypothesis configs_NoDup : NoDup configs.*1.

Lemma configs_names_differ i j ni ci nj cj :
  i ≠ j → configs !! i = Some (ni, ci) → configs !! j = Some (nj, cj) → ni ≠ nj.
Proof.
  intros Hij Hi Hj ->. apply Hij.
  eapply (NoDup_lookup _ i j nj configs_NoDup); rewrite list_lookup_fmap.
  - by rewrite Hi.
  - by rewrite Hj.
Qed.

Lemma promise_step_Inv acc i :
  Inv cl0 err0 configs acc →
  Inv cl0 err0 configs (promise_step acc i) ∧
  strictServers (fst (promise_step acc i)) = strictServers (fst acc) ∧
  extends (snd acc) (snd (promise_step acc i)).
Proof.
  destruct acc as [fr s]. intros [Hlen Hinv]. unfold promise_step.
  destruct (connectionPromises fr !! i) as [[name p]|] eqn:Hi;
    [|by (split; [|split; [|apply extends_refl]])].
  assert (Hcfg : ∃ config, configs !! i = Some (name, config)).
  { destruct (lookup_lt_is_Some_2 configs i) as [[n c] Hc].
    { rewrite <- Hlen. by eapply lookup_lt_Some. }
    destruct (Hinv _ _ _ Hc) as (p' & Hp' & _). simpl in Hp'.
    rewrite Hi in Hp'. inversion Hp'; subst. by exists c. }
  destruct Hcfg as [config Hcfg].
  destruct (Hinv _ _ _ Hcfg) as (p' & Hp' & Hp). simpl in Hp', Hp.
  rewrite Hi in Hp'. inversion Hp'; subst p'; clear Hp'.
  (* the promises other than [i] after a step that changed [s] to [s'] and
     at most added [name] to the successful connections *)
  assert (Hothers : ∀ succ' s' q,
    (∀ k, k ≠ name → clients (mgr s') !! k = clients (mgr s) !! k ∧
                     connectionErrors (mgr s') !! k = connectionErrors (mgr s) !! k) →
    (∀ k, is_Some (toolToClientMap (mgr s) !! k) → is_Some (toolToClientMap (mgr s') !! k)) →
    (∀ k, k ≠ name → k ∈ succ' ↔ k ∈ successfulConnections fr) →
    pinv cl0 err0 succ' s' name config q →
    Inv cl0 err0 configs ({| successfulConnections := succ';
            strictServers := strictServers fr;
            lenientServers := lenientServers fr;
            connectionPromises := <[i := (name, q)]> (connectionPromises fr) |}, s')).
  { intros succ' s' q Hframe Htools Hsucc Hq. split; simpl.
    { by rewrite length_insert. }
    intros j nj cj Hj. destruct (decide (j = i)) as [->|Hne].
    - rewrite Hcfg in Hj. inversion Hj; subst. exists q. split; [|done].
      apply list_lookup_insert_eq. by eapply lookup_lt_Some.
    - destruct (Hinv _ _ _ Hj) as (pj & Hpj & Hpinv). simpl in Hpj, Hpinv.
      exists pj. split; [by rewrite list_lookup_insert_ne|].
      assert (nj ≠ name) by (eapply configs_names_differ; eauto).
      destruct (Hframe nj) as [? ?]; [done|].
      eapply pinv_frame; [done|done|done|by apply Hsucc|done]. }
  destruct p as [t|].
  - destruct t as [n c|n c|n c|n c|r].
    5: { (* [connectServer] has settled: the callback runs *)
      simpl in Hp. destruct Hp as (Hnot & Hful & Hfacts).
      destruct r as [u|e]; simpl in Hful.
      - split; [|split; [done|apply extends_refl]].
        apply Hothers; try done.
        + intros k Hk. simpl. rewrite elem_of_app, list_elem_of_singleton. tauto.
        + simpl. split; [|done]. rewrite elem_of_app, list_elem_of_singleton.
          rewrite <- Hful. tauto.
      - split; [|split; [done|apply extends_refl]].
        apply (Hothers (successfulConnections fr)); try done.
        simpl. split; [|done]. rewrite <- Hful. split; [done|]. done. }
    all: match goal with |- context [connectServer_resume ?t ?s] =>
           destruct (connectServer_resume t s) as [t' s'] eqn:Hres;
           destruct (connectServer_resume_pinv cl0 err0 _ _ _ _ t _ _ I Hp Hres)
             as (Hp' & Hframe & Htools & Htrace) end.
    all: split; [|split; [done|by split]].
    all: by apply Hothers.
  - by (split; [|split; [|apply extends_refl]]).
Qed.

Lemma run_Inv sched : ∀ acc,
  Inv cl0 err0 configs acc →
  Inv cl0 err0 configs (foldl promise_step acc sched) ∧
  strictServers (fst (foldl promise_step acc sched)) = strictServers (fst acc) ∧
  extends (snd acc) (snd (foldl promise_step acc sched)).
Proof.
  induction sched as [|i sched IH]; intros acc Hinv; simpl.
  - by (split; [|split; [|apply extends_refl]]).
  - destruct (promise_step_Inv acc i Hinv) as (H1 & H2 & H3).
    destruct (IH _ H1) as (H4 & H5 & H6).
    split; [done|]. split; [congruence|]. by eapply extends_trans.
Qed.

End InitRun.

(** ** [initializeFromConfig]: [Promise.all] sees every promise finish *)

Lemma rank_le p : rank p ≤ 5.
Proof. destruct p as [[]|]; simpl; lia. Qed.

Lemma connectServer_resume_suspensions t s :
  suspensions (fst (connectServer_resume t s)) ≤ pred (suspensions t).
Proof.
  destruct t as [n c|n c|n c|n c|r]; simpl; [| | | |done].
  - destruct (connect_outcome (server c)); simpl; lia.
  - destruct (getTools_outcome (server c)); simpl; lia.
  - done.
  - lia.
Qed.

Lemma promise_step_rank acc i j :
  rank_at (fst (promise_step acc i)) j ≤ rank_at (fst acc) j ∧
  rank_at (fst (promise_step acc i)) i ≤ pred (rank_at (fst acc) i).
Proof.
  destruct acc as [fr s]. unfold promise_step.
  destruct (connectionPromises fr !! i) as [[name p]|] eqn:Hi.
  2: { simpl. unfold rank_at at 3 4. rewrite Hi. lia. }
  assert (Hlt : i < length (connectionPromises fr)) by by eapply lookup_lt_Some.
  assert (Hset : ∀ q succ',
    rank q ≤ pred (rank p) →
    let fr' := {| successfulConnections := succ'; strictServers := strictServers fr;
                  lenientServers := lenientServers fr;
                  connectionPromises := <[i := (name, q)]> (connectionPromises fr) |} in
    rank_at fr' j ≤ rank_at fr j ∧ rank_at fr' i ≤ pred (rank_at fr i)).
  { intros q succ' Hq. unfold rank_at. simpl.
    rewrite list_lookup_insert_eq by done. rewrite Hi. split; [|done].
    destruct (decide (j = i)) as [->|Hne].
    - rewrite list_lookup_insert_eq by done. rewrite Hi. lia.
    - by rewrite list_lookup_insert_ne. }
  destruct p as [t|].
  - destruct t as [n c|n c|n c|n c|r].
    5: { destruct r; simpl; apply Hset; simpl; lia. }
    all: match goal with |- context [connectServer_resume ?t ?s] =>
           pose proof (connectServer_resume_suspensions t s) as Hsus;
           destruct (connectServer_resume t s) as [t' s'] end.
    all: simpl in *; apply Hset; simpl; lia.
  - simpl. unfold rank_at at 3 4. rewrite Hi. simpl. lia.
Qed.

Lemma run_rank sched : ∀ acc j,
  rank_at (fst (foldl promise_step acc sched)) j ≤ rank_at (fst acc) j.
Proof.
  induction sched as [|i sched IH]; intros acc j; simpl; [done|].
  etrans; [apply IH|]. apply promise_step_rank.
Qed.

Lemma run_replicate_rank n i : ∀ acc,
  rank_at (fst (foldl promise_step acc (replicate n i))) i ≤ rank_at (fst acc) i - n.
Proof.
  induction n as [|n IH]; intros acc; simpl; [lia|].
  etrans; [apply IH|].
  pose proof (proj2 (promise_step_rank acc i i)). lia.
Qed.

Lemma rank_at_le fr j : rank_at fr j ≤ 5.
Proof.
  unfold rank_at. destruct (connectionPromises fr !! j) as [[? p]|]; [|lia].
  apply rank_le.
Qed.

Lemma run_drain idxs : ∀ acc j,
  j ∈ idxs →
  rank_at (fst (foldl promise_step acc (i ← idxs; replicate 5 i))) j = 0.
Proof.
  induction idxs as [|i idxs IH]; intros acc j Hj; [by apply elem_of_nil in Hj|].
  rewrite bind_cons, foldl_app.
  apply elem_of_cons in Hj as [->|Hj]; [|by apply IH].
  pose proof (run_rank (i0 ← idxs; replicate 5 i0)
                (foldl promise_step acc (replicate 5 i)) i).
  pose proof (run_replicate_rank 5 i acc).
  pose proof (rank_at_le (fst acc) i). lia.
Qed.

Lemma promise_step_length acc i :
  length (connectionPromises (fst (promise_step acc i))) =
  length (connectionPromises (fst acc)).
Proof.
  destruct acc as [fr s]. unfold promise_step.
  destruct (connectionPromises fr !! i) as [[name [[n c|n c|n c|n c|[u|e]]|]]|];
    try done; try (simpl; by rewrite length_insert).
  all: match goal with |- context [connectServer_resume ?t ?s] =>
         destruct (connectServer_resume t s) end; simpl; by rewrite length_insert.
Qed.

Lemma run_length sched : ∀ acc,
  length (connectionPromises (fst (foldl promise_step acc sched))) =
  length (connectionPromises (fst acc)).
Proof.
  induction sched as [|i sched IH]; intros acc; simpl; [done|].
  by rewrite IH, promise_step_length.
Qed.

(** After [await Promise.all(connectionPromises)] every promise has
    finished. *)
Lemma await_all_finished sched acc j name p :
  connectionPromises (fst (await_all sched acc)) !! j = Some (name, p) →
  p = Finished.
Proof.
  intros Hj. unfold await_all in *. rewrite foldl_app in Hj.
  set (acc1 := foldl promise_step acc sched) in *.
  assert (Hlen : length (connectionPromises (fst acc1)) = length (connectionPromises (fst acc)))
    by apply run_length.
  rewrite <- Hlen in Hj. unfold drain in Hj.
  assert (Hin : j ∈ seq 0 (length (connectionPromises (fst acc1)))).
  { apply elem_of_seq. apply lookup_lt_Some in Hj. rewrite run_length in Hj. lia. }
  pose proof (run_drain _ acc1 j Hin) as Hrank.
  unfold rank_at in Hrank. rewrite Hj in Hrank. by destruct p.
Qed.

(** ** [initializeFromConfig]: the outcome *)

Lemma Inv_start (configs : ServerConfigs) s :
  Inv (clients (mgr s)) (connectionErrors (mgr s)) configs
    (foldl init_visit (empty_frame, s) configs).
Proof.
  pose proof (init_loop_spec configs empty_frame s) as Hloop.
  destruct (foldl init_visit (empty_frame, s) configs) as [fr s1].
  destruct Hloop as (Hmgr & Hsucc & _ & (ps & Hps & Hall) & _).
  simpl in Hps, Hsucc. subst ps. split; simpl.
  { symmetry. by eapply Forall2_length. }
  intros i name config Hi.
  destruct (Forall2_lookup_l _ _ _ _ _ Hall Hi) as ([n p] & Hp & Hn & Hstarted).
  simpl in Hn, Hstarted. subst n. exists p. split; [done|].
  rewrite Hsucc. destruct (clients (mgr s) !! name) as [c|] eqn:Hreg.
  - subst p. simpl. split; [apply not_elem_of_nil|]. split.
    + unfold connects. simpl. by rewrite Hreg.
    + intros ?. congruence.
  - destruct Hstarted as (c & -> & Hsrv). simpl.
    rewrite Hmgr. split_and!; try done. apply not_elem_of_nil.
Qed.

Lemma failed_names cl0 (succ : list string) (configs : ServerConfigs) :
  (∀ e, e ∈ configs → fst e ∈ succ ↔ connects cl0 e = true) →
  filter (λ name, name ∉ succ) (filter (λ e, is_strict e = true) configs).*1 =
  (filter (λ e, failed_strict cl0 e = true) configs).*1.
Proof.
  induction configs as [|e configs IH]; intros Hsucc; [done|].
  assert (IH' := IH (λ e' H, Hsucc e' (list_elem_of_further _ _ _ H))).
  assert (He := Hsucc e (list_elem_of_here _ _)).
  rewrite !filter_cons.
  destruct (decide (is_strict e = true)) as [Hs|Hs];
    destruct (decide (failed_strict cl0 e = true)) as [Hf|Hf];
    unfold failed_strict in Hf; rewrite ?fmap_cons, ?filter_cons.
  - rewrite Hs in Hf. simpl in Hf. apply negb_true_iff in Hf.
    rewrite decide_True; [by rewrite IH'|]. rewrite He, Hf. done.
  - rewrite Hs in Hf. simpl in Hf. apply not_true_is_false, negb_false_iff in Hf.
    rewrite decide_False; [done|]. intros Hn. by apply Hn, He.
  - by apply andb_true_iff in Hf as [? _].
  - done.
Qed.

Lemma initializeFromConfig_outcome sched (configs : ServerConfigs) s :
  NoDup configs.*1 →
  let cl0 := clients (mgr s) in
  let err0 := connectionErrors (mgr s) in
  let failed := filter (λ e, failed_strict cl0 e = true) configs in
  let '(r, s') := initializeFromConfig sched configs s in
  r = (if bool_decide (failed = []) then Fulfilled ()
       else Rejected (Error (strict_failure
                               (join "; " (strict_error_line err0 <$> failed))))) ∧
  (∀ name config, (name, config) ∈ configs → settled_facts cl0 err0 s' name config) ∧
  (∀ name config, (name, config) ∈ configs → cl0 !! name = None →
     ∃ cid, EvConnect name cid ∈ trace s') ∧
  (∀ k, is_Some (toolToClientMap (mgr s) !! k) → is_Some (toolToClientMap (mgr s') !! k)).
Proof.
  intros Hnodup cl0 err0 failed. unfold initializeFromConfig.
  case_bool_decide as Hempty.
  { destruct configs; [|done]. simpl. split; [done|].
    split; [by intros ?? ?%elem_of_nil|]. split; [by intros ?? ?%elem_of_nil|done]. }
  pose proof (Inv_start configs s) as Hinv0.
  pose proof (init_loop_spec configs empty_frame s) as Hloop.
  set (acc0 := foldl init_visit (empty_frame, s) configs) in *.
  pose proof (run_Inv _ _ configs Hnodup
                (sched ++ drain (length (connectionPromises (fst acc0)))) acc0 Hinv0)
    as (Hinv & Hstrict & Hext).
  pose proof (await_all_finished sched acc0) as Hfin.
  unfold await_all in *.
  destruct acc0 as [fr0 s0]. simpl in Hloop.
  destruct Hloop as (Hmgr0 & _ & Hstrict0 & _ & (new0 & Htr0 & Hev0)).
  simpl in Hstrict0.
  destruct (foldl promise_step (fr0, s0) _) as [fr s'].
  simpl in Hstrict, Hext, Hfin. destruct Hinv as [_ Hinv]. simpl in Hinv.
  destruct Hext as [[new Htr] Htools].
  (* what the finished promises say *)
  assert (Hdone : ∀ name config, (name, config) ∈ configs →
            (name ∈ successfulConnections fr ↔ connects cl0 (name, config) = true) ∧
            settled_facts cl0 err0 s' name config).
  { intros name config [i Hi]%list_elem_of_lookup.
    destruct (Hinv _ _ _ Hi) as (p & Hp & Hpinv).
    rewrite (Hfin _ _ _ Hp) in Hpinv. exact Hpinv. }
  assert (Hnames :
    filter (λ name, name ∉ successfulConnections fr) (strictServers fr) = failed.*1).
  { rewrite Hstrict, Hstrict0. apply failed_names.
    intros [name config] Hin. by apply Hdone. }
  assert (Htext :
    (λ name, name +:+ ": " +:+
       text_or (read_property (connectionErrors (mgr s')) name) "Unknown error")
      <$> failed.*1 =
    strict_error_line err0 <$> failed).
  { rewrite <- list_fmap_compose. apply Forall_fmap_ext, Forall_forall.
    intros [name config] [Hfailed Hin]%list_elem_of_filter. simpl.
    unfold strict_error_line, cause_text, failure_cause. simpl. do 2 f_equal.
    apply andb_true_iff in Hfailed as [_ Hc%negb_true_iff].
    destruct (Hdone _ _ Hin) as [_ Hfacts]. unfold settled_facts in Hfacts.
    unfold connects in Hc. simpl in Hc.
    destruct (cl0 !! name) eqn:Hreg; [done|].
    destruct (connect_outcome (endpoint config)) as [|e]; [done|].
    destruct (Hfacts eq_refl) as [Herr _]. by apply text_or_recorded. }
  rewrite Hnames, Htext.
  rewrite (bool_decide_ext (0 < length failed.*1) (failed ≠ [])).
  2: { rewrite length_fmap. destruct failed; simpl; split; (done || lia). }
  assert (Hrest :
    (∀ name config, (name, config) ∈ configs → settled_facts cl0 err0 s' name config) ∧
    (∀ name config, (name, config) ∈ configs → cl0 !! name = None →
       ∃ cid, EvConnect name cid ∈ trace s') ∧
    (∀ k, is_Some (toolToClientMap (mgr s) !! k) → is_Some (toolToClientMap (mgr s') !! k))).
  { split; [by intros; apply Hdone|split].
    - intros name config Hin Hreg.
      destruct (Hev0 name config Hin Hreg) as [cid Hcid]. exists cid.
      rewrite Htr, Htr0. apply elem_of_app. left. apply elem_of_app. by right.
    - intros k Hk. apply Htools. by rewrite Hmgr0. }
  destruct (decide (failed = [])) as [Hf|Hf].
  - rewrite bool_decide_eq_false_2 by (by intros ?).
    by rewrite bool_decide_eq_true_2.
  - rewrite bool_decide_eq_true_2 by done. by rewrite bool_decide_eq_false_2.
Qed.

Lemma abort_configs_NoDup : NoDup abort_configs.*1.
Proof. apply (bool_decide_unpack _). by vm_compute. Defined.

Lemma degraded_configs_NoDup : NoDup degraded_configs.*1.
Proof. apply (bool_decide_unpack _). by vm_compute. Defined.

(** Under any name but [__proto__] a failed connection has recorded its
    message, and that is what the aggregate message prints. *)
Lemma recorded_ordinary name before errorMsg :
  name ≠ "__proto__" → recorded name before errorMsg = Some errorMsg.
Proof.
  intros Hne. unfold recorded. destruct before; [done|].
  by rewrite bool_decide_eq_false_2.
Qed.

(** X27. Let [configs] be the entries of the server configurations (their
    names are distinct) and [sched] any order in which the segments of the
    connection attempts run.  Every server that is not yet registered is
    attempted, whatever becomes of the others, and has settled when
    [initializeFromConfig] decides: its client is registered and its tools
    are cached, or it is left unregistered and its error is recorded.  The
    call then fulfils when no strict server failed, however many lenient
    ones did, and otherwise rejects with the error whose message lists, in
    configuration order, exactly the strict servers that failed.  Each is
    listed with the message of its failure, or "Unknown error" when that
    message is empty; only for a server named [__proto__] nothing is
    recorded and the message has "[object Object]" in place of the cause,
    because [connectionErrors] is a plain object. *)
Theorem initializeFromConfig_strict_lenient sched (configs : ServerConfigs) s :
  NoDup configs.*1 →
  let cl0 := clients (mgr s) in
  let err0 := connectionErrors (mgr s) in
  let failed := filter (λ e, failed_strict cl0 e = true) configs in
  let '(r, s') := initializeFromConfig sched configs s in
  (∀ name config, (name, config) ∈ configs → cl0 !! name = None →
     (∃ cid, EvConnect name cid ∈ trace s') ∧ settled_facts cl0 err0 s' name config) ∧
  r = (if bool_decide (failed = []) then Fulfilled ()
       else Rejected (Error (strict_failure
                               (join "; " (strict_error_line err0 <$> failed))))) ∧
  (∀ name config, name ≠ "__proto__" →
     strict_error_line err0 (name, config) =
       name +:+ ": " +:+ or_default (Some (failure_cause config)) "Unknown error") ∧
  (∀ config, err0 !! "__proto__" = None →
     strict_error_line err0 ("__proto__", config) = "__proto__: [object Object]").
Proof.
  intros Hnodup cl0 err0 failed.
  pose proof (initializeFromConfig_outcome sched configs s Hnodup) as H.
  destruct (initializeFromConfig sched configs s) as [r s'].
  destruct H as (Hr & Hfacts & Hev & _). split; [|split; [done|split]].
  - intros name config Hin Hreg. split; [by eapply Hev|by apply Hfacts].
  - intros name config Hne. unfold strict_error_line, cause_text. simpl.
    by rewrite recorded_ordinary.
  - intros config Hnone. unfold strict_error_line, cause_text. simpl.
    by rewrite Hnone.
Qed.

Lemma initializeFromConfig_strict_lenient_witness :
  NoDup abort_configs.*1 ∧
  let '(r, s') := initializeFromConfig [1; 0; 1] abort_configs (initial_State None) in
  (∀ name config, (name, config) ∈ abort_configs → (∅ : gmap string IMCPClient) !! name = None →
     (∃ cid, EvConnect name cid ∈ trace s') ∧ settled_facts ∅ ∅ s' name config) ∧
  r = Rejected (Error "Failed to connect to required strict servers: fs: ENOENT").
Proof.
  split; [exact abort_configs_NoDup|].
  pose proof (initializeFromConfig_strict_lenient [1; 0; 1] abort_configs (initial_State None)
                abort_configs_NoDup) as H.
  simpl in H.
  destruct (initializeFromConfig [1; 0; 1] abort_configs (initial_State None)) as [r s'].
  destruct H as (Hfacts & Hr & _). split; [exact Hfacts|exact Hr].
Defined.

(** C1, at the failing input: one strict server, named [__proto__], that
    cannot be reached.  Its connection fails with "ENOENT";
    [initializeFromConfig] rejects, and the aggregate message names the
    server but not that cause, in whose place it has "[object Object]".
    Nothing was recorded in [connectionErrors]. *)
Theorem strict_failure_loses_cause :
  let '(r, s') := initializeFromConfig [] proto_configs (initial_State None) in
  failure_cause unreachable_fs = "ENOENT" ∧
  r = Rejected (Error
        "Failed to connect to required strict servers: __proto__: [object Object]") ∧
  getFailedConnections s' !! "__proto__" = None ∧
  getClients s' !! "__proto__" = None.
Proof. vm_compute. done. Qed.

(** X28. A configuration without [connectionMode] counts as lenient: when
    every server that fails to connect has no [connectionMode],
    [initializeFromConfig] fulfils, and each of these servers is left
    unregistered, with its failure recorded under its name, unless that
    name is [__proto__]. *)
Theorem absent_mode_is_lenient sched (configs : ServerConfigs) s :
  NoDup configs.*1 →
  (∀ name config, (name, config) ∈ configs →
     connects (clients (mgr s)) (name, config) = false → connectionMode config = None) →
  let '(r, s') := initializeFromConfig sched configs s in
  r = Fulfilled () ∧
  ∀ name config, (name, config) ∈ configs →
    connects (clients (mgr s)) (name, config) = false →
    getClients s' !! name = None ∧
    getFailedConnections s' !! name =
      recorded name (getFailedConnections s !! name) (failure_cause config) ∧
    (name ≠ "__proto__" → getFailedConnections s' !! name = Some (failure_cause config)).
Proof.
  intros Hnodup Hmode.
  pose proof (initializeFromConfig_outcome sched configs s Hnodup) as H.
  destruct (initializeFromConfig sched configs s) as [r s'].
  destruct H as (Hr & Hfacts & _). split.
  - rewrite Hr. rewrite bool_decide_eq_true_2; [done|].
    destruct (filter _ configs) as [|[name config] l] eqn:Hfilter; [done|].
    assert (Hin : (name, config) ∈ filter (λ e, failed_strict (clients (mgr s)) e = true) configs)
      by (rewrite Hfilter; left).
    apply list_elem_of_filter in Hin as [Hfailed Hin].
    apply andb_true_iff in Hfailed as [Hstrict Hc%negb_true_iff].
    unfold is_strict, effectiveMode in Hstrict. simpl in Hstrict.
    rewrite (Hmode _ _ Hin Hc) in Hstrict. done.
  - intros name config Hin Hc. specialize (Hfacts _ _ Hin).
    unfold settled_facts in Hfacts. unfold connects, failure_cause in *. simpl in Hc.
    unfold getClients, getFailedConnections.
    destruct (clients (mgr s) !! name); [done|].
    destruct (connect_outcome (endpoint config)); [done|].
    destruct (Hfacts eq_refl) as [Herr Hcl].
    split; [done|]. split; [done|].
    intros Hne. by rewrite Herr, recorded_ordinary.
Qed.

Lemma degraded_configs_modes name config :
  (name, config) ∈ degraded_configs →
  connects ∅ (name, config) = false → connectionMode config = None.
Proof.
  unfold degraded_configs. intros Hin Hc.
  repeat (apply elem_of_cons in Hin as [Heq|Hin]; [by inversion Heq; subst|]).
  by apply elem_of_nil in Hin.
Defined.

Lemma absent_mode_is_lenient_witness :
  NoDup degraded_configs.*1 ∧
  (∀ name config, (name, config) ∈ degraded_configs →
     connects ∅ (name, config) = false → connectionMode config = None) ∧
  let '(r, s') := initializeFromConfig [2; 1; 1; 0] degraded_configs (initial_State None) in
  r = Fulfilled () ∧
  ∀ name config, (name, config) ∈ degraded_configs →
    connects ∅ (name, config) = false →
    getClients s' !! name = None ∧
    getFailedConnections s' !! name = recorded name None (failure_cause config) ∧
    (name ≠ "__proto__" → getFailedConnections s' !! name = Some (failure_cause config)).
Proof.
  split; [exact degraded_configs_NoDup|]. split; [exact degraded_configs_modes|].
  exact (absent_mode_is_lenient [2; 1; 1; 0] degraded_configs (initial_State None)
           degraded_configs_NoDup degraded_configs_modes).
Defined.

(** C9, at the failing input: one server without a [connectionMode], named
    [__proto__], that cannot be reached.  [initializeFromConfig] fulfils,
    as for a lenient server, and the server is left unregistered; but its
    failure is not recorded: [connectionErrors] has nothing under its
    name. *)
Theorem lenient_failure_not_recorded :
  let '(r, s') := initializeFromConfig [] proto_lenient_configs (initial_State None) in
  connects ∅ ("__proto__", unreachable_lenient) = false ∧
  failure_cause unreachable_lenient = "ECONNREFUSED" ∧
  r = Fulfilled () ∧
  getClients s' !! "__proto__" = None ∧
  getFailedConnections s' !! "__proto__" = None.
Proof. vm_compute. done. Qed.

(** ** [connectServer] on its own *)

(** [connectServer] always settles. *)
Lemma connectServer_settles name config s :
  ∃ r, fst (connectServer name config s) = Done r.
Proof.
  unfold connectServer, connectServer_start. case_bool_decide; [by eexists|].
  simpl. destruct (connect_outcome (endpoint config)); simpl; [|by eexists].
  destruct (getTools_outcome (endpoint config)); simpl; by eexists.
Qed.

Lemma connectServer_rejected name config s err s' :
  connectServer name config s = (Done (Rejected err), s') →
  ∃ e, clients (mgr s) !! name = None ∧
       connect_outcome (endpoint config) = Rejected e ∧
       err = Error (connect_failure name (errorMessage e)) ∧
       connectionErrors (mgr s') !! name =
         recorded name (connectionErrors (mgr s) !! name) (errorMessage e) ∧
       clients (mgr s') = clients (mgr s) ∧
       caches (mgr s') = caches (mgr s) ∧
       trace s' = trace s ++ [EvConnect name (nextClientId s)].
Proof.
  unfold connectServer, connectServer_start. case_bool_decide as Hreg; [done|].
  apply eq_None_not_Some in Hreg. simpl.
  destruct (connect_outcome (endpoint config)) as [[]|e] eqn:Hout; simpl.
  - destruct (getTools_outcome (endpoint config)); simpl; done.
  - intros [= <- <-]. exists e. simpl.
    rewrite lookup_assign_eq, delete_id by done. done.
Qed.

(** C4, counterexample.  With [fs] strict and unreachable and [docs]
    lenient and reachable, [initializeFromConfig] rejects and the tool
    [search] of [docs] is still in the tool cache. *)
Lemma lenient_tools_survive_abort :
  ¬ discards_on_abort [] abort_configs (initial_State None).
Proof.
  unfold discards_on_abort.
  destruct (initializeFromConfig [] abort_configs (initial_State None)) as [r s'] eqn:Hrun.
  intros H.
  assert (Hr : is_fulfilled r = false).
  { replace r with (fst (initializeFromConfig [] abort_configs (initial_State None)))
      by by rewrite Hrun. by vm_compute. }
  assert (Hcached : is_Some (toolToClientMap (mgr s') !! "search")).
  { replace s' with (snd (initializeFromConfig [] abort_configs (initial_State None)))
      by by rewrite Hrun. vm_compute. by eexists. }
  assert (Hnone : toolToClientMap (mgr s') !! "search" = None).
  { eapply (H Hr "docs" _ _ "search"); [right; left|done..|].
    vm_compute. by eexists. }
  rewrite Hnone in Hcached. by destruct Hcached.
Qed.

(** C4, as the code has it.  A [connectServer] that fails rejects with the
    cause in its message.  It has recorded the cause under the name (a
    name other than [__proto__]), leaves the name unregistered, the
    registry and the three cache maps exactly as they were, and with that
    no cache entry for it: none whose client is registered under the name
    and none for the client object the attempt had created.
    [initializeFromConfig] rolls nothing back: also when it rejects, every
    server that connected during the call is registered and its tools are
    in the tool cache. *)
Theorem connection_failure_state name config s err s1 sched (configs : ServerConfigs) s2 :
  allocated s →
  connectServer name config s = (Done (Rejected err), s1) →
  NoDup configs.*1 →
  ((∃ e, connect_outcome (endpoint config) = Rejected e ∧
         err = Error (connect_failure name (errorMessage e)) ∧
         (name ≠ "__proto__" → getFailedConnections s1 !! name = Some (errorMessage e))) ∧
   getClients s1 !! name = None ∧
   getClients s1 = getClients s ∧
   caches (mgr s1) = caches (mgr s) ∧
   ∀ cacheMap k c, cacheMap ∈ caches (mgr s1) → cacheMap !! k = Some c →
     getClients s1 !! name ≠ Some c ∧ clientId c ≠ nextClientId s) ∧
  let '(r, s') := initializeFromConfig sched configs s2 in
  ∀ name' config', (name', config') ∈ configs →
    clients (mgr s2) !! name' = None →
    is_fulfilled (connect_outcome (endpoint config')) = true →
    registered_as s' name' config' ∧ tools_cached s' config'.
Proof.
  intros Halloc Hrej Hnodup. split.
  - destruct (connectServer_rejected _ _ _ _ _ Hrej)
      as (e & Hreg & Hout & Herr & Hrec & Hcl & Hcaches & _).
    unfold getFailedConnections, getClients. rewrite Hcl.
    split; [exists e; split; [done|split; [done|]]|].
    { intros Hne. by rewrite Hrec, recorded_ordinary. }
    split; [done|]. split; [done|]. split; [done|].
    intros cacheMap k c Hin Hk. rewrite Hcaches in Hin.
    split; [by rewrite Hreg|].
    pose proof (Halloc _ _ _ Hin Hk). lia.
  - pose proof (initializeFromConfig_outcome sched configs s2 Hnodup) as H.
    destruct (initializeFromConfig sched configs s2) as [r s'].
    destruct H as (_ & Hfacts & _).
    intros name' config' Hin Hreg Hok. specialize (Hfacts _ _ Hin Hreg).
    by destruct (connect_outcome (endpoint config')).
Qed.

Lemma fs_connected_allocated : allocated fs_connected.
Proof.
  intros cacheMap k c Hin Hk.
  change (caches (mgr fs_connected)) with
    [({[ "read" := fs_client ]} : gmap string IMCPClient); ∅; ∅] in Hin.
  apply elem_of_cons in Hin as [->|Hin].
  { apply lookup_singleton_Some in Hk as [_ <-]. by vm_compute. }
  repeat (apply elem_of_cons in Hin as [->|Hin]; [by rewrite lookup_empty in Hk|]).
  by apply elem_of_nil in Hin.
Defined.

Lemma connection_failure_state_witness :
  allocated fs_connected ∧
  connectServer "docs" unreachable_fs fs_connected =
    (Done (Rejected (Error "Failed to connect to new server 'docs': ENOENT")), docs_failed) ∧
  NoDup abort_configs.*1 ∧
  ((∃ e, connect_outcome (endpoint unreachable_fs) = Rejected e ∧
         Error "Failed to connect to new server 'docs': ENOENT" =
           Error (connect_failure "docs" (errorMessage e)) ∧
         ("docs" ≠ "__proto__" → getFailedConnections docs_failed !! "docs" = Some (errorMessage e))) ∧
   getClients docs_failed !! "docs" = None ∧
   getClients docs_failed = getClients fs_connected ∧
   caches (mgr docs_failed) = caches (mgr fs_connected) ∧
   ∀ cacheMap k c, cacheMap ∈ caches (mgr docs_failed) → cacheMap !! k = Some c →
     getClients docs_failed !! "docs" ≠ Some c ∧ clientId c ≠ nextClientId fs_connected) ∧
  let '(r, s') := initializeFromConfig [] abort_configs (initial_State None) in
  ∀ name' config', (name', config') ∈ abort_configs →
    clients (mgr (initial_State None)) !! name' = None →
    is_fulfilled (connect_outcome (endpoint config')) = true →
    registered_as s' name' config' ∧ tools_cached s' config'.
Proof.
  split; [exact fs_connected_allocated|]. split; [by vm_compute|].
  split; [exact abort_configs_NoDup|].
  exact (connection_failure_state "docs" unreachable_fs fs_connected _ docs_failed
           [] abort_configs (initial_State None)
           fs_connected_allocated eq_refl abort_configs_NoDup).
Defined.

(** ** [getAllTools] *)

Lemma getAllTools_visit_list (l : list (string * IMCPClient)) : ∀ acc s1 s2,
  fst (foldr (uncurry getAllTools_visit) (Fulfilled acc, s1) l) =
  fst (foldr (uncurry getAllTools_visit) (Fulfilled acc, s2) l) ∧
  mgr (snd (foldr (uncurry getAllTools_visit) (Fulfilled acc, s1) l)) = mgr s1.
Proof.
  induction l as [|[k c] l IH]; intros acc s1 s2; simpl; [done|].
  destruct (IH acc s1 s2) as [Hfst Hmgr].
  destruct (foldr _ (Fulfilled acc, s1) l) as [r1 t1].
  destruct (foldr _ (Fulfilled acc, s2) l) as [r2 t2].
  simpl in Hfst, Hmgr. subst r2. unfold getAllTools_visit.
  destruct r1 as [allTools|e]; [|done].
  destruct (getTools_outcome (server c)) as [clientTools|e]; [|done].
  by destruct (read_tool clientTools k).
Qed.

(** [getAllTools] reads the manager and leaves it as it is. *)
Lemma getAllTools_mgr s : mgr (snd (getAllTools s)) = mgr s.
Proof. unfold getAllTools. rewrite map_fold_foldr. apply getAllTools_visit_list; exact s. Qed.

(** Two calls in a row settle alike, provided the servers answer the
    second call as they answered the first. *)
Lemma getAllTools_idempotent s :
  fst (getAllTools (snd (getAllTools s))) = fst (getAllTools s).
Proof.
  unfold getAllTools at 1 3. rewrite getAllTools_mgr, !map_fold_foldr.
  apply getAllTools_visit_list.
Qed.

(** What [getAllTools] returns is read off the tool cache: a name is in
    the result exactly when the cache gives it an owner and the owner has
    something under that name now, and it comes with what the owner has.
    The name [__proto__] is never in the result. *)
Lemma getAllTools_reflects_cache s tools s' :
  getAllTools s = (Fulfilled tools, s') →
  ∀ t d, tools !! t = Some d ↔
    t ≠ "__proto__" ∧
    ∃ c ts, toolToClientMap (mgr s) !! t = Some c ∧
            getTools_outcome (server c) = Fulfilled ts ∧ read_tool ts t = Some d.
Proof.
  unfold getAllTools.
  generalize (toolToClientMap (mgr s)). intros m. revert tools s'.
  apply (map_fold_weak_ind (λ (b : Settled ToolSet * State) (m : gmap string IMCPClient),
    ∀ tools s', b = (Fulfilled tools, s') →
      ∀ t d, tools !! t = Some d ↔
        t ≠ "__proto__" ∧
        ∃ c ts, m !! t = Some c ∧ getTools_outcome (server c) = Fulfilled ts ∧
                read_tool ts t = Some d)).
  - intros tools s' [= <- <-] t d. rewrite lookup_empty. split; [done|].
    intros (_ & c & ts & Hc & _). by rewrite lookup_empty in Hc.
  - intros k c m' [r sr] Hk IH tools s' Hvisit t d. unfold getAllTools_visit in Hvisit.
    destruct r as [allTools|e]; [|done].
    specialize (IH allTools sr eq_refl).
    destruct (getTools_outcome (server c)) as [clientTools|e] eqn:Hout; [|done].
    assert (Hfresh : allTools !! k = None).
    { destruct (allTools !! k) as [d'|] eqn:Hd'; [|done].
      apply IH in Hd' as (_ & c' & ts & Hc' & _). congruence. }
    destruct (decide (t = k)) as [->|Hne].
    + rewrite lookup_insert_eq.
      destruct (read_tool clientTools k) as [toolDef|] eqn:Hdef; inversion Hvisit; subst.
      * rewrite lookup_assign_eq, Hfresh. case_bool_decide as Hproto.
        -- split; [done|]. by intros [? _].
        -- split.
           ++ intros [= <-]. split; [done|]. by exists c, clientTools.
           ++ intros (_ & c' & ts & [= <-] & Hts & Hd). congruence.
      * rewrite Hfresh. split; [done|].
        intros (_ & c' & ts & [= <-] & Hts & Hd). congruence.
    + assert (Hsame : tools !! t = allTools !! t).
      { destruct (read_tool clientTools k); inversion Hvisit; subst; [|done].
        by rewrite lookup_assign_ne. }
      rewrite Hsame, IH. by setoid_rewrite lookup_insert_ne.
Qed.

Lemma getAllTools_visit_trace (l : list (string * IMCPClient)) : ∀ s,
  let '(r, s') := foldr (uncurry getAllTools_visit) (Fulfilled ∅, s) l in
  match r with
  | Fulfilled _ =>
      trace s' = trace s ++ reverse ((λ kc, EvGetTools (clientId (snd kc))) <$> l) ∧
      Forall (λ kc, is_fulfilled (getTools_outcome (server (snd kc))) = true) l
  | Rejected e =>
      ∃ k c, (k, c) ∈ l ∧ getTools_outcome (server c) = Rejected e
  end.
Proof.
  induction l as [|[k c] l IH]; intros s; simpl.
  - by rewrite app_nil_r.
  - specialize (IH s). destruct (foldr _ _ l) as [[allTools|e] s1]; simpl.
    + destruct IH as [Ht Hall].
      destruct (getTools_outcome (server c)) as [clientTools|e] eqn:Hout.
      * assert (trace (emit (EvGetTools (clientId c)) s1) =
                trace s ++ reverse (EvGetTools (clientId c) ::
                                    ((λ kc, EvGetTools (clientId (snd kc))) <$> l))).
        { simpl. rewrite Ht, reverse_cons, app_assoc. done. }
        destruct (read_tool clientTools k); (split; [done|]);
          (constructor; [simpl; by rewrite Hout|done]).
      * exists k, c. split; [left|done].
    + destruct IH as (k' & c' & Hin & Hout). exists k', c'. split; [by right|done].
Qed.

(** [getAllTools] fulfils when every owner in the cache answers. *)
Lemma getAllTools_fulfils s :
  (∀ t c, toolToClientMap (mgr s) !! t = Some c →
     is_fulfilled (getTools_outcome (server c)) = true) →
  ∃ tools, fst (getAllTools s) = Fulfilled tools.
Proof.
  intros Hall. unfold getAllTools. rewrite map_fold_foldr.
  pose proof (getAllTools_visit_trace (map_to_list (toolToClientMap (mgr s))) s) as H.
  destruct (foldr _ _ _) as [[tools|e] s']; [by eexists|].
  destruct H as (k & c & Hin%elem_of_map_to_list & Hout).
  specialize (Hall _ _ Hin). by rewrite Hout in Hall.
Qed.

(** X29. Two calls of [getAllTools] in a row, with nothing in between,
    settle alike, and the manager is the same after as before: this holds
    in every state, the clients answering the second call as the first.
    When the tool cache is current, that is when every tool in it has an
    owner that is still connected and lists it, [getAllTools] fulfils, and
    what it returns is exactly the cached tools, keyed by name: each tool
    of the cache, with the definition its owner, a still-connected server,
    lists for it. *)
Theorem getAllTools_union s :
  (fst (getAllTools (snd (getAllTools s))) = fst (getAllTools s) ∧
   mgr (snd (getAllTools (snd (getAllTools s)))) = mgr s ∧
   mgr (snd (getAllTools s)) = mgr s) ∧
  (cache_current s →
   ∃ tools,
     fst (getAllTools s) = Fulfilled tools ∧
     fst (getAllTools (snd (getAllTools s))) = Fulfilled tools ∧
     (∀ t, is_Some (tools !! t) ↔ is_Some (toolToClientMap (mgr s) !! t)) ∧
     ∀ t d, tools !! t = Some d ↔
       ∃ c ts, toolToClientMap (mgr s) !! t = Some c ∧ still_connected s c ∧
               getTools_outcome (server c) = Fulfilled ts ∧ ts !! t = Some d).
Proof.
  split.
  { split; [apply getAllTools_idempotent|]. by rewrite !getAllTools_mgr. }
  intros Hcur.
  destruct (getAllTools_fulfils s) as [tools Htools].
  { intros t c Hc. destruct (Hcur t c Hc) as (_ & _ & ts & -> & _). done. }
  exists tools. split; [done|]. split; [by rewrite getAllTools_idempotent|].
  destruct (getAllTools s) as [r s'] eqn:Hrun. simpl in Htools. subst r.
  pose proof (getAllTools_reflects_cache s tools s' Hrun) as Hchar.
  assert (Hval : ∀ t d, tools !! t = Some d ↔
            ∃ c ts, toolToClientMap (mgr s) !! t = Some c ∧ still_connected s c ∧
                    getTools_outcome (server c) = Fulfilled ts ∧ ts !! t = Some d).
  { intros t d. rewrite Hchar. split.
    - intros (_ & c & ts & Hc & Hts & Hd). exists c, ts.
      destruct (Hcur t c Hc) as (Hconn & _ & ts' & Hts' & [d' Hd']).
      rewrite Hts in Hts'. inversion Hts'; subst ts'.
      unfold read_tool in Hd. rewrite Hd' in Hd. by inversion Hd; subst.
    - intros (c & ts & Hc & _ & Hts & Hd).
      destruct (Hcur t c Hc) as (_ & Hne & _). split; [done|].
      exists c, ts. unfold read_tool. by rewrite Hd. }
  split; [|done].
  intros t. split.
  - intros [d Hd]. apply Hval in Hd as (c & _ & Hc & _). by exists c.
  - intros [c Hc]. destruct (Hcur t c Hc) as (Hconn & _ & ts & Hts & [d Hd]).
    exists d. apply Hval. by exists c, ts.
Qed.

Lemma both_connected_current : cache_current both_connected.
Proof.
  intros t c Hc.
  change (toolToClientMap (mgr both_connected)) with
    (<["search" := docs_client]> ({[ "read" := fs_client ]} : gmap string IMCPClient)) in Hc.
  assert (Htrace : ∀ cid, EvDisconnect cid ∉ trace both_connected).
  { intros cid H. vm_compute in H.
    repeat (apply elem_of_cons in H as [H|H]; [discriminate|]).
    by apply elem_of_nil in H. }
  apply lookup_insert_Some in Hc as [[<- <-]|[Hne Hc]].
  - split; [split; [by exists "docs"|apply Htrace]|]. split; [done|].
    eexists. split; [reflexivity|]. by exists sample_tool.
  - apply lookup_singleton_Some in Hc as [<- <-].
    split; [split; [by exists "fs"|apply Htrace]|]. split; [done|].
    eexists. split; [reflexivity|]. by exists sample_tool.
Defined.

Lemma getAllTools_union_witness :
  cache_current both_connected ∧
  ∃ tools,
    fst (getAllTools both_connected) = Fulfilled tools ∧
    fst (getAllTools (snd (getAllTools both_connected))) = Fulfilled tools ∧
    (∀ t, is_Some (tools !! t) ↔ is_Some (toolToClientMap (mgr both_connected) !! t)) ∧
    ∀ t d, tools !! t = Some d ↔
      ∃ c ts, toolToClientMap (mgr both_connected) !! t = Some c ∧
              still_connected both_connected c ∧
              getTools_outcome (server c) = Fulfilled ts ∧ ts !! t = Some d.
Proof.
  split; [exact both_connected_current|].
  exact (proj2 (getAllTools_union both_connected) both_connected_current).
Defined.

(** ** The loop of [completeTask] *)

Section AnthropicLoop.

Context {M : Type}.
Variable getAll : M → Settled ToolSet * M.
Variable exec : string → Json → M → Settled Json * M.
Variable create : list InternalMessage → ToolSet → Settled (list ContentBlock).

Lemma handleToolUse_spec (sv : Service) toolUseId toolName args :
  let sv' := handleToolUse exec sv (toolUseId, toolName, args) in
  history (messageManager sv') =
    history (messageManager sv) ++
    [ToolMessage toolUseId toolName
       (tool_payload (fst (exec toolName args (clientManager sv))))] ∧
  requests sv' = requests sv.
Proof.
  unfold handleToolUse. simpl.
  destruct (exec toolName args (clientManager sv)) as [[result|error] m];
    done.
Qed.

Lemma handleToolUses_spec uses : ∀ (sv : Service),
  ∃ results,
    history (messageManager (foldl (handleToolUse exec) sv uses)) =
      history (messageManager sv) ++ results ∧
    Forall2 answers uses results ∧
    requests (foldl (handleToolUse exec) sv uses) = requests sv.
Proof.
  induction uses as [|[[id name] args] uses IH]; intros sv; cbn [foldl].
  - exists []. by rewrite app_nil_r.
  - destruct (handleToolUse_spec sv id name args) as [Hh Hr].
    destruct (IH (handleToolUse exec sv (id, name, args))) as (results & Hh' & Hall & Hr').
    eexists (_ :: results). split; [|split].
    + rewrite Hh', Hh, <- app_assoc. done.
    + constructor; [by eexists|done].
    + congruence.
Qed.

(** What the loop over the tool uses of an answer leaves: the tool
    messages in the history, the events on the bus, and no request. *)
Lemma handleToolUses_run uses : ∀ (sv : Service),
  let sv' := foldl (handleToolUse exec) sv uses in
  history (messageManager sv') =
    history (messageManager sv) ++ tool_messages exec uses (clientManager sv) ∧
  emitted sv' = emitted sv ++ tool_events exec uses (clientManager sv) ∧
  requests sv' = requests sv.
Proof.
  induction uses as [|[[id name] args] uses IH]; intros sv; cbn [foldl].
  - simpl. by rewrite !app_nil_r.
  - specialize (IH (handleToolUse exec sv (id, name, args))).
    destruct IH as (Hh & He & Hr). simpl in Hh, He, Hr |- *.
    rewrite Hh, He, Hr. clear Hh He Hr.
    unfold handleToolUse. simpl.
    destruct (exec name args (clientManager sv)) as [[result|error] m]; simpl;
      by rewrite <- !app_assoc.
Qed.

(** Every pass sends one request, whose messages are the history. *)
Lemma iteration_requests tools fullResponse (sv : Service) :
  match iteration exec create tools fullResponse sv with
  | Return _ sv' | Continue _ sv' =>
      requests sv' = requests sv ++ [history (messageManager sv)]
  end.
Proof.
  unfold iteration.
  destruct (create _ _) as [content|error]; [|done].
  destruct (toolUses content) as [|u uses] eqn:Huses; [done|]. simpl.
  destruct (handleToolUses_spec (u :: uses)
              (with_messageManager
                 (addAssistantMessage (textContent content)
                    (Some (formattedToolCalls (u :: uses))))
                 (record_request (history (messageManager sv)) sv)))
    as (results & _ & _ & Hr).
  simpl in Hr. by rewrite Hr.
Qed.

(** A pass goes on to the next one exactly when the provider answered
    with tool calls. *)
Lemma iteration_continues tools fullResponse (sv : Service) :
  match iteration exec create tools fullResponse sv with
  | Continue _ _ =>
      ∃ content, create (history (messageManager sv)) tools = Fulfilled content ∧
                 toolUses content ≠ []
  | Return _ _ =>
      is_fulfilled (create (history (messageManager sv)) tools) = false ∨
      ∃ content, create (history (messageManager sv)) tools = Fulfilled content ∧
                 toolUses content = []
  end.
Proof.
  unfold iteration.
  destruct (create _ _) as [content|error]; [|by left].
  destruct (toolUses content) as [|u uses] eqn:Huses.
  - right. by exists content.
  - exists content. by rewrite Huses.
Qed.

Lemma toolLoop_spec tools : ∀ fuel iterationCount fullResponse (sv : Service),
  MAX_ITERATIONS - iterationCount < fuel →
  ∃ result sv' new,
    toolLoop exec create fuel tools iterationCount fullResponse sv = Some (result, sv') ∧
    requests sv' = requests sv ++ new ∧
    length new ≤ MAX_ITERATIONS - iterationCount ∧
    (∀ i messages, new !! i = Some messages → i + 1 < length new →
       answered_with_tool_calls create tools messages) ∧
    (length new < MAX_ITERATIONS - iterationCount →
       ∃ messages, last new = Some messages ∧ answered_finally create tools messages) ∧
    (length new = MAX_ITERATIONS - iterationCount →
       (∀ messages, last new = Some messages → answered_with_tool_calls create tools messages) →
       ∃ full, result = best_effort full).
Proof.
  induction fuel as [|fuel IH]; intros iterationCount fullResponse sv Hfuel; [lia|].
  simpl. case_bool_decide as Hguard.
  2: { eexists _, _, []. rewrite app_nil_r. split; [done|]. split; [done|].
       split; [simpl; lia|]. split; [intros i ? Hi; by rewrite lookup_nil in Hi|].
       split; [simpl; lia|]. intros _ _. by eexists. }
  pose proof (iteration_requests tools fullResponse sv) as Hreq.
  pose proof (iteration_continues tools fullResponse sv) as Hcont.
  destruct (iteration exec create tools fullResponse sv) as [result sv1|fullResponse1 sv1].
  - exists result, sv1, [history (messageManager sv)].
    split; [done|]. split; [done|]. split; [simpl; lia|]. split; [|split].
    + intros i messages _ Hi. simpl in Hi. lia.
    + intros _. by eexists.
    + intros _ Hlast. destruct (Hlast _ eq_refl) as (content & Hc & Huses).
      rewrite Hc in Hcont. destruct Hcont as [?|(c' & [= <-] & ?)]; done.
  - destruct (IH (iterationCount + 1) fullResponse1 sv1) as
      (result & sv' & new & Hrun & Hnew & Hlen & Hmid & Hlast & Hbest); [lia|].
    exists result, sv', (history (messageManager sv) :: new).
    split; [done|]. split; [by rewrite Hnew, Hreq, <- app_assoc|].
    split; [simpl; lia|]. split; [|split].
    + intros [|i] messages Hi Hlt; simpl in *.
      * by inversion Hi; subst.
      * apply (Hmid i); [done|lia].
    + intros Hlt. simpl in Hlt. destruct Hlast as (messages & Hl & Hfin); [lia|].
      exists messages. split; [|done]. destruct new; [done|]. done.
    + intros Hfull Hl. simpl in Hfull. apply Hbest; [lia|].
      intros messages Hm. apply Hl. destruct new; [done|]. done.
Qed.

Lemma toolLoop_fuel tools : ∀ fuel fuel' iterationCount fullResponse (sv : Service) r,
  toolLoop exec create fuel tools iterationCount fullResponse sv = Some r → fuel ≤ fuel' →
  toolLoop exec create fuel' tools iterationCount fullResponse sv = Some r.
Proof.
  induction fuel as [|fuel IH]; intros fuel' iterationCount fullResponse sv r Hrun Hle;
    [done|].
  destruct fuel' as [|fuel']; [lia|]. simpl in *.
  case_bool_decide; [|done].
  destruct (iteration exec create tools fullResponse sv); [done|].
  apply (IH fuel'); [done|lia].
Qed.

End AnthropicLoop.

(** C8. [completeTask] returns: with more fuel than [MAX_ITERATIONS], which
    is 10, the model of the loop yields an outcome, the same for every such
    fuel.  The loop sends at most [MAX_ITERATIONS] requests to the provider;
    every request but the last was answered with tool calls, so the loop
    stops at the first answer without any (or the first rejected request);
    it stops before the limit only for such an answer; and when the limit
    is reached on an answer with tool calls it returns the best-effort
    response. *)
Theorem completeTask_terminates {M : Type} (getAll : M → Settled ToolSet * M)
    (exec : string → Json → M → Settled Json * M)
    (create : list InternalMessage → ToolSet → Settled (list ContentBlock))
    (userInput : string) (imageData : option string) (sv : Service) :
  MAX_ITERATIONS = 10 ∧
  (∃ outcome, ∀ fuel, MAX_ITERATIONS < fuel →
     completeTask getAll exec create fuel userInput imageData sv = Some outcome) ∧
  ∀ tools fullResponse (sv0 : Service),
    ∃ result sv' new,
      (∀ fuel, MAX_ITERATIONS < fuel →
         toolLoop exec create fuel tools 0 fullResponse sv0 = Some (result, sv')) ∧
      requests sv' = requests sv0 ++ new ∧
      length new ≤ MAX_ITERATIONS ∧
      (∀ i messages, new !! i = Some messages → i + 1 < length new →
         answered_with_tool_calls create tools messages) ∧
      (length new < MAX_ITERATIONS →
         ∃ messages, last new = Some messages ∧ answered_finally create tools messages) ∧
      (length new = MAX_ITERATIONS →
         (∀ messages, last new = Some messages →
            answered_with_tool_calls create tools messages) →
         ∃ full, result = best_effort full).
Proof.
  assert (Hloop : ∀ tools fullResponse (sv0 : Service),
    ∃ result sv' new,
      (∀ fuel, MAX_ITERATIONS < fuel →
         toolLoop exec create fuel tools 0 fullResponse sv0 = Some (result, sv')) ∧
      requests sv' = requests sv0 ++ new ∧
      length new ≤ MAX_ITERATIONS ∧
      (∀ i messages, new !! i = Some messages → i + 1 < length new →
         answered_with_tool_calls create tools messages) ∧
      (length new < MAX_ITERATIONS →
         ∃ messages, last new = Some messages ∧ answered_finally create tools messages) ∧
      (length new = MAX_ITERATIONS →
         (∀ messages, last new = Some messages →
            answered_with_tool_calls create tools messages) →
         ∃ full, result = best_effort full)).
  { intros tools fullResponse sv0.
    destruct (toolLoop_spec exec create tools (S MAX_ITERATIONS) 0 fullResponse sv0)
      as (result & sv' & new & Hrun & Hnew & Hlen & Hmid & Hlast & Hbest); [lia|].
    rewrite Nat.sub_0_r in *.
    exists result, sv', new. split; [|done].
    intros fuel Hfuel. eapply toolLoop_fuel; [exact Hrun|lia]. }
  split; [done|]. split; [|done].
  unfold completeTask.
  destruct (getAll _) as [[tools|error] m]; [|by eexists].
  match goal with |- context [toolLoop exec create _ tools 0 "" ?sv3] =>
    destruct (Hloop tools "" sv3) as (result & sv' & new & Hrun & _) end.
  exists (Fulfilled result, sv'). intros fuel Hfuel. by rewrite (Hrun fuel Hfuel).
Qed.

(** ** Tool failures in the driving loops *)

Lemma execute_spec {T : Type}
    (toolManager_executeTool : string → Json → string → T → Settled Json * T)
    sessionId toolName args (t : T) :
  execute toolManager_executeTool sessionId toolName args t =
  (Fulfilled match fst (toolManager_executeTool toolName args sessionId t) with
             | Fulfilled result => result
             | Rejected err => vercel_payload err
             end,
   snd (toolManager_executeTool toolName args sessionId t)).
Proof.
  unfold execute.
  destruct (toolManager_executeTool toolName args sessionId t) as [[result|err] t'];
    [done|].
  destruct err as [| | |[] ?]; done.
Qed.

(** The tools [formatTools] returns are tools of the set it was given, and
    each comes with the [execute] callback built for its name. *)
Lemma formatTools_lookup {T : Type}
    (toolManager_executeTool : string → Json → string → T → Settled Json * T)
    sessionId (tools : ToolSet) toolName vt :
  formatTools toolManager_executeTool sessionId tools !! toolName = Some vt →
  is_Some (tools !! toolName) ∧
  vt_execute vt = execute toolManager_executeTool sessionId toolName.
Proof.
  unfold formatTools. revert toolName vt.
  apply (map_fold_weak_ind (λ (acc : gmap string (VercelTool T)) (m : ToolSet),
    ∀ toolName vt, acc !! toolName = Some vt →
      is_Some (m !! toolName) ∧
      vt_execute vt = execute toolManager_executeTool sessionId toolName)).
  - intros toolName vt H. by rewrite lookup_empty in H.
  - intros k tool m acc Hk IH toolName vt. unfold formatTools_visit.
    destruct (decide (toolName = k)) as [->|Hne].
    + rewrite lookup_assign_eq, lookup_insert_eq.
      destruct (acc !! k) as [vt'|] eqn:Hacc.
      { apply IH in Hacc as [[? Hm] _]. congruence. }
      case_bool_decide; [done|]. intros [= <-]. split; [by eexists|done].
    + rewrite lookup_assign_ne, lookup_insert_ne by done. apply IH.
Qed.

(** Every tool [formatTools] is given is among those it returns, except a
    tool named [__proto__]. *)
Lemma formatTools_is_Some {T : Type}
    (toolManager_executeTool : string → Json → string → T → Settled Json * T)
    sessionId (tools : ToolSet) toolName :
  is_Some (tools !! toolName) → toolName ≠ "__proto__" →
  is_Some (formatTools toolManager_executeTool sessionId tools !! toolName).
Proof.
  unfold formatTools. revert toolName.
  apply (map_fold_weak_ind (λ (acc : gmap string (VercelTool T)) (m : ToolSet),
    ∀ toolName, is_Some (m !! toolName) → toolName ≠ "__proto__" →
      is_Some (acc !! toolName))).
  - intros toolName [? H]. by rewrite lookup_empty in H.
  - intros k tool m acc Hk IH toolName. unfold formatTools_visit.
    destruct (decide (toolName = k)) as [->|Hne].
    + intros _ Hproto. rewrite lookup_assign_eq.
      destruct (acc !! k); [by eexists|]. rewrite bool_decide_eq_false_2 by done.
      by eexists.
    + rewrite lookup_assign_ne, lookup_insert_ne by done. apply IH.
Qed.

(** C5. However [executeTool] settles, denied, timed out or failed, the
    [execute] callback of every tool [formatTools] returns fulfils: with
    the result, or with an object that carries the error message, marked
    [denied] for a denial and [denied] and [timeout] for a confirmation
    timeout.  In the loop of [completeTask] a pass whose answer has tool
    calls goes on to the next pass whatever the tools did: it has appended
    to the conversation the assistant message and then, for each tool call
    in turn, one tool message with its id and name, whose payload is the
    result of the tool or, when [executeTool] rejected, be it for a denial
    or a failure, the object [{ error: message }]; and the loop then runs
    its next pass on that conversation. *)
Theorem tool_failure_is_a_result {M T : Type}
    (exec : string → Json → M → Settled Json * M)
    (create : list InternalMessage → ToolSet → Settled (list ContentBlock))
    (toolManager_executeTool : string → Json → string → T → Settled Json * T)
    tools fullResponse (sv : Service) content u uses sessionId (toolSet : ToolSet) :
  create (history (messageManager sv)) tools = Fulfilled content →
  toolUses content = u :: uses →
  (∀ toolName vt args (t : T),
     formatTools toolManager_executeTool sessionId toolSet !! toolName = Some vt →
     ∃ payload,
       vt_execute vt args t =
         (Fulfilled payload, snd (toolManager_executeTool toolName args sessionId t)) ∧
       match fst (toolManager_executeTool toolName args sessionId t) with
       | Fulfilled result => payload = result
       | Rejected (DextoRuntimeError EXECUTION_DENIED message) =>
           payload = JObj [("error", JStr message); ("denied", JBool true)]
       | Rejected (DextoRuntimeError CONFIRMATION_TIMEOUT message) =>
           payload = JObj [("error", JStr message); ("denied", JBool true);
                           ("timeout", JBool true)]
       | Rejected err => payload = JObj [("error", JStr (errorMessage err))]
       end) ∧
  (∃ fullResponse' sv',
     iteration exec create tools fullResponse sv = Continue fullResponse' sv' ∧
     history (messageManager sv') =
       history (messageManager sv) ++
       AssistantMessage (textContent content) (Some (formattedToolCalls (u :: uses)))
       :: tool_messages exec (u :: uses) (clientManager sv) ∧
     emitted sv' =
       emitted sv ++ tool_events exec (u :: uses) (clientManager sv) ++ [Thinking] ∧
     ∀ fuel iterationCount, iterationCount < MAX_ITERATIONS →
       toolLoop exec create (S fuel) tools iterationCount fullResponse sv =
       toolLoop exec create fuel tools (iterationCount + 1) fullResponse' sv').
Proof.
  intros Hcreate Huses. split.
  - intros toolName vt args t Hvt.
    apply formatTools_lookup in Hvt as [_ ->]. rewrite execute_spec.
    eexists. split; [done|].
    destruct (fst (toolManager_executeTool toolName args sessionId t)) as [result|err];
      [done|].
    destruct err as [| | |[] ?]; done.
  - pose proof (handleToolUses_run exec (u :: uses)) as Hrun.
    unfold iteration. rewrite Hcreate, Huses.
    match goal with |- context [foldl (handleToolUse exec) ?sv2 (u :: uses)] =>
      destruct (Hrun sv2) as (Hh & He & _) end.
    eexists _, _. split; [done|]. split; [|split].
    + simpl in *. rewrite Hh. by rewrite <- app_assoc.
    + simpl in *. rewrite He. by rewrite <- app_assoc.
    + intros fuel iterationCount Hlt. cbn [toolLoop].
      rewrite bool_decide_eq_true_2 by done.
      unfold iteration. by rewrite Hcreate, Huses.
Qed.

Lemma tool_failure_is_a_result_witness :
  asks_for_delete (history (messageManager first_turn)) ∅ =
    Fulfilled [TextBlock "Deleting."; ToolUseBlock "call_1" "delete_file" JNull] ∧
  (∀ toolName vt args (t : unit),
     formatTools always_denied "s1" {[ "delete_file" := sample_tool ]} !! toolName = Some vt →
     ∃ payload,
       vt_execute vt args t = (Fulfilled payload, ()) ∧
       payload = JObj [("error", JStr ("Tool " +:+ toolName +:+ " denied"));
                       ("denied", JBool true)]) ∧
  (∃ vt,
     formatTools always_denied "s1" {[ "delete_file" := sample_tool ]} !! "delete_file" =
       Some vt ∧
     vt_execute vt JNull () =
       (Fulfilled (JObj [("error", JStr "Tool delete_file denied"); ("denied", JBool true)]),
        ())) ∧
  ∃ fullResponse' sv',
    iteration (λ name args, executeTool sample_deniedMessage name args None)
      asks_for_delete ∅ "" first_turn = Continue fullResponse' sv' ∧
    history (messageManager sv') =
      [UserMessage "remove the file" None;
       AssistantMessage "Deleting."
         (Some [{| tc_id := "call_1"; tc_name := "delete_file"; tc_arguments := JNull |}]);
       ToolMessage "call_1" "delete_file"
         (JObj [("error", JStr "Tool 'delete_file' execution was denied")])] ∧
    emitted sv' =
      [ToolCallEvent "delete_file" JNull;
       ToolResultEvent "delete_file"
         (JObj [("error", JStr "Tool 'delete_file' execution was denied")]);
       Thinking] ∧
    ∀ fuel iterationCount, iterationCount < MAX_ITERATIONS →
      toolLoop (λ name args, executeTool sample_deniedMessage name args None)
        asks_for_delete (S fuel) ∅ iterationCount "" first_turn =
      toolLoop (λ name args, executeTool sample_deniedMessage name args None)
        asks_for_delete fuel ∅ (iterationCount + 1) fullResponse' sv'.
Proof.
  split; [reflexivity|].
  pose proof (tool_failure_is_a_result
                (λ name args, executeTool sample_deniedMessage name args None)
                asks_for_delete always_denied ∅ "" first_turn
                [TextBlock "Deleting."; ToolUseBlock "call_1" "delete_file" JNull]
                ("call_1", "delete_file", JNull) [] "s1" {[ "delete_file" := sample_tool ]}
                eq_refl eq_refl) as (Hv & Ha).
  split; [|split; [|exact Ha]].
  - intros toolName vt args t Hvt. destruct (Hv toolName vt args t Hvt) as (payload & He & Hp).
    exists payload. destruct t. split; [exact He|exact Hp].
  - eexists. split; [vm_compute; reflexivity|]. vm_compute. reflexivity.
Defined.

(** ** The token budget *)

Section BinaryFloat.

Local Open Scope Z_scope.

(** *** Digits *)

Lemma digits2_pos_size p : digits2_pos p = Pos.size p.
Proof. induction p; simpl; by rewrite ?IHp. Qed.

Lemma digits2_pos_bounds p :
  2 ^ (Zpos (digits2_pos p) - 1) ≤ Zpos p < 2 ^ Zpos (digits2_pos p).
Proof.
  rewrite digits2_pos_size. split.
  - pose proof (Pos.size_le p) as H.
    apply Pos2Z.pos_le_pos in H. rewrite Pos2Z.inj_pow in H.
    assert (E : 2 ^ Zpos (Pos.size p) = 2 * 2 ^ (Zpos (Pos.size p) - 1)).
    { clear H. rewrite <- Z.pow_succ_r by lia. f_equal. lia. }
    rewrite E in H. lia.
  - pose proof (Pos.size_gt p) as H.
    apply Pos2Z.pos_lt_pos in H. by rewrite Pos2Z.inj_pow in H.
Qed.

Lemma digits2_pos_unique p n :
  2 ^ (n - 1) ≤ Zpos p < 2 ^ n → Zpos (digits2_pos p) = n.
Proof.
  intros [Hlo Hhi]. pose proof (digits2_pos_bounds p) as [Hlo' Hhi'].
  assert (0 < n).
  { destruct (Z_lt_le_dec 0 n) as [|Hn]; [done|].
    assert (2 ^ n ≤ 1); [|lia].
    destruct (Z.eq_dec n 0) as [->|]; [done|]. rewrite Z.pow_neg_r; lia. }
  assert (n - 1 < Zpos (digits2_pos p)).
  { apply (Z.pow_lt_mono_r_iff 2); lia. }
  assert (Zpos (digits2_pos p) - 1 < n).
  { apply (Z.pow_lt_mono_r_iff 2); lia. }
  lia.
Qed.

(** *** Shifting right *)

Lemma shr_1_spec m r s :
  0 ≤ m →
  shr_m (shr_1 (Build_shr_record m r s)) = m / 2 ∧
  shr_r (shr_1 (Build_shr_record m r s)) = Z.odd m.
Proof.
  intros Hm. destruct m as [|[p|p|]|p]; simpl; try lia; split; try done.
  - apply (Z.div_unique _ _ _ 1); lia.
  - apply (Z.div_unique _ _ _ 0); lia.
Qed.

Lemma iter_pos_shr_1 p : ∀ mrs,
  0 ≤ shr_m mrs →
  shr_m (iter_pos shr_1 p mrs) = shr_m mrs / 2 ^ Zpos p ∧
  shr_r (iter_pos shr_1 p mrs) = Z.testbit (shr_m mrs) (Zpos p - 1).
Proof.
  assert (Hstep : ∀ mrs, 0 ≤ shr_m mrs →
            shr_m (shr_1 mrs) = shr_m mrs / 2 ∧ shr_r (shr_1 mrs) = Z.odd (shr_m mrs)).
  { intros [m r s] Hm. by apply shr_1_spec. }
  assert (Hdouble : ∀ q mrs mrs1 mrs2, 0 ≤ shr_m mrs →
            shr_m mrs1 = shr_m mrs / 2 ^ Zpos q →
            shr_m mrs2 = shr_m mrs1 / 2 ^ Zpos q →
            shr_r mrs2 = Z.testbit (shr_m mrs1) (Zpos q - 1) →
            shr_m mrs2 = shr_m mrs / 2 ^ Zpos (q~0) ∧
            shr_r mrs2 = Z.testbit (shr_m mrs) (Zpos (q~0) - 1)).
  { intros q mrs mrs1 mrs2 Hm H1 H2 Hr. split.
    - rewrite H2, H1, Z.div_div by lia. rewrite <- Z.pow_add_r by lia.
      f_equal. f_equal. lia.
    - rewrite Hr, H1. rewrite Z.div_pow2_bits by lia. f_equal. lia. }
  induction p as [p IH|p IH|]; intros mrs Hm; cbn [iter_pos].
  - destruct (Hstep mrs Hm) as [Hm1 Hr1].
    assert (Hpos1 : 0 ≤ shr_m (shr_1 mrs)) by (rewrite Hm1; apply Z.div_pos; lia).
    destruct (IH (shr_1 mrs) Hpos1) as [Hm2 Hr2].
    assert (Hpos2 : 0 ≤ shr_m (iter_pos shr_1 p (shr_1 mrs))).
    { rewrite Hm2. apply Z.div_pos; lia. }
    destruct (IH _ Hpos2) as [Hm3 Hr3].
    destruct (Hdouble p (shr_1 mrs) _ _ Hpos1 Hm2 Hm3 Hr3) as [Hm4 Hr4].
    split.
    + rewrite Hm4, Hm1, Z.div_div by lia.
      by f_equal.
    + rewrite Hr4, Hm1.
      rewrite Z.div2_bits by lia. f_equal. clear. lia.
  - destruct (IH mrs Hm) as [Hm1 Hr1].
    assert (Hpos1 : 0 ≤ shr_m (iter_pos shr_1 p mrs)).
    { rewrite Hm1. apply Z.div_pos; lia. }
    destruct (IH _ Hpos1) as [Hm2 Hr2].
    by apply (Hdouble p mrs _ _ Hm Hm1 Hm2 Hr2).
  - destruct (Hstep mrs Hm) as [Hm1 Hr1]. split; [by rewrite Hm1|].
    rewrite Hr1. symmetry. apply Z.bit0_odd.
Qed.

Lemma testbit_true_mod a k :
  0 ≤ a → 0 < k → Z.testbit a (k - 1) = true → 2 ^ (k - 1) ≤ a mod 2 ^ k.
Proof.
  intros Ha Hk Hbit.
  apply Z.testbit_true in Hbit; [|lia].
  assert (H2k : 2 ^ k = 2 * 2 ^ (k - 1)).
  { rewrite <- Z.pow_succ_r by lia. f_equal. lia. }
  assert (Hp : 0 < 2 ^ (k - 1)) by (apply Z.pow_pos_nonneg; lia).
  rewrite H2k. rewrite Z.mul_comm, Z.rem_mul_r by lia.
  rewrite Hbit. pose proof (Z.mod_pos_bound a (2 ^ (k - 1)) Hp). lia.
Qed.

(** *** Rounding to nearest *)

Lemma round_nearest_even_shr mrs :
  let m1 := round_nearest_even (shr_m mrs) (loc_of_shr_record mrs) in
  shr_m mrs ≤ m1 ≤ shr_m mrs + 1 ∧ (m1 = shr_m mrs + 1 → shr_r mrs = true).
Proof.
  destruct mrs as [q [] []]; simpl; try destruct (Z.even q); lia.
Qed.

Lemma binary_round_aux_nearest (m : positive) (e : Z) (pk : positive) :
  Zpos (digits2_pos m) - 53 = Zpos pk →
  -1074 ≤ e + Zpos pk ≤ 971 →
  Zpos m + 2 ^ (Zpos pk - 1) < 2 ^ Zpos (digits2_pos m) →
  ∃ m1,
    binary_round_aux 53 1024 false (Zpos m) e loc_Exact =
      S754_finite false m1 (e + Zpos pk) ∧
    Zpos m / 2 ^ Zpos pk ≤ Zpos m1 ≤ Zpos m / 2 ^ Zpos pk + 1 ∧
    (Zpos m1 = Zpos m / 2 ^ Zpos pk + 1 → 2 ^ (Zpos pk - 1) ≤ Zpos m mod 2 ^ Zpos pk).
Proof.
  intros Hk He Hcarry.
  pose proof (digits2_pos_bounds m) as [Hlo Hhi].
  assert (Hpow : 2 ^ Zpos (digits2_pos m) = 2 ^ Zpos pk * 2 ^ 53 ∧
                 2 ^ (Zpos (digits2_pos m) - 1) = 2 ^ Zpos pk * 2 ^ 52 ∧
                 0 < 2 ^ Zpos pk ∧ 2 ^ Zpos pk = 2 * 2 ^ (Zpos pk - 1)).
  { clear - Hk. split; [|split; [|split]].
    - rewrite <- Z.pow_add_r by lia. f_equal. lia.
    - rewrite <- Z.pow_add_r by lia. f_equal. lia.
    - apply Z.pow_pos_nonneg; lia.
    - rewrite <- Z.pow_succ_r by lia. f_equal. lia. }
  destruct Hpow as (HD & HD1 & Hkpos & Hhalf).
  assert (Hshift : fexp 53 1024 (Zdigits2 (Zpos m) + e) - e = Zpos pk).
  { clear - Hk He. unfold fexp, emin. simpl Zdigits2. lia. }
  unfold binary_round_aux, shr_fexp at 1. rewrite Hshift.
  cbn [shr_record_of_loc]. unfold shr at 1. cbv iota beta.
  pose proof (iter_pos_shr_1 pk (Build_shr_record (Zpos m) false false)
                ltac:(simpl; lia)) as [Hq Hr].
  cbn [shr_m] in Hq, Hr.
  set (mrs := iter_pos shr_1 pk _) in *.
  pose proof (round_nearest_even_shr mrs) as [Hm1 Hup].
  set (m1 := round_nearest_even (shr_m mrs) (loc_of_shr_record mrs)) in *.
  rewrite Hq in Hm1, Hup.
  pose proof (Z.div_mod (Zpos m) (2 ^ Zpos pk) ltac:(lia)) as Hdm.
  pose proof (Z.mod_pos_bound (Zpos m) (2 ^ Zpos pk) Hkpos) as Hmod.
  assert (Hrem : m1 = Zpos m / 2 ^ Zpos pk + 1 →
                 2 ^ (Zpos pk - 1) ≤ Zpos m mod 2 ^ Zpos pk).
  { intros Hm. apply testbit_true_mod; [lia|lia|]. rewrite <- Hr. apply Hup, Hm. }
  clearbody m1. clear Hup Hq Hr mrs Hshift.
  revert Hlo Hhi Hcarry HD HD1 Hkpos Hhalf Hm1 Hdm Hmod Hrem.
  generalize (2 ^ (Zpos (digits2_pos m) - 1)) (2 ^ Zpos (digits2_pos m))
             (2 ^ (Zpos pk - 1)) (2 ^ Zpos pk)
             (Zpos m / 2 ^ Zpos pk) (Zpos m mod 2 ^ Zpos pk).
  intros pD1 pD half pw q rem Hlo Hhi Hcarry HD HD1 Hkpos Hhalf Hm1 Hdm Hmod Hrem.
  assert (Hq52 : 2 ^ 52 ≤ q).
  { assert (H : pw * 2 ^ 52 < pw * (q + 1)) by lia.
    apply Z.mul_lt_mono_pos_l in H; lia. }
  assert (Hm53 : m1 < 2 ^ 53).
  { apply (Z.mul_lt_mono_pos_l pw); [done|].
    destruct (Z.eq_dec m1 (q + 1)) as [Heq|Hne].
    - specialize (Hrem Heq). rewrite Heq. lia.
    - assert (Heq : m1 = q) by lia. rewrite Heq. lia. }
  destruct m1 as [|m1p|m1p]; [lia| |lia].
  exists m1p. split; [|split; [lia|done]].
  assert (Hshift2 : fexp 53 1024 (Zdigits2 (Zpos m1p) + (e + Zpos pk)) - (e + Zpos pk) = 0).
  { unfold fexp, emin. simpl Zdigits2.
    rewrite (digits2_pos_unique m1p 53) by (change (53 - 1) with 52; lia).
    clear - He. lia. }
  unfold shr_fexp. rewrite Hshift2. cbn [shr shr_record_of_loc shr_m].
  replace (e + Zpos pk <=? 1024 - 53) with true; [done|].
  symmetry. apply Z.leb_le. clear - He. lia.
Qed.

(** *** Integers as numbers *)

Lemma Pos_iter_xO p d : Zpos (Pos.iter xO p d) = Zpos p * 2 ^ Zpos d.
Proof.
  induction d as [|d IH] using Pos.peano_ind.
  - simpl. lia.
  - rewrite Pos.iter_succ, Pos2Z.inj_xO, IH, Pos2Z.inj_succ, Z.pow_succ_r by lia. lia.
Qed.

Lemma shl_align_spec p ex ex' :
  ex' ≤ ex →
  ∃ mz, shl_align p ex ex' = (mz, ex') ∧ Zpos mz = Zpos p * 2 ^ (ex - ex').
Proof.
  intros Hle. unfold shl_align. destruct (ex' - ex) as [|n|n] eqn:Hn.
  - assert (ex' = ex) as -> by lia. exists p. rewrite Z.sub_diag. split; [done|lia].
  - lia.
  - exists (Pos.iter xO p n). split; [done|].
    rewrite Pos_iter_xO. f_equal. f_equal. lia.
Qed.

Lemma binary_round_aux_exact mz ez :
  Zpos (digits2_pos mz) = 53 → -1074 ≤ ez ≤ 971 →
  binary_round_aux 53 1024 false (Zpos mz) ez loc_Exact = S754_finite false mz ez.
Proof.
  intros Hd He.
  assert (Hshift : fexp 53 1024 (Zdigits2 (Zpos mz) + ez) - ez = 0).
  { unfold fexp, emin. simpl Zdigits2. lia. }
  unfold binary_round_aux, shr_fexp at 1. rewrite Hshift.
  cbn [shr shr_record_of_loc shr_m loc_of_shr_record round_nearest_even].
  unfold shr_fexp. rewrite Hshift. cbn [shr shr_record_of_loc shr_m].
  replace (ez <=? 1024 - 53) with true; [done|]. symmetry. apply Z.leb_le. lia.
Qed.

(** The number for an integer below [2^53]: its digits, shifted to fill
    the 53 bits of the mantissa. *)
Lemma number_of_Z_spec p :
  Zpos (digits2_pos p) ≤ 53 →
  ∃ mz, number_of_Z (Zpos p) = S754_finite false mz (Zpos (digits2_pos p) - 53) ∧
        Zpos mz = Zpos p * 2 ^ (53 - Zpos (digits2_pos p)) ∧
        2 ^ 52 ≤ Zpos mz < 2 ^ 53.
Proof.
  intros Hd. pose proof (digits2_pos_bounds p) as [Hlo Hhi].
  unfold number_of_Z, binary_normalize, binary_round.
  assert (Hfexp : fexp 53 1024 (Zpos (digits2_pos p) + 0) = Zpos (digits2_pos p) - 53).
  { unfold fexp, emin. lia. }
  rewrite Hfexp.
  destruct (shl_align_spec p 0 (Zpos (digits2_pos p) - 53)) as (mz & -> & Hmz); [lia|].
  replace (0 - (Zpos (digits2_pos p) - 53)) with (53 - Zpos (digits2_pos p)) in Hmz by lia.
  assert (Hbounds : 2 ^ 52 ≤ Zpos mz < 2 ^ 53).
  { rewrite Hmz.
    assert (H53 : 2 ^ 53 = 2 ^ Zpos (digits2_pos p) * 2 ^ (53 - Zpos (digits2_pos p))).
    { rewrite <- Z.pow_add_r by lia. f_equal. lia. }
    assert (H52 : 2 ^ 52 = 2 ^ (Zpos (digits2_pos p) - 1) * 2 ^ (53 - Zpos (digits2_pos p))).
    { rewrite <- Z.pow_add_r by lia. f_equal. lia. }
    assert (HS : 0 < 2 ^ (53 - Zpos (digits2_pos p))) by (apply Z.pow_pos_nonneg; lia).
    rewrite H53, H52. split.
    - apply Z.mul_le_mono_nonneg_r; lia.
    - apply Z.mul_lt_mono_pos_r; lia. }
  exists mz. split; [|done].
  apply binary_round_aux_exact; [|lia].
  apply digits2_pos_unique. change (53 - 1) with 52. lia.
Qed.

(** *** [Math.floor(n * 0.9)] *)

(** In binary64, [Math.floor(raw * 0.9)] is the integer part of nine
    tenths of [raw], for every integer [raw] a token count can be. *)
Lemma with_margin_spec raw :
  0 < raw < 2 ^ 49 →
  with_margin (number_of_Z raw) = Some (9 * raw / 10).
Proof.
  intros [Hpos Hlt]. destruct raw as [|p|p]; [lia| |lia].
  pose proof (digits2_pos_bounds p) as [Hlo Hhi].
  assert (Hd : Zpos (digits2_pos p) ≤ 49).
  { assert (Zpos (digits2_pos p) - 1 < 49); [|lia].
    apply (Z.pow_lt_mono_r_iff 2); lia. }
  destruct (number_of_Z_spec p) as (mz & -> & Hmz & Hmz52 & Hmz53); [lia|].
  unfold with_margin, js_mul, js_0_9, SFmul. cbn [xorb].
  set (c := 8106479329266893%positive).
  set (d := Zpos (digits2_pos p)) in *.
  assert (HS : 2 ^ 4 ≤ 2 ^ (53 - d)) by (apply Z.pow_le_mono_r; lia).
  (* the product, before rounding *)
  assert (HP : Zpos (mz * c) = Zpos mz * 8106479329266893) by done.
  assert (HPlo : 2 ^ 104 ≤ Zpos (mz * c)) by lia.
  assert (HPhi : Zpos (mz * c) < 2 ^ 106) by lia.
  pose proof (digits2_pos_bounds (mz * c)) as [HDlo HDhi].
  assert (HD : Zpos (digits2_pos (mz * c)) = 105 ∨ Zpos (digits2_pos (mz * c)) = 106).
  { assert (104 < Zpos (digits2_pos (mz * c))) by (apply (Z.pow_lt_mono_r_iff 2); lia).
    assert (Zpos (digits2_pos (mz * c)) - 1 < 106) by (apply (Z.pow_lt_mono_r_iff 2); lia).
    lia. }
  (* nine tenths of [raw], scaled like the mantissa *)
  pose proof (Z.div_mod (9 * Zpos p) 10 ltac:(lia)) as Hdm.
  pose proof (Z.mod_pos_bound (9 * Zpos p) 10 ltac:(lia)) as Hmod.
  set (N := 9 * Zpos p / 10) in *.
  assert (HY1 : 10 * (N * 2 ^ (53 - d)) ≤ 9 * Zpos mz) by nia.
  assert (HY2 : 9 * Zpos mz ≤ 10 * (N * 2 ^ (53 - d)) + 9 * 2 ^ (53 - d)) by nia.
  assert (HN : 0 ≤ N) by (apply Z.div_pos; lia).
  destruct HD as [HD|HD]; rewrite HD in HDlo, HDhi.
  - (* 105 digits: 52 are dropped *)
    destruct (binary_round_aux_nearest (mz * c) (d - 53 + -53) 52) as (m1 & -> & Hm1 & Hup).
    { rewrite HD. done. }
    { lia. }
    { rewrite HD. change (2 ^ (52 - 1)) with (2 ^ 51). lia. }
    cbn [Math_floor cond_Zopp]. f_equal.
    rewrite Z.shiftl_div_pow2 by lia.
    replace (- (d - 53 + -53 + 52)) with (1 + (53 - d)) by lia.
    rewrite Z.pow_add_r by lia. change (2 ^ 1) with 2.
    pose proof (Z.div_mod (Zpos (mz * c)) (2 ^ 52) ltac:(lia)) as Hdq.
    pose proof (Z.mod_pos_bound (Zpos (mz * c)) (2 ^ 52) ltac:(lia)) as Hmq.
    change (2 ^ (52 - 1)) with (2 ^ 51) in Hup.
    revert HS HY1 HY2 Hm1 Hup Hdq Hmq. rewrite HP.
    generalize (2 ^ (53 - d)) (Zpos mz * 8106479329266893 / 2 ^ 52)
               (Zpos mz * 8106479329266893 mod 2 ^ 52).
    intros S q rem HS HY1 HY2 Hm1 Hup Hdq Hmq.
    symmetry. apply (Z.div_unique _ _ _ (Zpos m1 - 2 * S * N)); [|lia].
    left. destruct (Z.eq_dec (Zpos m1) (q + 1)) as [Heq|Hne].
    + specialize (Hup Heq). lia.
    + lia.
  - (* 106 digits: 53 are dropped *)
    destruct (binary_round_aux_nearest (mz * c) (d - 53 + -53) 53) as (m1 & -> & Hm1 & Hup).
    { rewrite HD. done. }
    { lia. }
    { rewrite HD. change (2 ^ (53 - 1)) with (2 ^ 52). lia. }
    cbn [Math_floor cond_Zopp]. f_equal.
    rewrite Z.shiftl_div_pow2 by lia.
    replace (- (d - 53 + -53 + 53)) with (53 - d) by lia.
    pose proof (Z.div_mod (Zpos (mz * c)) (2 ^ 53) ltac:(lia)) as Hdq.
    pose proof (Z.mod_pos_bound (Zpos (mz * c)) (2 ^ 53) ltac:(lia)) as Hmq.
    change (2 ^ (53 - 1)) with (2 ^ 52) in Hup.
    revert HS HY1 HY2 Hm1 Hup Hdq Hmq. rewrite HP.
    generalize (2 ^ (53 - d)) (Zpos mz * 8106479329266893 / 2 ^ 53)
               (Zpos mz * 8106479329266893 mod 2 ^ 53).
    intros S q rem HS HY1 HY2 Hm1 Hup Hdq Hmq.
    symmetry. apply (Z.div_unique _ _ _ (Zpos m1 - S * N)); [|lia].
    left. destruct (Z.eq_dec (Zpos m1) (q + 1)) as [Heq|Hne].
    + specialize (Hup Heq). lia.
    + lia.
Qed.

End BinaryFloat.

(** The literal [0.9] is nine divided by ten, correctly rounded. *)
Example js_0_9_nearest : SFdiv 53 1024 (number_of_Z 9) (number_of_Z 10) = js_0_9.
Proof. reflexivity. Qed.

(** C7. When the registry has the maximum [raw] for the provider and model
    (a positive token count below [2^49]), the message manager built by
    [createMessageManager] and the one built by the constructor of
    [AnthropicService] get the budget [floor(0.9 * raw)], computed in
    binary64 as the code does, which is the integer part of [9 * raw / 10]
    and lies strictly below [raw]. *)
Theorem budget_below_registry_maximum {M : Type}
    (getMaxTokensForModel getMaxTokens : string → string → option Z)
    (clientManager : M) (provider model : string) (anthropicModel : option string)
    (raw : Z) :
  (0 < raw < 2 ^ 49)%Z →
  getMaxTokensForModel (toLowerCase provider) (toLowerCase model) = Some raw →
  getMaxTokens "anthropic" (anthropic_model anthropicModel) = Some raw →
  maxTokens (createMessageManager getMaxTokensForModel provider model) =
    Some (9 * raw / 10)%Z ∧
  maxTokens (messageManager (new_AnthropicService getMaxTokens clientManager anthropicModel)) =
    Some (9 * raw / 10)%Z ∧
  (9 * raw / 10 < raw)%Z.
Proof.
  intros Hraw Hregistry Hutils. unfold createMessageManager, new_AnthropicService. simpl.
  rewrite Hregistry, Hutils. simpl. rewrite with_margin_spec by done.
  split; [done|]. split; [done|].
  apply Z.div_lt_upper_bound; lia.
Qed.

Lemma budget_below_registry_maximum_witness :
  (0 < 200000 < 2 ^ 49)%Z ∧
  maxTokens (createMessageManager sample_registry "Anthropic" "Claude-3-7-Sonnet-20250219") =
    Some 180000%Z ∧
  maxTokens (messageManager (new_AnthropicService sample_registry () None)) = Some 180000%Z ∧
  (180000 < 200000)%Z.
Proof.
  split; [lia|].
  exact (budget_below_registry_maximum sample_registry sample_registry ()
           "Anthropic" "Claude-3-7-Sonnet-20250219" None 200000
           ltac:(lia) eq_refl eq_refl).
Defined.

(** * Further properties *)

(** ** One connection, from the request to the caches *)

(** For a name that is not registered [connectServer] creates the next
    client object and sends it [connect]. *)
Lemma connectServer_unregistered name config s :
  clients (mgr s) !! name = None →
  connectServer name config s =
    resume_n 4 (AwaitConnect name {| clientId := nextClientId s; server := endpoint config |})
      (emit (EvConnect name (nextClientId s))
         {| mgr := mgr s; nextClientId := S (nextClientId s); trace := trace s |}).
Proof.
  intros Hreg. unfold connectServer, connectServer_start.
  rewrite bool_decide_eq_false_2; [done|]. rewrite Hreg. by intros [? ?].
Qed.

(** For a registered name it returns at once. *)
Lemma connectServer_registered name config s :
  is_Some (clients (mgr s) !! name) →
  connectServer name config s = (Done (Fulfilled ()), s).
Proof.
  intros Hreg. unfold connectServer, connectServer_start.
  by rewrite bool_decide_eq_true_2.
Qed.

Lemma clearClientCache_provider name s :
  confirmationProvider (mgr (clearClientCache name s)) = confirmationProvider (mgr s).
Proof. unfold clearClientCache. by destruct (clients (mgr s) !! name). Qed.

(** [connectServer] never changes the confirmation provider. *)
Lemma connectServer_provider name config s :
  confirmationProvider (mgr (snd (connectServer name config s))) =
  confirmationProvider (mgr s).
Proof.
  unfold connectServer, connectServer_start. case_bool_decide; [done|]. simpl.
  destruct (connect_outcome (endpoint config)) as [[]|?]; [|done]. simpl.
  destruct (getTools_outcome (endpoint config)); simpl.
  - destruct (listPrompts_outcome (endpoint config));
      destruct (listResources_outcome (endpoint config)); simpl;
      by rewrite clearClientCache_provider.
  - by rewrite clearClientCache_provider.
Qed.

(** What a connection that succeeds leaves in [clients], in
    [connectionErrors] and in the tool cache. *)
Lemma connectServer_connected name config s :
  clients (mgr s) !! name = None →
  is_fulfilled (connect_outcome (endpoint config)) = true →
  let client := {| clientId := nextClientId s; server := endpoint config |} in
  let '(t, s') := connectServer name config s in
  t = Done (Fulfilled ()) ∧
  clients (mgr s') = <[name := client]> (clients (mgr s)) ∧
  connectionErrors (mgr s') = delete name (connectionErrors (mgr s)) ∧
  ∀ tools, getTools_outcome (endpoint config) = Fulfilled tools →
    ∀ k, toolToClientMap (mgr s') !! k =
         if bool_decide (is_Some (tools !! k)) then Some client
         else toolToClientMap (mgr s) !! k.
Proof.
  intros Hreg Hok client. rewrite connectServer_unregistered by done.
  fold client. simpl.
  destruct (connect_outcome (endpoint config)) as [[]|e]; [|done]. simpl.
  unfold registerClient. rewrite clearClientCache_absent by done.
  destruct (getTools_outcome (endpoint config)) as [tools|e] eqn:Htools; simpl; [|done].
  assert (Hgoal : ∀ tools0, Fulfilled tools = Fulfilled tools0 → ∀ k,
    set_all (map_to_list tools).*1 client (toolToClientMap (mgr s)) !! k =
    if bool_decide (is_Some (tools0 !! k)) then Some client
    else toolToClientMap (mgr s) !! k).
  { intros tools0 [= <-] k. rewrite set_all_lookup.
    by rewrite (bool_decide_ext _ _ (elem_of_tool_names tools k)). }
  destruct (listPrompts_outcome (endpoint config));
    destruct (listResources_outcome (endpoint config)); simpl;
    (split; [done|split; [done|split; [done|exact Hgoal]]]).
Qed.

(** X1. A [connectServer] for a name that is not registered and whose
    [connect] succeeds fulfils; it registers the client object it created
    under the name, deletes the error recorded for the name, and, when the
    server lists its tools, makes the new client the owner of every tool it
    lists, also of a tool another client owned before.  Every other tool
    keeps its owner. *)
Theorem connectServer_takes_over_tools name config s :
  clients (mgr s) !! name = None →
  is_fulfilled (connect_outcome (endpoint config)) = true →
  let client := {| clientId := nextClientId s; server := endpoint config |} in
  let '(t, s') := connectServer name config s in
  t = Done (Fulfilled ()) ∧
  getClients s' = <[name := client]> (getClients s) ∧
  getFailedConnections s' = delete name (getFailedConnections s) ∧
  nextClientId s' = S (nextClientId s) ∧
  ∀ tools, getTools_outcome (endpoint config) = Fulfilled tools →
    ∀ k, getToolClient k s' =
         if bool_decide (is_Some (tools !! k)) then Some client else getToolClient k s.
Proof.
  intros Hreg Hok client. rewrite connectServer_unregistered by done.
  fold client. unfold getClients, getFailedConnections, getToolClient. simpl.
  destruct (connect_outcome (endpoint config)) as [[]|e]; [|done]. simpl.
  unfold registerClient. rewrite clearClientCache_absent by done.
  destruct (getTools_outcome (endpoint config)) as [tools|e] eqn:Htools; simpl; [|done].
  assert (Hgoal : ∀ tools0, Fulfilled tools = Fulfilled tools0 → ∀ k,
    set_all (map_to_list tools).*1 client (toolToClientMap (mgr s)) !! k =
    if bool_decide (is_Some (tools0 !! k)) then Some client
    else toolToClientMap (mgr s) !! k).
  { intros tools0 [= <-] k. rewrite set_all_lookup.
    by rewrite (bool_decide_ext _ _ (elem_of_tool_names tools k)). }
  destruct (listPrompts_outcome (endpoint config));
    destruct (listResources_outcome (endpoint config)); simpl;
    (split; [done|split; [done|split; [done|split; [done|exact Hgoal]]]]).
Qed.

Lemma connectServer_takes_over_tools_witness :
  clients (mgr fs_connected) !! "notes" = None ∧
  is_fulfilled (connect_outcome (endpoint notes_config)) = true ∧
  let '(t, s') := connectServer "notes" notes_config fs_connected in
  t = Done (Fulfilled ()) ∧
  getClients s' = <["notes" := notes_client]> (getClients fs_connected) ∧
  getFailedConnections s' = delete "notes" (getFailedConnections fs_connected) ∧
  nextClientId s' = S (nextClientId fs_connected) ∧
  ∀ tools, getTools_outcome (endpoint notes_config) = Fulfilled tools →
    ∀ k, getToolClient k s' =
         if bool_decide (is_Some (tools !! k)) then Some notes_client
         else getToolClient k fs_connected.
Proof.
  split; [reflexivity|]. split; [reflexivity|].
  exact (connectServer_takes_over_tools "notes" notes_config fs_connected eq_refl eq_refl).
Defined.

(** X2. When the server accepts the connection and then fails to list its
    tools, [connectServer] still fulfils and the client stays registered,
    but nothing is cached: [updateClientCache] returns early, and the
    prompts and resources of the server are never asked for. *)
Theorem connectServer_without_tools name config s e :
  clients (mgr s) !! name = None →
  is_fulfilled (connect_outcome (endpoint config)) = true →
  getTools_outcome (endpoint config) = Rejected e →
  let '(t, s') := connectServer name config s in
  t = Done (Fulfilled ()) ∧
  registered_as s' name config ∧
  caches (mgr s') = caches (mgr s) ∧
  trace s' = trace s ++ [EvConnect name (nextClientId s); EvGetTools (nextClientId s)].
Proof.
  intros Hreg Hok Htools. rewrite connectServer_unregistered by done. simpl.
  destruct (connect_outcome (endpoint config)) as [[]|?]; [|done]. simpl.
  unfold registerClient. rewrite clearClientCache_absent by done.
  rewrite Htools. simpl. split; [done|]. split.
  { eexists. split; [apply lookup_insert_eq|done]. }
  split; [done|]. by rewrite <- app_assoc.
Qed.

Lemma connectServer_without_tools_witness :
  clients (mgr (initial_State None)) !! "bare" = None ∧
  is_fulfilled (connect_outcome (endpoint toolless_config)) = true ∧
  getTools_outcome (endpoint toolless_config) = Rejected (Error "Method not found") ∧
  let '(t, s') := connectServer "bare" toolless_config (initial_State None) in
  t = Done (Fulfilled ()) ∧
  registered_as s' "bare" toolless_config ∧
  caches (mgr s') = caches (mgr (initial_State None)) ∧
  trace s' = trace (initial_State None) ++ [EvConnect "bare" 0; EvGetTools 0].
Proof.
  split; [reflexivity|]. split; [reflexivity|]. split; [reflexivity|].
  exact (connectServer_without_tools "bare" toolless_config (initial_State None)
           (Error "Method not found") eq_refl eq_refl eq_refl).
Defined.

(** X3. Once the tools are cached, the prompts and the resources are
    listed one after the other, each on its own: a list that arrives makes
    the new client the owner of its entries, a listing that fails leaves
    its cache as it was and does not fail the connection.  [getPrompt] and
    [readResource] then go to the new client for the names it listed. *)
Theorem connectServer_prompts_and_resources name config s tools :
  clients (mgr s) !! name = None →
  is_fulfilled (connect_outcome (endpoint config)) = true →
  getTools_outcome (endpoint config) = Fulfilled tools →
  let client := {| clientId := nextClientId s; server := endpoint config |} in
  let s' := snd (connectServer name config s) in
  (∀ p, getPromptClient p s' =
        match listPrompts_outcome (endpoint config) with
        | Fulfilled prompts =>
            if bool_decide (p ∈ prompts) then Some client else getPromptClient p s
        | Rejected _ => getPromptClient p s
        end) ∧
  (∀ r, getResourceClient r s' =
        match listResources_outcome (endpoint config) with
        | Fulfilled resources =>
            if bool_decide (r ∈ resources) then Some client else getResourceClient r s
        | Rejected _ => getResourceClient r s
        end) ∧
  (∀ client_getPrompt prompts p args,
     listPrompts_outcome (endpoint config) = Fulfilled prompts → p ∈ prompts →
     getPrompt client_getPrompt p args s' = client_getPrompt client p args) ∧
  (∀ client_readResource resources r,
     listResources_outcome (endpoint config) = Fulfilled resources → r ∈ resources →
     readResource client_readResource r s' = client_readResource client r) ∧
  trace s' = trace s ++ [EvConnect name (nextClientId s); EvGetTools (nextClientId s);
                         EvListPrompts (nextClientId s); EvListResources (nextClientId s)].
Proof.
  intros Hreg Hok Htools client s'. subst s'.
  rewrite connectServer_unregistered by done. fold client. simpl.
  destruct (connect_outcome (endpoint config)) as [[]|?]; [|done]. simpl.
  unfold registerClient. rewrite clearClientCache_absent by done.
  rewrite Htools. simpl.
  unfold getPrompt, readResource, getPromptClient, getResourceClient.
  destruct (listPrompts_outcome (endpoint config)) as [prompts|?];
    destruct (listResources_outcome (endpoint config)) as [resources|?]; simpl;
    rewrite <- ?app_assoc; simpl.
  all: split; [intros; by rewrite ?set_all_lookup|].
  all: split; [intros; by rewrite ?set_all_lookup|].
  all: split; [intros ? ? ? ? [= <-] Hin; by rewrite set_all_lookup, bool_decide_eq_true_2|| done|].
  all: split; [intros ? ? ? [= <-] Hin; by rewrite set_all_lookup, bool_decide_eq_true_2|| done|].
  all: done.
Qed.

Lemma connectServer_prompts_and_resources_witness :
  clients (mgr fs_connected) !! "notes" = None ∧
  is_fulfilled (connect_outcome (endpoint notes_config)) = true ∧
  getTools_outcome (endpoint notes_config) = Fulfilled {[ "read" := sample_tool ]} ∧
  let s' := snd (connectServer "notes" notes_config fs_connected) in
  (∀ p, getPromptClient p s' =
        if bool_decide (p ∈ ["summarize"]) then Some notes_client
        else getPromptClient p fs_connected) ∧
  (∀ r, getResourceClient r s' =
        if bool_decide (r ∈ ["file:///notes"]) then Some notes_client
        else getResourceClient r fs_connected) ∧
  (∀ client_getPrompt prompts p args,
     listPrompts_outcome (endpoint notes_config) = Fulfilled prompts → p ∈ prompts →
     getPrompt client_getPrompt p args s' = client_getPrompt notes_client p args) ∧
  (∀ client_readResource resources r,
     listResources_outcome (endpoint notes_config) = Fulfilled resources → r ∈ resources →
     readResource client_readResource r s' = client_readResource notes_client r) ∧
  trace s' = trace fs_connected ++ [EvConnect "notes" 1; EvGetTools 1;
                                    EvListPrompts 1; EvListResources 1].
Proof.
  split; [reflexivity|]. split; [reflexivity|]. split; [reflexivity|].
  exact (connectServer_prompts_and_resources "notes" notes_config fs_connected
           {[ "read" := sample_tool ]} eq_refl eq_refl eq_refl).
Defined.

Lemma connectServer_fulfilled_registered name config s :
  fst (connectServer name config s) = Done (Fulfilled ()) →
  is_Some (clients (mgr (snd (connectServer name config s))) !! name).
Proof.
  destruct (clients (mgr s) !! name) as [c|] eqn:Hreg.
  - rewrite connectServer_registered by (by eexists). simpl. by rewrite Hreg.
  - rewrite connectServer_unregistered by done. simpl.
    destruct (connect_outcome (endpoint config)) as [[]|?]; [|done]. simpl.
    unfold registerClient. rewrite clearClientCache_absent by done.
    intros _.
    destruct (getTools_outcome (endpoint config)); simpl.
    + destruct (listPrompts_outcome (endpoint config));
        destruct (listResources_outcome (endpoint config)); simpl;
        rewrite lookup_insert_eq; by eexists.
    + rewrite lookup_insert_eq; by eexists.
Qed.

(** X4. After a [connectServer] that fulfilled, a second [connectServer]
    for the same name fulfils without doing anything: no client object is
    created, no request is sent, the manager stays as it is, and the
    configuration it was given, the same or another, is not looked at. *)
Theorem connectServer_again_is_a_no_op name config config' s :
  fst (connectServer name config s) = Done (Fulfilled ()) →
  connectServer name config' (snd (connectServer name config s)) =
    (Done (Fulfilled ()), snd (connectServer name config s)).
Proof.
  intros H. apply connectServer_registered. by apply connectServer_fulfilled_registered.
Qed.

Lemma connectServer_again_is_a_no_op_witness :
  fst (connectServer "fs" fs_config (initial_State None)) = Done (Fulfilled ()) ∧
  connectServer "fs" unreachable_fs (snd (connectServer "fs" fs_config (initial_State None))) =
    (Done (Fulfilled ()), snd (connectServer "fs" fs_config (initial_State None))).
Proof.
  split; [reflexivity|].
  exact (connectServer_again_is_a_no_op "fs" fs_config unreachable_fs (initial_State None)
           eq_refl).
Defined.

(** X5. A connection that failed can be tried again.  The failed attempt
    rejects with "Failed to connect to new server", records the cause under
    the name and leaves the name unregistered; a later attempt that
    connects registers its own client object, the next one, and deletes the
    recorded error.  Only under the name [__proto__] the failed attempt
    records nothing, [connectionErrors] being a plain object; the rest
    holds for that name too. *)
Theorem connectServer_retry_clears_error name config config2 s :
  clients (mgr s) !! name = None →
  is_fulfilled (connect_outcome (endpoint config)) = false →
  is_fulfilled (connect_outcome (endpoint config2)) = true →
  let '(t1, s1) := connectServer name config s in
  let '(t2, s2) := connectServer name config2 s1 in
  t1 = Done (Rejected (Error (connect_failure name (failure_cause config)))) ∧
  getFailedConnections s1 !! name =
    recorded name (getFailedConnections s !! name) (failure_cause config) ∧
  (name ≠ "__proto__" → getFailedConnections s1 !! name = Some (failure_cause config)) ∧
  getClients s1 !! name = None ∧
  t2 = Done (Fulfilled ()) ∧
  getFailedConnections s2 !! name = None ∧
  getClients s2 !! name =
    Some {| clientId := S (nextClientId s); server := endpoint config2 |}.
Proof.
  intros Hreg Hfail Hok.
  rewrite (connectServer_unregistered name config s Hreg). simpl.
  unfold failure_cause, getFailedConnections, getClients.
  destruct (connect_outcome (endpoint config)) as [|e]; [done|]. simpl.
  match goal with |- context [connectServer name config2 ?s1] =>
    pose proof (connectServer_connected name config2 s1) as H2;
    destruct (connectServer name config2 s1) as [t2 s2] end.
  simpl in H2. rewrite lookup_delete_eq in H2.
  destruct (H2 eq_refl Hok) as (-> & Hcl & Herr & _).
  rewrite Hcl, Herr, !lookup_insert_eq, !lookup_delete_eq, lookup_assign_eq.
  split; [done|]. split; [done|]. split; [|done].
  intros Hne. destruct (connectionErrors (mgr s) !! name); [done|].
  by rewrite bool_decide_eq_false_2.
Qed.

Lemma connectServer_retry_clears_error_witness :
  clients (mgr (initial_State None)) !! "fs" = None ∧
  is_fulfilled (connect_outcome (endpoint unreachable_fs)) = false ∧
  is_fulfilled (connect_outcome (endpoint fs_config)) = true ∧
  let '(t1, s1) := connectServer "fs" unreachable_fs (initial_State None) in
  let '(t2, s2) := connectServer "fs" fs_config s1 in
  t1 = Done (Rejected (Error "Failed to connect to new server 'fs': ENOENT")) ∧
  getFailedConnections s1 !! "fs" = Some "ENOENT" ∧
  ("fs" ≠ "__proto__" → getFailedConnections s1 !! "fs" = Some "ENOENT") ∧
  getClients s1 !! "fs" = None ∧
  t2 = Done (Fulfilled ()) ∧
  getFailedConnections s2 !! "fs" = None ∧
  getClients s2 !! "fs" = Some {| clientId := 1; server := endpoint fs_config |}.
Proof.
  split; [reflexivity|]. split; [reflexivity|]. split; [reflexivity|].
  exact (connectServer_retry_clears_error "fs" unreachable_fs fs_config (initial_State None)
           eq_refl eq_refl eq_refl).
Defined.

(** X6. [registerClient] under a name that is already registered replaces
    the client: it first drops from the three caches every entry of the
    client registered so far, and no other entry, then registers the new
    client under the name and deletes the error recorded for it. *)
Theorem registerClient_overwrites name client old s :
  clients (mgr s) !! name = Some old →
  let s' := registerClient name client s in
  getClients s' = <[name := client]> (getClients s) ∧
  getFailedConnections s' = delete name (getFailedConnections s) ∧
  caches (mgr s') = purge old <$> caches (mgr s) ∧
  ∀ cacheMap k c, cacheMap ∈ caches (mgr s) →
    (purge old cacheMap !! k = Some c ↔
       cacheMap !! k = Some c ∧ clientId c ≠ clientId old).
Proof.
  intros Hold s'. subst s'. unfold registerClient, clearClientCache. rewrite Hold.
  unfold getClients, getFailedConnections.
  simpl. split; [done|]. split; [done|]. split; [done|].
  intros cacheMap k c _. apply purge_lookup.
Qed.

Lemma registerClient_overwrites_witness :
  clients (mgr fs_connected) !! "fs" = Some fs_client ∧
  let s' := registerClient "fs" notes_client fs_connected in
  getClients s' = <["fs" := notes_client]> (getClients fs_connected) ∧
  getFailedConnections s' = delete "fs" (getFailedConnections fs_connected) ∧
  caches (mgr s') = purge fs_client <$> caches (mgr fs_connected) ∧
  ∀ cacheMap k c, cacheMap ∈ caches (mgr fs_connected) →
    (purge fs_client cacheMap !! k = Some c ↔
       cacheMap !! k = Some c ∧ clientId c ≠ clientId fs_client).
Proof.
  split; [reflexivity|].
  exact (registerClient_overwrites "fs" notes_client fs_client fs_connected eq_refl).
Defined.

(** ** Removing clients *)

(** X7. [removeClient] always fulfils, also when [disconnect] rejects.  It
    unregisters the name and no other, sends [disconnect] to the client of
    the name once if there is one with that method, and deletes the error
    recorded for the name unless that error is the empty string.  The three
    caches are left as they were, and no client object is created. *)
Theorem removeClient_effects name s :
  let '(r, s') := removeClient name s in
  r = Fulfilled () ∧
  getClients s' = delete name (getClients s) ∧
  caches (mgr s') = caches (mgr s) ∧
  getFailedConnections s' =
    (if bool_decide (getFailedConnections s !! name = Some "")
     then getFailedConnections s else delete name (getFailedConnections s)) ∧
  trace s' = trace s ++ disconnect_events (getClients s !! name) ∧
  nextClientId s' = nextClientId s.
Proof.
  unfold removeClient, disconnect_events, getClients, getFailedConnections.
  assert (Herr : ∀ (errs : gmap string string),
    match errs !! name with
    | Some e => if truthy e then delete name errs else errs
    | None => errs
    end = if bool_decide (errs !! name = Some "") then errs else delete name errs).
  { intros errs. destruct (errs !! name) as [e|] eqn:He.
    - unfold truthy. case_bool_decide as Hb.
      + inversion Hb; subst. done.
      + destruct (String.eqb_spec e "") as [->|Hne]; [done|]. done.
    - case_bool_decide; [done|]. symmetry. by apply delete_id. }
  destruct (clients (mgr s) !! name) as [client|] eqn:Hc.
  - rewrite clearClientCache_absent by (simpl; apply lookup_delete_eq).
    rewrite <- Herr.
    destruct (disconnect_outcome (server client)); simpl;
      (destruct (connectionErrors (mgr s) !! name) as [e|]; [destruct (truthy e)|]);
      simpl; rewrite ?app_nil_r; done.
  - rewrite <- Herr. rewrite app_nil_r.
    destruct (connectionErrors (mgr s) !! name) as [e|]; [destruct (truthy e)|];
      simpl; rewrite delete_id by done; done.
Qed.

Lemma disconnectAll_trace (l : list (string * IMCPClient)) s :
  let s1 := foldr (uncurry (λ (_ : string) client acc,
                match disconnect_outcome (server client) with
                | Some _ => emit (EvDisconnect (clientId client)) acc
                | None => acc
                end)) s l in
  mgr s1 = mgr s ∧ nextClientId s1 = nextClientId s ∧
  trace s1 = trace s ++ reverse (l ≫= λ kc, disconnect_events (Some (snd kc))).
Proof.
  induction l as [|[k c] l IH]; simpl.
  - by rewrite app_nil_r.
  - destruct IH as (Hm & Hn & Ht).
    destruct (disconnect_outcome (server c)); simpl.
    + rewrite Ht. rewrite reverse_cons, app_assoc. done.
    + done.
Qed.

(** X8. [disconnectAll] always fulfils and leaves the manager as a new one
    with the same confirmation provider: no client, no recorded error,
    empty caches.  Every registered client that has a [disconnect] method
    was sent [disconnect] once, and nothing else was sent.  Afterwards
    [getAllTools] returns no tool without asking any server, and a second
    [disconnectAll] does nothing. *)
Theorem disconnectAll_resets s :
  let '(r, s') := disconnectAll s in
  r = Fulfilled () ∧
  mgr s' = new_MCPManager (Some (confirmationProvider (mgr s))) ∧
  (∃ new, trace s' = trace s ++ new ∧
          new ≡ₚ map_to_list (getClients s) ≫= λ kc, disconnect_events (Some (snd kc))) ∧
  getAllTools s' = (Fulfilled ∅, s') ∧
  disconnectAll s' = (Fulfilled (), s').
Proof.
  unfold disconnectAll, getClients. rewrite map_fold_foldr.
  destruct (disconnectAll_trace (map_to_list (clients (mgr s))) s) as (Hm & Hn & Ht).
  simpl in *. split; [done|]. split.
  { unfold new_MCPManager, with_mgr. simpl. by rewrite Hm. }
  split.
  { eexists. split; [exact Ht|]. apply reverse_Permutation. }
  split.
  - unfold getAllTools. simpl. by rewrite map_fold_empty.
  - simpl. rewrite map_fold_empty. done.
Qed.

(** ** Tools, from the cache to the servers *)

(** X9. The tools of a server are executable as soon as [connectServer]
    has returned: for a tool the server lists and a gate that approves,
    [executeTool] asks the gate once and then calls the tool on the client
    that was just registered, whichever client owned a tool of that name
    before, and settles as that server answers. *)
Theorem connected_tool_is_executable deniedMessage name config s tools t args sessionId :
  clients (mgr s) !! name = None →
  is_fulfilled (connect_outcome (endpoint config)) = true →
  getTools_outcome (endpoint config) = Fulfilled tools →
  is_Some (tools !! t) →
  let details := {| td_toolName := t; td_args := args;
                    td_sessionId := sessionId_field sessionId |} in
  requestConfirmation (confirmationProvider (mgr s)) details = Fulfilled true →
  let s1 := snd (connectServer name config s) in
  let '(r, s2) := executeTool deniedMessage t args sessionId s1 in
  r = callTool_outcome (endpoint config) t args ∧
  trace s2 = trace s1 ++ [EvRequestConfirmation details;
                          EvCallTool (nextClientId s) t args] ∧
  mgr s2 = mgr s1.
Proof.
  intros Hreg Hok Htools Ht details Happ s1. subst s1.
  pose proof (connectServer_connected name config s Hreg Hok) as H.
  pose proof (connectServer_provider name config s) as Hprov.
  destruct (connectServer name config s) as [t1 s1]. simpl in *.
  destruct H as (_ & _ & _ & Hown). specialize (Hown tools Htools t).
  rewrite bool_decide_eq_true_2 in Hown by done.
  unfold executeTool, getToolClient. rewrite Hown. fold details. rewrite Hprov, Happ. simpl.
  by rewrite <- app_assoc.
Qed.

Lemma connected_tool_is_executable_witness :
  clients (mgr fs_connected) !! "notes" = None ∧
  is_fulfilled (connect_outcome (endpoint notes_config)) = true ∧
  getTools_outcome (endpoint notes_config) = Fulfilled {[ "read" := sample_tool ]} ∧
  is_Some (({[ "read" := sample_tool ]} : ToolSet) !! "read") ∧
  let details := {| td_toolName := "read"; td_args := JNull; td_sessionId := None |} in
  requestConfirmation (confirmationProvider (mgr fs_connected)) details = Fulfilled true ∧
  let s1 := snd (connectServer "notes" notes_config fs_connected) in
  let '(r, s2) := executeTool sample_deniedMessage "read" JNull None s1 in
  r = callTool_outcome (endpoint notes_config) "read" JNull ∧
  trace s2 = trace s1 ++ [EvRequestConfirmation details; EvCallTool 1 "read" JNull] ∧
  mgr s2 = mgr s1.
Proof.
  assert (Hsome : is_Some (({[ "read" := sample_tool ]} : ToolSet) !! "read"))
    by (exists sample_tool; reflexivity).
  split; [reflexivity|]. split; [reflexivity|]. split; [reflexivity|].
  split; [exact Hsome|]. split; [reflexivity|].
  exact (connected_tool_is_executable sample_deniedMessage "notes" notes_config fs_connected
           {[ "read" := sample_tool ]} "read" JNull None
           eq_refl eq_refl eq_refl Hsome eq_refl).
Defined.

(** X10. [getAllTools] leaves the manager as it is and asks for the tools
    once per entry of the tool cache, not once per server: a server that
    owns n tools is asked n times.  It fulfils when every owner in the
    cache answers, and rejects with the error of an owner that does
    not. *)
Theorem getAllTools_asks_per_tool s :
  let '(r, s') := getAllTools s in
  mgr s' = mgr s ∧
  match r with
  | Fulfilled _ =>
      (∃ new, trace s' = trace s ++ new ∧
         new ≡ₚ (λ kc, EvGetTools (clientId (snd kc))) <$>
                  map_to_list (toolToClientMap (mgr s))) ∧
      ∀ k c, toolToClientMap (mgr s) !! k = Some c →
        is_fulfilled (getTools_outcome (server c)) = true
  | Rejected e =>
      ∃ k c, toolToClientMap (mgr s) !! k = Some c ∧
             getTools_outcome (server c) = Rejected e
  end.
Proof.
  pose proof (getAllTools_mgr s) as Hmgr. unfold getAllTools in *.
  rewrite map_fold_foldr in *.
  pose proof (getAllTools_visit_trace (map_to_list (toolToClientMap (mgr s))) s) as H.
  destruct (foldr _ _ _) as [[tools|e] s']; simpl in *; (split; [done|]).
  - destruct H as [Ht Hall]. split.
    + eexists. split; [exact Ht|]. apply reverse_Permutation.
    + intros k c Hk. rewrite Forall_forall in Hall.
      apply (Hall (k, c)). by apply elem_of_map_to_list.
  - destruct H as (k & c & Hin & Hout). exists k, c. split; [|done].
    by apply elem_of_map_to_list.
Qed.

(** ** [initializeFromConfig]: requests and registrations *)

Lemma init_loop_trace (configs : ServerConfigs) : ∀ fr s,
  let '(fr', s') := foldl init_visit (fr, s) configs in
  mgr s' = mgr s ∧
  trace s' = trace s ++ connect_events (clients (mgr s)) (nextClientId s) configs.
Proof.
  induction configs as [|[name config] configs IH]; intros fr s; simpl.
  - by rewrite app_nil_r.
  - unfold connectServer_start. case_bool_decide as Hreg.
    + apply IH.
    + simpl.
      match goal with |- context [foldl init_visit (?f, ?s1) configs] =>
        specialize (IH f s1); destruct (foldl init_visit (f, s1) configs) as [fr' s'] end.
      simpl in IH. destruct IH as [Hm Ht]. split; [done|].
      rewrite Ht, <- app_assoc. done.
Qed.

(** A segment of a connection sends no [connect]. *)
Lemma connectServer_resume_trace t s :
  ∃ new, trace (snd (connectServer_resume t s)) = trace s ++ new ∧
         Forall (λ e, is_connect e = false) new.
Proof.
  destruct t as [n c|n c|n c|n c|r]; simpl.
  - destruct (connect_outcome (server c)); simpl.
    + exists [EvGetTools (clientId c)]. split; [|by repeat constructor].
      unfold clearClientCache. by destruct (clients (mgr s) !! n).
    + exists []. by rewrite app_nil_r.
  - destruct (getTools_outcome (server c)); simpl.
    + exists [EvListPrompts (clientId c)]. split; [done|]. by repeat constructor.
    + exists []. by rewrite app_nil_r.
  - exists [EvListResources (clientId c)]. split; [|by repeat constructor].
    by destruct (listPrompts_outcome (server c)).
  - exists []. rewrite app_nil_r. split; [|done].
    by destruct (listResources_outcome (server c)).
  - exists []. by rewrite app_nil_r.
Qed.

Lemma promise_step_trace acc i :
  ∃ new, trace (snd (promise_step acc i)) = trace (snd acc) ++ new ∧
         Forall (λ e, is_connect e = false) new.
Proof.
  destruct acc as [fr s]. unfold promise_step.
  assert (Hsame : ∃ new, trace s = trace s ++ new ∧ Forall (λ e, is_connect e = false) new).
  { exists []. by rewrite app_nil_r. }
  destruct (connectionPromises fr !! i) as [[name [[n c|n c|n c|n c|[u|e]]|]]|];
    try done.
  all: match goal with |- context [connectServer_resume ?t ?s] =>
         pose proof (connectServer_resume_trace t s) as Hres;
         destruct (connectServer_resume t s) as [t' s'] end; done.
Qed.

Lemma run_trace sched : ∀ acc,
  ∃ new, trace (snd (foldl promise_step acc sched)) = trace (snd acc) ++ new ∧
         Forall (λ e, is_connect e = false) new.
Proof.
  induction sched as [|i sched IH]; intros acc; simpl.
  - exists []. by rewrite app_nil_r.
  - destruct (promise_step_trace acc i) as (n1 & H1 & F1).
    destruct (IH (promise_step acc i)) as (n2 & H2 & F2).
    exists (n1 ++ n2). split; [by rewrite H2, H1, app_assoc|]. by apply Forall_app.
Qed.

(** X11. [initializeFromConfig] starts every connection before it waits
    for any of them: whatever the order in which the connections then
    proceed, the requests it sends begin with one [connect] for each server
    whose name is not registered, in the order of the configuration and to
    client objects numbered consecutively, and no [connect] is sent after
    these. *)
Theorem initializeFromConfig_connects_first sched (configs : ServerConfigs) s :
  let s' := snd (initializeFromConfig sched configs s) in
  ∃ rest,
    trace s' = trace s ++
      connect_events (clients (mgr s)) (nextClientId s) configs ++ rest ∧
    Forall (λ e, is_connect e = false) rest.
Proof.
  unfold initializeFromConfig. case_bool_decide as Hempty.
  { destruct configs; [|done]. exists []. simpl. by rewrite app_nil_r. }
  pose proof (init_loop_trace configs empty_frame s) as Hloop.
  unfold await_all.
  destruct (foldl init_visit (empty_frame, s) configs) as [fr0 s0].
  destruct Hloop as [_ Ht0].
  pose proof (run_trace (sched ++ drain (length (connectionPromises (fst (fr0, s0))))) (fr0, s0))
    as (rest & Ht & Hrest).
  destruct (foldl promise_step (fr0, s0) _) as [fr s'].
  simpl in *. exists rest. split; [|done].
  rewrite app_assoc, <- Ht0, <- Ht.
  by destruct (bool_decide _).
Qed.

Lemma clearClientCache_registrations name s :
  clients (mgr (clearClientCache name s)) = clients (mgr s) ∧
  connectionErrors (mgr (clearClientCache name s)) = connectionErrors (mgr s).
Proof. unfold clearClientCache. by destruct (clients (mgr s) !! name). Qed.

Lemma connectServer_resume_registrations cl0 t s k0 :
  task_name t = Some k0 → cl0 !! k0 = None →
  same_registrations cl0 s (snd (connectServer_resume t s)) ∧
  (∀ k, task_name (fst (connectServer_resume t s)) = Some k → k = k0).
Proof.
  intros Hname Hk0.
  assert (Hne : ∀ k, is_Some (cl0 !! k) → k ≠ k0).
  { intros k [c Hc] ->. congruence. }
  destruct t as [n c|n c|n c|n c|r]; simpl in Hname; inversion Hname; subst n.
  2-4: simpl.
  - cbn [connectServer_resume]. destruct (connect_outcome (server c)); cbn [fst snd].
    + split; [|by intros ? [= <-]]. intros k Hk. specialize (Hne k Hk).
      unfold registerClient, clearClientCache.
      destruct (clients (mgr s) !! k0); simpl;
        by rewrite lookup_insert_ne, lookup_delete_ne.
    + split; [|done]. intros k Hk. specialize (Hne k Hk). simpl.
      by rewrite lookup_delete_ne, lookup_assign_ne.
  - destruct (getTools_outcome (server c)); simpl; (split; [done|]); [by intros ? [= <-]|done].
  - split; [|by intros ? [= <-]]. by destruct (listPrompts_outcome (server c)).
  - split; [|done]. by destruct (listResources_outcome (server c)).
Qed.

Lemma same_registrations_trans cl0 s1 s2 s3 :
  same_registrations cl0 s1 s2 → same_registrations cl0 s2 s3 →
  same_registrations cl0 s1 s3.
Proof.
  intros H1 H2 k Hk. destruct (H1 k Hk) as [<- <-]. by apply H2.
Qed.

Lemma promise_step_registrations cl0 acc i :
  fresh_tasks cl0 (fst acc) →
  fresh_tasks cl0 (fst (promise_step acc i)) ∧
  same_registrations cl0 (snd acc) (snd (promise_step acc i)).
Proof.
  destruct acc as [fr s]. intros Hfresh. unfold promise_step.
  assert (Hsame : same_registrations cl0 s s) by (by intros ??).
  destruct (connectionPromises fr !! i) as [[name p]|] eqn:Hi; [|done].
  assert (Hset : ∀ succ' q,
    (∀ t k, q = Pending t → task_name t = Some k → cl0 !! k = None) →
    fresh_tasks cl0 {| successfulConnections := succ'; strictServers := strictServers fr;
                       lenientServers := lenientServers fr;
                       connectionPromises := <[i := (name, q)]> (connectionPromises fr) |}).
  { intros succ' q Hq j n t k Hj Hk. simpl in Hj.
    destruct (decide (j = i)) as [->|Hne].
    - rewrite list_lookup_insert_eq in Hj by (by eapply lookup_lt_Some).
      inversion Hj; subst. by eapply Hq.
    - rewrite list_lookup_insert_ne in Hj by done. by eapply Hfresh. }
  destruct p as [t|]; [|done].
  destruct t as [n c|n c|n c|n c|[u|e]].
  5,6: by (split; [apply Hset|]).
  all: match goal with |- context [connectServer_resume ?t ?s] =>
         assert (Hk0 : cl0 !! n = None) by (by eapply (Hfresh i name t n));
         destruct (connectServer_resume_registrations cl0 t s n eq_refl Hk0)
           as [Hreg Hnm];
         destruct (connectServer_resume t s) as [t' s'] end.
  all: simpl in *; split; [|done].
  all: apply Hset; intros t0 k [= <-] Hk; by rewrite (Hnm k Hk).
Qed.

Lemma run_registrations cl0 sched : ∀ acc,
  fresh_tasks cl0 (fst acc) →
  same_registrations cl0 (snd acc) (snd (foldl promise_step acc sched)).
Proof.
  induction sched as [|i sched IH]; intros acc Hfresh; simpl; [by intros ??|].
  destruct (promise_step_registrations cl0 acc i Hfresh) as [H1 H2].
  eapply same_registrations_trans; [exact H2|by apply IH].
Qed.

Lemma init_loop_fresh (configs : ServerConfigs) : ∀ fr s,
  fresh_tasks (clients (mgr s)) fr →
  fresh_tasks (clients (mgr s)) (fst (foldl init_visit (fr, s) configs)).
Proof.
  induction configs as [|[name config] configs IH]; intros fr s Hfresh; simpl; [done|].
  destruct (connectServer_start name config s) as [t s1] eqn:Hstart.
  assert (Hmgr : mgr s1 = mgr s).
  { by rewrite <- (connectServer_start_mgr name config s), Hstart. }
  rewrite <- Hmgr. apply IH. rewrite Hmgr.
  intros i n t0 k Hi Hk. simpl in Hi.
  apply lookup_app_Some in Hi as [Hi|[_ Hi]]; [by eapply Hfresh|].
  apply list_lookup_singleton_Some in Hi as [_ Hi]. inversion Hi; subst.
  unfold connectServer_start in Hstart. case_bool_decide as Hreg.
  - by inversion Hstart; subst.
  - inversion Hstart; subst. simpl in Hk. inversion Hk; subst.
    by apply eq_None_not_Some.
Qed.

(** X12. [initializeFromConfig] leaves what was registered alone: a name
    that is registered when it is called has the same client and the same
    recorded error when it returns, whether the configuration names it or
    not, in whatever order the connections proceed, and whether the call
    fulfils or rejects. *)
Theorem initializeFromConfig_keeps_registered sched (configs : ServerConfigs) s k :
  is_Some (clients (mgr s) !! k) →
  let s' := snd (initializeFromConfig sched configs s) in
  getClients s' !! k = getClients s !! k ∧
  getFailedConnections s' !! k = getFailedConnections s !! k.
Proof.
  intros Hk. unfold initializeFromConfig, getClients, getFailedConnections.
  case_bool_decide as Hempty; [done|].
  pose proof (init_loop_fresh configs empty_frame s) as Hfresh.
  pose proof (init_loop_trace configs empty_frame s) as Hloop.
  unfold await_all.
  destruct (foldl init_visit (empty_frame, s) configs) as [fr0 s0].
  destruct Hloop as [Hm0 _]. simpl in Hfresh.
  pose proof (run_registrations (clients (mgr s))
                (sched ++ drain (length (connectionPromises (fst (fr0, s0))))) (fr0, s0)) as Hrun.
  destruct (foldl promise_step (fr0, s0) _) as [fr s'].
  simpl in *. rewrite <- Hm0.
  assert (Hgoal : clients (mgr s') !! k = clients (mgr s0) !! k ∧
                  connectionErrors (mgr s') !! k = connectionErrors (mgr s0) !! k).
  { apply Hrun; [|done]. apply Hfresh. intros i n t k0 Hi. simpl in Hi.
    by rewrite lookup_nil in Hi. }
  by destruct (bool_decide _).
Qed.

Lemma fs_connected_registered : is_Some (clients (mgr fs_connected) !! "fs").
Proof. exists fs_client. reflexivity. Defined.

Lemma initializeFromConfig_keeps_registered_witness :
  is_Some (clients (mgr fs_connected) !! "fs") ∧
  let s' := snd (initializeFromConfig [1; 0] abort_configs fs_connected) in
  getClients s' !! "fs" = getClients fs_connected !! "fs" ∧
  getFailedConnections s' !! "fs" = getFailedConnections fs_connected !! "fs".
Proof.
  split; [exact fs_connected_registered|].
  exact (initializeFromConfig_keeps_registered [1; 0] abort_configs fs_connected "fs"
           fs_connected_registered).
Defined.

Lemma init_loop_registered (configs : ServerConfigs) : ∀ fr s,
  (∀ name config, (name, config) ∈ configs → is_Some (clients (mgr s) !! name)) →
  returned_at_once fr →
  ∃ fr', foldl init_visit (fr, s) configs = (fr', s) ∧ returned_at_once fr'.
Proof.
  induction configs as [|[name config] configs IH]; intros fr s Hall Hfr; simpl.
  - by exists fr.
  - unfold connectServer_start. rewrite bool_decide_eq_true_2 by (eapply Hall; left).
    apply IH; [intros n c Hin; eapply Hall; by right|].
    destruct Hfr as [Hp Hs]. split; simpl.
    + intros i n p Hi. apply lookup_app_Some in Hi as [Hi|[_ Hi]]; [by eapply Hp|].
      apply list_lookup_singleton_Some in Hi as [_ Hi]. inversion Hi; subst. by left.
    + intros n Hn. rewrite fmap_app, elem_of_app. simpl.
      case_bool_decide.
      * apply elem_of_app in Hn as [Hn|Hn]; [left; by apply Hs|right].
        by apply list_elem_of_singleton in Hn as ->; left.
      * left. by apply Hs.
Qed.

Lemma promise_step_returned acc i :
  returned_at_once (fst acc) →
  returned_at_once (fst (promise_step acc i)) ∧ snd (promise_step acc i) = snd acc.
Proof.
  destruct acc as [fr s]. intros [Hp Hs]. simpl in Hp, Hs. unfold promise_step.
  destruct (connectionPromises fr !! i) as [[name p]|] eqn:Hi; [|done].
  destruct (Hp _ _ _ Hi) as [->|[-> Hin]]; [|done].
  split; [|done]. split; simpl.
  - intros j n p Hj. destruct (decide (j = i)) as [->|Hne].
    + rewrite list_lookup_insert_eq in Hj by (by eapply lookup_lt_Some).
      inversion Hj; subst. right. split; [done|]. apply elem_of_app. right. by left.
    + rewrite list_lookup_insert_ne in Hj by done.
      destruct (Hp _ _ _ Hj) as [->|[-> Hin]]; [by left|right].
      split; [done|]. apply elem_of_app. by left.
  - intros n Hn. specialize (Hs n Hn).
    apply list_elem_of_fmap in Hs as ([n' p'] & -> & Hin). simpl.
    apply list_elem_of_lookup in Hin as [j Hj].
    destruct (decide (j = i)) as [->|Hne].
    + simpl in Hj. rewrite Hi in Hj. inversion Hj; subst.
      apply list_elem_of_fmap. exists (n', Finished). split; [done|].
      apply list_elem_of_lookup. exists i.
      apply list_lookup_insert_eq. by eapply lookup_lt_Some.
    + apply list_elem_of_fmap. exists (n', p'). split; [done|].
      apply list_elem_of_lookup. exists j. by rewrite list_lookup_insert_ne.
Qed.

Lemma run_returned sched : ∀ acc,
  returned_at_once (fst acc) →
  returned_at_once (fst (foldl promise_step acc sched)) ∧
  snd (foldl promise_step acc sched) = snd acc.
Proof.
  induction sched as [|i sched IH]; intros acc Hacc; simpl; [done|].
  destruct (promise_step_returned acc i Hacc) as [H1 H2].
  destruct (IH _ H1) as [H3 H4]. split; [done|]. congruence.
Qed.

(** X13. When every server of the configuration is already registered,
    [initializeFromConfig] fulfils and changes nothing: no client object is
    created, no request is sent, and the clients, the recorded errors and
    the caches stay as they are.  This holds for strict servers too, and
    whatever their configuration now says. *)
Theorem initializeFromConfig_all_registered sched (configs : ServerConfigs) s :
  (∀ name config, (name, config) ∈ configs → is_Some (clients (mgr s) !! name)) →
  initializeFromConfig sched configs s = (Fulfilled (), s).
Proof.
  intros Hall. unfold initializeFromConfig. case_bool_decide as Hempty; [done|].
  destruct (init_loop_registered configs empty_frame s Hall) as (fr0 & -> & Hfr0).
  { split; [|by intros ? ?%elem_of_nil]. intros i n p Hi. simpl in Hi.
    by rewrite lookup_nil in Hi. }
  pose proof (await_all_finished sched (fr0, s)) as Hfin.
  unfold await_all in *.
  destruct (run_returned (sched ++ drain (length (connectionPromises (fst (fr0, s)))))
              (fr0, s) Hfr0) as [[Hp Hs] Hsame].
  destruct (foldl promise_step (fr0, s) _) as [fr s']. simpl in *. subst s'.
  rewrite bool_decide_eq_false_2; [done|].
  assert (Hnil : filter (λ name, name ∉ successfulConnections fr) (strictServers fr) = []).
  { induction (strictServers fr) as [|n l IH]; [done|].
    rewrite filter_cons. rewrite decide_False.
    - apply IH. intros n' Hn'. apply Hs. by right.
    - intros Hn. apply Hn.
      assert (Hin : n ∈ (connectionPromises fr).*1) by (apply Hs; by left).
      apply list_elem_of_fmap in Hin as ([n' p] & -> & Hin).
      apply list_elem_of_lookup in Hin as [j Hj].
      pose proof (Hfin _ _ _ Hj) as ->.
      destruct (Hp _ _ _ Hj) as [?|[_ ?]]; done. }
  rewrite Hnil. simpl. lia.
Qed.

Lemma fs_only_registered name config :
  (name, config) ∈ [("fs", unreachable_fs)] → is_Some (clients (mgr fs_connected) !! name).
Proof.
  intros Hin. apply list_elem_of_singleton in Hin. inversion Hin; subst.
  exact fs_connected_registered.
Defined.

Lemma initializeFromConfig_all_registered_witness :
  (∀ name config, (name, config) ∈ [("fs", unreachable_fs)] →
     is_Some (clients (mgr fs_connected) !! name)) ∧
  initializeFromConfig [0; 0] [("fs", unreachable_fs)] fs_connected =
    (Fulfilled (), fs_connected).
Proof.
  split; [exact fs_only_registered|].
  exact (initializeFromConfig_all_registered [0; 0] [("fs", unreachable_fs)] fs_connected
           fs_only_registered).
Defined.

(** ** [completeTask]: events and conversation *)

Lemma balanced_app l1 l2 : balanced l1 → balanced l2 → balanced (l1 ++ l2).
Proof.
  induction 1; intros H2; simpl; [done|constructor; auto..|].
  rewrite <- app_assoc. constructor; auto.
Qed.

Lemma append_cons c s1 s2 : String c s1 +:+ s2 = String c (s1 +:+ s2).
Proof. reflexivity. Qed.

Lemma append_nil_r s : s +:+ "" = s.
Proof. induction s as [|c s IH]; [done|]. by rewrite append_cons, IH. Qed.

Lemma append_assoc s1 s2 s3 : (s1 +:+ s2) +:+ s3 = s1 +:+ (s2 +:+ s3).
Proof.
  induction s1 as [|c s1 IH]; [done|]. by rewrite !append_cons, IH.
Qed.

Lemma append_length s1 s2 :
  String.length (s1 +:+ s2) = String.length s1 + String.length s2.
Proof.
  induction s1 as [|c s1 IH]; [done|]. rewrite append_cons. simpl. by rewrite IH.
Qed.

Lemma errorMessage_as_Error error : errorMessage (as_Error error) = errorMessage error.
Proof. by destruct error. Qed.

Lemma as_Error_is_Error error value : as_Error error ≠ NonError value.
Proof. by destruct error. Qed.

Section AnthropicProtocol.

Context {M : Type}.
Variable getAll : M → Settled ToolSet * M.
Variable exec : string → Json → M → Settled Json * M.
Variable create : list InternalMessage → ToolSet → Settled (list ContentBlock).

(** The events that go with the tool messages of a pass, followed by the
    rest of the conversation. *)
Lemma conversation_events_tools uses : ∀ u (m : M) rest,
  conversation_events (formattedToolCalls (u :: uses))
    (tool_messages exec (u :: uses) m ++ rest) =
  tool_events exec (u :: uses) m ++ Thinking :: conversation_events [] rest.
Proof.
  induction uses as [|u' uses IH]; intros [[id name] args] m rest.
  - cbn [tool_messages tool_events formattedToolCalls fmap list_fmap].
    destruct (exec name args m) as [outcome m']. by destruct outcome.
  - specialize (IH u'). destruct u' as [[id' name'] args'].
    cbn [tool_messages tool_events] in IH |- *.
    destruct (exec name args m) as [outcome m'].
    specialize (IH m' rest).
    unfold formattedToolCalls in IH |- *. rewrite !fmap_cons in IH |- *.
    cbn [conversation_events app tc_name tc_arguments].
    rewrite fmap_cons. cbn [app]. unfold tool_payload at 1. f_equal. f_equal.
    exact IH.
Qed.

Lemma formattedToolCalls_answers uses results :
  Forall2 answers uses results → Forall2 answers_call (formattedToolCalls uses) results.
Proof.
  induction 1 as [|[[id name] args] msg uses results Hans _ IH]; [constructor|].
  unfold formattedToolCalls. rewrite fmap_cons. constructor; [|exact IH].
  destruct Hans as [payload ->]. by exists payload.
Qed.

(** One pass appends messages in which every tool call is answered. *)
Lemma iteration_balanced tools fullResponse (sv : Service) :
  match iteration exec create tools fullResponse sv with
  | Return _ sv' | Continue _ sv' =>
      ∃ added, history (messageManager sv') = history (messageManager sv) ++ added ∧
               balanced added
  end.
Proof.
  unfold iteration.
  destruct (create _ _) as [content|error].
  2: { exists []. rewrite app_nil_r. split; [done|constructor]. }
  destruct (toolUses content) as [|u uses] eqn:Huses.
  - eexists [_]. split; [done|]. repeat constructor.
  - match goal with |- context [foldl (handleToolUse exec) ?sv2 (u :: uses)] =>
      destruct (handleToolUses_spec exec (u :: uses) sv2) as (results & Hh & Hall & _) end.
    eexists (_ :: results). split.
    + simpl in *. rewrite Hh, <- app_assoc. done.
    + rewrite <- (app_nil_r results). constructor; [|constructor].
      by apply (formattedToolCalls_answers (u :: uses)).
Qed.

Lemma toolLoop_balanced tools : ∀ fuel iterationCount fullResponse (sv : Service) text sv',
  toolLoop exec create fuel tools iterationCount fullResponse sv = Some (text, sv') →
  (balanced (history (messageManager sv)) →
     balanced (history (messageManager sv')) ∧
     ∃ new, requests sv' = requests sv ++ new ∧ Forall balanced new) ∧
  ∃ added, history (messageManager sv') = history (messageManager sv) ++ added.
Proof.
  induction fuel as [|fuel IH]; intros iterationCount fullResponse sv text sv' Hrun; [done|].
  simpl in Hrun. case_bool_decide as Hguard.
  2: { inversion Hrun; subst; clear Hrun. split.
       - intros Hb. split; [done|]. exists []. by rewrite app_nil_r.
       - exists []. by rewrite app_nil_r. }
  pose proof (iteration_balanced tools fullResponse sv) as Hit.
  pose proof (iteration_requests exec create tools fullResponse sv) as Hreq.
  destruct (iteration exec create tools fullResponse sv) as [result sv1|fullResponse1 sv1].
  - inversion Hrun; subst; clear Hrun.
    destruct Hit as (added & Hh & Hadded).
    split.
    + intros Hb. split; [rewrite Hh; by apply balanced_app|].
      eexists [_]. split; [exact Hreq|]. by repeat constructor.
    + by exists added.
  - destruct Hit as (added & Hh & Hadded).
    destruct (IH _ _ _ _ _ Hrun) as (Hbal & (added' & Hh')).
    split.
    + intros Hb. destruct Hbal as (Hb' & new & Hnew & Hall).
      { rewrite Hh. by apply balanced_app. }
      split; [done|]. exists (history (messageManager sv) :: new).
      split; [by rewrite Hnew, Hreq, <- app_assoc|]. by constructor.
    + exists (added ++ added'). by rewrite Hh', Hh, app_assoc.
Qed.

(** The tool messages of a pass add nothing to the text of the assistant
    and are no answer. *)
Lemma response_text_tools uses : ∀ (m : M) rest,
  response_text (tool_messages exec uses m ++ rest) = response_text rest ∧
  answered (tool_messages exec uses m ++ rest) = answered rest.
Proof.
  induction uses as [|[[id name] args] uses IH]; intros m rest; [done|].
  cbn [tool_messages]. destruct (exec name args m) as [outcome m'].
  rewrite <- app_comm_cons. cbn [response_text answered]. apply IH.
Qed.

(** The events of the loop and the text it returns, read off the messages
    it appends. *)
Lemma toolLoop_events tools : ∀ fuel iterationCount fullResponse (sv : Service) text sv',
  toolLoop exec create fuel tools iterationCount fullResponse sv = Some (text, sv') →
  ∃ added final,
    history (messageManager sv') = history (messageManager sv) ++ added ∧
    emitted sv' = emitted sv ++ conversation_events [] added ++ [final] ∧
    match final with
    | ResponseEvent full =>
        full = fullResponse +:+ response_text added ∧
        text = if answered added || truthy full then full
               else "Reached maximum number of tool call iterations without a final response."
    | ErrorEvent error =>
        text = "Error processing request: " +:+ errorMessage error ∧
        ∀ value, error ≠ NonError value
    | _ => False
    end.
Proof.
  induction fuel as [|fuel IH]; intros iterationCount fullResponse sv text sv' Hrun; [done|].
  cbn [toolLoop] in Hrun. case_bool_decide as Hguard.
  2: { inversion Hrun; subst; clear Hrun.
       exists [], (ResponseEvent fullResponse). rewrite app_nil_r.
       split; [done|]. split; [done|].
       cbn [response_text answered orb]. rewrite append_nil_r. done. }
  unfold iteration in Hrun.
  destruct (create (history (messageManager sv)) tools) as [content|error] eqn:Hcreate.
  2: { inversion Hrun; subst; clear Hrun.
       exists [], (ErrorEvent (as_Error error)). rewrite app_nil_r.
       split; [done|]. split; [done|]. rewrite errorMessage_as_Error.
       split; [done|]. apply as_Error_is_Error. }
  destruct (toolUses content) as [|u uses] eqn:Huses.
  - inversion Hrun; subst; clear Hrun.
    exists [AssistantMessage (textContent content) None],
           (ResponseEvent (fullResponse +:+ textContent content)).
    split; [done|]. split; [done|].
    cbn [response_text answered orb]. by rewrite append_nil_r.
  - apply IH in Hrun as (added & final & Hh & He & Hf). clear IH.
    match type of Hh with context [foldl (handleToolUse exec) ?sv2 (u :: uses)] =>
      destruct (handleToolUses_run exec (u :: uses) sv2) as (Hh2 & He2 & _) end.
    simpl in Hh, He, Hh2, He2.
    exists (AssistantMessage (textContent content) (Some (formattedToolCalls (u :: uses)))
            :: tool_messages exec (u :: uses) (clientManager sv) ++ added), final.
    split; [|split].
    + rewrite Hh, Hh2, <- !app_assoc. done.
    + rewrite He, He2. cbn [conversation_events].
      rewrite conversation_events_tools, <- !app_assoc. done.
    + destruct final as [| | |full|error]; try done.
      destruct (response_text_tools (u :: uses) (clientManager sv) added) as [Htext Hans].
      cbn [response_text answered]. rewrite Htext, Hans.
      destruct Hf as [-> Hf]. split; [|].
      * destruct (truthy (textContent content)); [|done]. by rewrite !append_assoc.
      * rewrite Hf. destruct (truthy (textContent content)); [|done].
        by rewrite !append_assoc.
Qed.

End AnthropicProtocol.

(** X14. When the tools could be fetched, [completeTask] returns a text,
    and what it emits and returns is determined by the messages it appends
    to the conversation after the message of the user.  It emits first
    [thinking]; then, for every tool message appended, the call, with the
    name and the arguments of the assistant message that asked for it, and
    at once its result, with the payload of the tool message; after the
    result of the last tool call of an assistant message, [thinking],
    which announces the next pass; and last, and only then, one final
    event.  The final event is the response, with the text of the
    assistant collected over the passes, and that text is returned; but
    when the limit of iterations stopped the loop and there is no text at
    all, the text returned is "Reached maximum number of tool call
    iterations without a final response.".  Or the final event is the
    error of the provider as an [Error] object, and the text returned is
    "Error processing request: " and its message. *)
Theorem completeTask_events {M : Type} (getAll : M → Settled ToolSet * M)
    (exec : string → Json → M → Settled Json * M)
    (create : list InternalMessage → ToolSet → Settled (list ContentBlock))
    fuel userInput imageData (sv : Service) :
  MAX_ITERATIONS < fuel →
  is_fulfilled (fst (getAll (clientManager sv))) = true →
  ∃ text sv' added final,
    completeTask getAll exec create fuel userInput imageData sv =
      Some (Fulfilled text, sv') ∧
    history (messageManager sv') =
      history (messageManager sv) ++ UserMessage userInput imageData :: added ∧
    emitted sv' = emitted sv ++ Thinking :: conversation_events [] added ++ [final] ∧
    final_event added final text.
Proof.
  intros Hfuel Hok. unfold completeTask. simpl.
  destruct (getAll (clientManager sv)) as [[tools|error] m]; [|done].
  match goal with |- context [toolLoop exec create fuel tools 0 "" ?sv3] =>
    destruct (toolLoop_spec exec create tools fuel 0 "" sv3) as (text & sv' & ? & Hrun & _);
      [lia|];
    destruct (toolLoop_events exec create tools _ _ _ _ _ _ Hrun)
      as (added & final & Hh & He & Hf) end.
  exists text, sv', added, final. rewrite Hrun. simpl in Hh, He |- *.
  split; [done|]. split; [by rewrite Hh, <- app_assoc|].
  split; [by rewrite He, <- app_assoc|].
  destruct final; done.
Qed.

Lemma enough_fuel : MAX_ITERATIONS < 11.
Proof. unfold MAX_ITERATIONS. lia. Defined.

Lemma completeTask_events_witness :
  MAX_ITERATIONS < 11 ∧
  is_fulfilled (fst (getAllTools (clientManager first_turn))) = true ∧
  (∃ text sv' added final,
     completeTask getAllTools (λ name args, executeTool sample_deniedMessage name args None)
       asks_after_user 11 "and the folder" None first_turn = Some (Fulfilled text, sv') ∧
     history (messageManager sv') =
       history (messageManager first_turn) ++ UserMessage "and the folder" None :: added ∧
     emitted sv' = emitted first_turn ++ Thinking :: conversation_events [] added ++ [final] ∧
     final_event added final text) ∧
  ∃ sv',
    completeTask getAllTools (λ name args, executeTool sample_deniedMessage name args None)
      asks_after_user 11 "and the folder" None first_turn =
      Some (Fulfilled ("Deleting." +:+ newline +:+ "I was not allowed to."), sv') ∧
    emitted sv' =
      [Thinking;
       ToolCallEvent "delete_file" JNull;
       ToolResultEvent "delete_file"
         (JObj [("error", JStr "Tool 'delete_file' execution was denied")]);
       Thinking;
       ResponseEvent ("Deleting." +:+ newline +:+ "I was not allowed to.")].
Proof.
  split; [exact enough_fuel|]. split; [reflexivity|]. split.
  - exact (completeTask_events getAllTools
             (λ name args, executeTool sample_deniedMessage name args None)
             asks_after_user 11 "and the folder" None first_turn enough_fuel eq_refl).
  - eexists. split; vm_compute; reflexivity.
Defined.

(** X15. [completeTask] keeps the conversation well formed.  If every
    tool call in the history is answered when it is called, then the same
    holds for the messages of every request it sends to the provider and
    for the history it leaves; the history only grows, first by the user
    message. *)
Theorem completeTask_keeps_conversation_balanced {M : Type}
    (getAll : M → Settled ToolSet * M)
    (exec : string → Json → M → Settled Json * M)
    (create : list InternalMessage → ToolSet → Settled (list ContentBlock))
    fuel userInput imageData (sv : Service) :
  MAX_ITERATIONS < fuel →
  balanced (history (messageManager sv)) →
  ∃ r sv' added new,
    completeTask getAll exec create fuel userInput imageData sv = Some (r, sv') ∧
    history (messageManager sv') =
      history (messageManager sv) ++ UserMessage userInput imageData :: added ∧
    balanced (history (messageManager sv')) ∧
    requests sv' = requests sv ++ new ∧ Forall balanced new.
Proof.
  intros Hfuel Hb. unfold completeTask. simpl.
  assert (Hb1 : balanced (history (messageManager sv) ++ [UserMessage userInput imageData])).
  { apply balanced_app; [done|repeat constructor]. }
  destruct (getAll (clientManager sv)) as [[tools|error] m].
  - match goal with |- context [toolLoop exec create fuel tools 0 "" ?sv3] =>
      destruct (toolLoop_spec exec create tools fuel 0 "" sv3) as (text & sv' & ? & Hrun & _);
        [lia|];
      destruct (toolLoop_balanced exec create tools _ _ _ _ _ _ Hrun)
        as (Hbal & (added & Hh)) end.
    destruct Hbal as (Hb' & new & Hnew & Hall); [done|].
    exists (Fulfilled text), sv', added, new. rewrite Hrun. simpl in *.
    split; [done|]. split; [by rewrite Hh, <- app_assoc|]. done.
  - eexists _, _, [], []. split; [done|]. simpl. rewrite app_nil_r.
    split; [done|]. split; [done|]. split; [done|constructor].
Qed.

Lemma second_turn_balanced : balanced (history (messageManager second_turn)).
Proof.
  apply balanced_user.
  apply (balanced_calls "Deleting."
           [{| tc_id := "call_1"; tc_name := "delete_file"; tc_arguments := JNull |}]
           [ToolMessage "call_1" "delete_file"
              (JObj [("error", JStr "Tool 'delete_file' execution was denied")])]
           [AssistantMessage "I was not allowed to." None]).
  - constructor; [|constructor]. eexists. reflexivity.
  - apply balanced_text, balanced_nil.
Defined.

Lemma completeTask_keeps_conversation_balanced_witness :
  MAX_ITERATIONS < 11 ∧
  balanced (history (messageManager second_turn)) ∧
  (∃ r sv' added new,
     completeTask getAllTools (λ name args, executeTool sample_deniedMessage name args None)
       asks_after_user 11 "and the folder" None second_turn = Some (r, sv') ∧
     history (messageManager sv') =
       history (messageManager second_turn) ++ UserMessage "and the folder" None :: added ∧
     balanced (history (messageManager sv')) ∧
     requests sv' = requests second_turn ++ new ∧ Forall balanced new) ∧
  ∃ sv',
    completeTask getAllTools (λ name args, executeTool sample_deniedMessage name args None)
      asks_after_user 11 "and the folder" None second_turn =
      Some (Fulfilled ("Deleting." +:+ newline +:+ "I was not allowed to."), sv') ∧
    history (messageManager sv') =
      history (messageManager second_turn) ++
      [UserMessage "and the folder" None;
       AssistantMessage "Deleting."
         (Some [{| tc_id := "call_1"; tc_name := "delete_file"; tc_arguments := JNull |}]);
       ToolMessage "call_1" "delete_file"
         (JObj [("error", JStr "Tool 'delete_file' execution was denied")]);
       AssistantMessage "I was not allowed to." None] ∧
    length (requests sv') = 2.
Proof.
  split; [exact enough_fuel|]. split; [exact second_turn_balanced|]. split.
  - exact (completeTask_keeps_conversation_balanced getAllTools
             (λ name args, executeTool sample_deniedMessage name args None)
             asks_after_user 11 "and the folder" None second_turn enough_fuel
             second_turn_balanced).
  - eexists. split; [|split]; vm_compute; reflexivity.
Defined.

(** X16. [completeTask] rejects only when the tools cannot be fetched, and
    then with the error of [getAllTools]: the user message has already been
    appended to the history, and no request is sent and no event emitted.
    Once the tools are fetched it fulfils, whatever the provider and the
    tools do. *)
Theorem completeTask_rejects_only_without_tools {M : Type}
    (getAll : M → Settled ToolSet * M)
    (exec : string → Json → M → Settled Json * M)
    (create : list InternalMessage → ToolSet → Settled (list ContentBlock))
    fuel userInput imageData (sv : Service) :
  MAX_ITERATIONS < fuel →
  ∃ r sv',
    completeTask getAll exec create fuel userInput imageData sv = Some (r, sv') ∧
    match fst (getAll (clientManager sv)) with
    | Fulfilled _ => is_fulfilled r = true
    | Rejected error =>
        r = Rejected error ∧
        history (messageManager sv') =
          history (messageManager sv) ++ [UserMessage userInput imageData] ∧
        emitted sv' = emitted sv ∧ requests sv' = requests sv
    end.
Proof.
  intros Hfuel. unfold completeTask. simpl.
  destruct (getAll (clientManager sv)) as [[tools|error] m]; simpl.
  - match goal with |- context [toolLoop exec create fuel tools 0 "" ?sv3] =>
      destruct (toolLoop_spec exec create tools fuel 0 "" sv3) as (text & sv' & ? & Hrun & _);
        [lia|] end.
    rewrite Hrun. by eexists _, _.
  - by eexists _, _.
Qed.

Lemma completeTask_rejects_only_without_tools_witness :
  MAX_ITERATIONS < 11 ∧
  ∃ r sv',
    completeTask (λ m : State, (Rejected (Error "Not connected"), m))
      (λ name args, executeTool sample_deniedMessage name args None)
      asks_for_delete 11 "and the folder" None first_turn = Some (r, sv') ∧
    r = Rejected (Error "Not connected") ∧
    history (messageManager sv') =
      history (messageManager first_turn) ++ [UserMessage "and the folder" None] ∧
    emitted sv' = emitted first_turn ∧ requests sv' = requests first_turn.
Proof.
  split; [exact enough_fuel|].
  exact (completeTask_rejects_only_without_tools
           (λ m : State, (Rejected (Error "Not connected"), m))
           (λ name args, executeTool sample_deniedMessage name args None)
           asks_for_delete 11 "and the folder" None first_turn enough_fuel).
Defined.

(** ** [validateToolSupport] *)

Lemma validateToolSupport_cached probe vs :
  let '(r, vs') := validateToolSupport probe vs in
  toolSupportCache vs' !! modelKey vs' = Some r ∧ modelKey vs' = modelKey vs.
Proof.
  unfold validateToolSupport.
  destruct (toolSupportCache vs !! modelKey vs) as [b|] eqn:Hc; [done|].
  destruct (negb _); [simpl; by rewrite lookup_insert_eq|].
  destruct probe as [|error]; [simpl; by rewrite lookup_insert_eq|].
  destruct (includes _ _); simpl; by rewrite lookup_insert_eq.
Qed.

(** X17. [validateToolSupport] asks the provider at most once for a model:
    a call makes at most one test call, and after it every further call
    returns the same answer and leaves the service as it is, without a test
    call, however the provider would answer by then. *)
Theorem validateToolSupport_memoized probe1 probe2 vs :
  let '(r1, vs1) := validateToolSupport probe1 vs in
  validateToolSupport probe2 vs1 = (r1, vs1) ∧
  probes vs1 ≤ S (probes vs).
Proof.
  pose proof (validateToolSupport_cached probe1 vs) as H.
  destruct (validateToolSupport probe1 vs) as [r1 vs1] eqn:H1.
  destruct H as [Hc Hk]. split.
  - unfold validateToolSupport. by rewrite Hc.
  - unfold validateToolSupport in H1.
    destruct (toolSupportCache vs !! modelKey vs); [inversion H1; subst; lia|].
    destruct (negb _); [inversion H1; subst; simpl; lia|].
    destruct probe1 as [|error]; [inversion H1; subst; simpl; lia|].
    destruct (includes _ _); inversion H1; subst; simpl; lia.
Qed.

(** X18. For a model it has no answer for yet, [validateToolSupport] says
    that tools are not supported only when the service has a custom base
    URL and the test call failed with a message that includes "does not
    support tools"; a test call that fails otherwise counts as support.
    Without a custom base URL no test call is made. *)
Theorem validateToolSupport_fails_open probe vs :
  toolSupportCache vs !! modelKey vs = None →
  let '(r, vs') := validateToolSupport probe vs in
  (r = false ↔
     truthy (default "" (vs_baseURL vs)) = true ∧
     ∃ error, probe = Rejected error ∧
              includes (errorMessage error) "does not support tools" = true) ∧
  (probes vs' = probes vs ↔ truthy (default "" (vs_baseURL vs)) = false).
Proof.
  intros Hc. unfold validateToolSupport. rewrite Hc.
  destruct (truthy (default "" (vs_baseURL vs))); simpl.
  - destruct probe as [[]|error].
    + split; [|split; [simpl; intros ?; exfalso; lia|done]].
      split; [done|]. by intros [_ (e & ? & _)].
    + destruct (includes (errorMessage error) _) eqn:Hinc; simpl.
      * split; [|split; [simpl; intros ?; exfalso; lia|done]].
        split; [|done]. intros _. split; [done|]. by exists error.
      * split; [|split; [simpl; intros ?; exfalso; lia|done]]. split; [done|].
        intros [_ (e & [= <-] & He)]. congruence.
  - split; [|done]. split; [done|]. by intros [? _].
Qed.

Lemma validateToolSupport_fails_open_witness :
  toolSupportCache local_model !! modelKey local_model = None ∧
  let '(r, vs') :=
    validateToolSupport
      (Rejected (Error "registry.ollama.ai/library/gemma3n:e2b does not support tools"))
      local_model in
  (r = false ↔
     truthy (default "" (vs_baseURL local_model)) = true ∧
     ∃ error,
       Rejected (Error "registry.ollama.ai/library/gemma3n:e2b does not support tools") =
         (Rejected error : Settled unit) ∧
       includes (errorMessage error) "does not support tools" = true) ∧
  (probes vs' = probes local_model ↔ truthy (default "" (vs_baseURL local_model)) = false).
Proof.
  split; [reflexivity|].
  exact (validateToolSupport_fails_open
           (Rejected (Error "registry.ollama.ai/library/gemma3n:e2b does not support tools"))
           local_model eq_refl).
Defined.

(** ** Provider errors *)

Lemma mapErrorTypeToStatus_range type : mapErrorTypeToStatus type ∈ http_statuses.
Proof. destruct type; unfold http_statuses; simpl; set_solver. Qed.

(** X19. For an API call error of the provider, [mapProviderError] throws
    a runtime error that keeps the status in its context and has the type
    [RATE_LIMIT] for status 429, [TIMEOUT] for status 408 and [THIRD_PARTY]
    for any other status or none, which [errorHandler] answers with HTTP
    429, 408 and 502.  Any other error is thrown again as it is.  Whatever
    the error, the status [errorHandler] answers with is one of 400, 403,
    404, 408, 429, 500 and 502. *)
Theorem provider_failure_status vs phase :
  (∀ status,
     let thrown := mapProviderError vs (APICallError status) phase in
     (∃ code type message context,
        thrown = LLMRuntimeError code type message context ∧
        ctx_status context = status ∧
        type = (if bool_decide (status = Some 429%N) then RATE_LIMIT
                else if bool_decide (status = Some 408%N) then TIMEOUT
                else THIRD_PARTY)) ∧
     fst (errorHandler thrown) =
       (if bool_decide (status = Some 429%N) then 429
        else if bool_decide (status = Some 408%N) then 408 else 502)%N) ∧
  (∀ err, (∀ status, err ≠ APICallError status) → mapProviderError vs err phase = err) ∧
  (∀ err, fst (errorHandler err) ∈ http_statuses).
Proof.
  split; [|split].
  - intros status thrown. subst thrown. unfold mapProviderError.
    repeat case_bool_decide; (split; [by eexists _, _, _, _|done]).
  - intros err Hne. destruct err; try done. by destruct (Hne statusCode).
  - intros [| |issues|issues| |]; simpl;
      try apply mapErrorTypeToStatus_range; unfold http_statuses; set_solver.
Qed.

(** ** The factory of LLM services *)

(** X20. With the in-built router [createLLMService] returns a service
    exactly when the configuration has a non-empty API key and its
    provider, in any case of the letters, is [openai] or [anthropic].  A
    missing key is reported first, as "Error: API key for ... not found";
    with a key, any other provider is reported as "Unsupported LLM
    provider", both with the provider as the configuration spells it. *)
Theorem createLLMService_in_built {M : Type} (getMaxTokens : string → string → option Z)
    (clientManager : M) (config : LLMConfig) :
  let p := toLowerCase (llm_provider config) in
  let created := createLLMService getMaxTokens clientManager config false in
  (is_returned created = true ↔
     has_apiKey config = true ∧ (p = "openai" ∨ p = "anthropic")) ∧
  (has_apiKey config = false ↔
     created = Throws (Error ("Error: API key for " +:+ llm_provider config +:+
                              " not found"))) ∧
  (has_apiKey config = true ∧ p ≠ "openai" ∧ p ≠ "anthropic" ↔
     created = Throws (Error ("Unsupported LLM provider: " +:+ llm_provider config))).
Proof.
  intros p created. subst created.
  unfold createLLMService, _createLLMService, extractApiKey, has_apiKey.
  fold p. destruct (truthy (or_default (llm_apiKey config) "")); simpl.
  - destruct (String.eqb_spec p "openai") as [Ho|Ho];
      [|destruct (String.eqb_spec p "anthropic") as [Ha|Ha]]; simpl.
    + split; [split; [intros _; split; [done|by left]|done]|].
      split; [by split|]. split; [by intros (_ & ? & _)|done].
    + split; [split; [intros _; split; [done|by right]|done]|].
      split; [by split|]. split; [by intros (_ & _ & ?)|done].
    + split; [split; [done|by intros [_ [?|?]]]|].
      split; [by split|]. by split.
  - split; [split; [done|by intros [? _]]|].
    split; [by split|]. split; [by intros [? _]|done].
Qed.

(** X21. With the Vercel router [createLLMService] returns a service
    exactly when the provider, in any case of the letters, is [openai],
    [anthropic] or [google]; the API key of the configuration is never
    looked at; and the service gets [maxIterations] of the configuration,
    or 50 when it has none. *)
Theorem createLLMService_vercel {M : Type} (getMaxTokens : string → string → option Z)
    (clientManager : M) (config : LLMConfig) :
  let p := toLowerCase (llm_provider config) in
  (is_returned (createLLMService getMaxTokens clientManager config true) = true ↔
     p = "openai" ∨ p = "anthropic" ∨ p = "google") ∧
  (∀ k, createLLMService getMaxTokens clientManager (with_apiKey k config) true =
        createLLMService getMaxTokens clientManager config true) ∧
  (∀ service,
     createLLMService getMaxTokens clientManager config true = Returns service →
     ∃ model,
       service = Vercel_service model (default 50 (llm_maxIterations config))).
Proof.
  intros p. unfold createLLMService, _createVercelLLMService, _createVercelModel.
  fold p. split; [|split; [done|]].
  - destruct (String.eqb_spec p "openai") as [Ho|Ho];
      [|destruct (String.eqb_spec p "anthropic") as [Ha|Ha];
        [|destruct (String.eqb_spec p "google") as [Hg|Hg]]]; simpl.
    + split; [by left|done].
    + split; [by (right; left)|done].
    + split; [by (right; right)|done].
    + split; [done|]. by intros [?|[?|?]].
  - intros service.
    destruct (String.eqb p "openai"); [|destruct (String.eqb p "anthropic");
      [|destruct (String.eqb p "google")]]; simpl; intros [= <-]; by eexists.
Qed.

(** ** The agent *)

Lemma utf8_string_app cps1 cps2 :
  utf8_string (cps1 ++ cps2) = utf8_string cps1 +:+ utf8_string cps2.
Proof.
  induction cps1 as [|cp cps1 IH]; simpl; [done|]. by rewrite IH, append_assoc.
Qed.

Lemma strip_prefix_Some p : ∀ s rest, strip_prefix p s = Some rest → s = p +:+ rest.
Proof.
  induction p as [|a p IH]; intros s rest; [by intros [= ->]|].
  destruct s as [|b s]; [done|]. cbn [strip_prefix].
  destruct (Ascii.eqb_spec a b) as [->|]; [|done]. intros H.
  by rewrite append_cons, (IH _ _ H).
Qed.

(** What [strip_white_space] removes is a white space character. *)
Lemma strip_white_space_Some s rest :
  strip_white_space s = Some rest →
  ∃ cp, is_white_space cp = true ∧ s = utf8 cp +:+ rest.
Proof.
  unfold strip_white_space, is_white_space.
  induction white_space_code_points as [|cp cps IH]; simpl; [done|].
  destruct (strip_prefix (utf8 cp) s) as [rest'|] eqn:Hp.
  - intros [= ->]. exists cp. split; [|by apply strip_prefix_Some].
    apply bool_decide_eq_true_2. by left.
  - intros H. destruct (IH H) as (cp' & Hcp' & ->). exists cp'. split; [|done].
    apply bool_decide_eq_true_2. apply bool_decide_eq_true_1 in Hcp'. by right.
Qed.

(** No white space character is the start of another in UTF-8, so the
    character [strip_white_space] removes is the one the string starts
    with. *)
Lemma strip_white_space_utf8 cp rest :
  is_white_space cp = true → strip_white_space (utf8 cp +:+ rest) = Some rest.
Proof.
  intros H. apply bool_decide_eq_true_1 in H. revert rest.
  apply (proj1 (Forall_forall (λ cp, ∀ rest, strip_white_space (utf8 cp +:+ rest) = Some rest)
                  white_space_code_points)); [|done].
  repeat constructor; intros rest; reflexivity.
Qed.

Lemma utf8_white_space_length cp :
  is_white_space cp = true → 0 < String.length (utf8 cp).
Proof.
  intros H. apply bool_decide_eq_true_1 in H.
  apply (proj1 (Forall_forall (λ cp, 0 < String.length (utf8 cp))
                  white_space_code_points)); [|done].
  repeat constructor; vm_compute; lia.
Qed.

Lemma trimStart_from_empty fuel : ∀ s, trimStart_from fuel s = "" → all_white_space s.
Proof.
  induction fuel as [|fuel IH]; intros s; simpl.
  - intros ->. exists []. by split.
  - destruct (strip_white_space s) as [rest|] eqn:Hs.
    + intros H. apply IH in H as (cps & -> & Hall).
      apply strip_white_space_Some in Hs as (cp & Hcp & ->).
      exists (cp :: cps). split; [done|by constructor].
    + intros ->. exists []. by split.
Qed.

Lemma trimStart_from_white_space cps : ∀ fuel,
  Forall (λ cp, is_white_space cp = true) cps →
  String.length (utf8_string cps) ≤ fuel →
  trimStart_from fuel (utf8_string cps) = "".
Proof.
  induction cps as [|cp cps IH]; intros fuel Hall Hfuel.
  - by destruct fuel.
  - inversion Hall as [|?? Hcp Hall']; subst. cbn [utf8_string foldr] in Hfuel |- *.
    fold (utf8_string cps) in Hfuel |- *. rewrite append_length in Hfuel.
    pose proof (utf8_white_space_length cp Hcp).
    destruct fuel as [|fuel]; [lia|]. cbn [trimStart_from].
    rewrite strip_white_space_utf8 by done. apply IH; [done|lia].
Qed.

Lemma trimStart_empty s : trimStart s = "" ↔ all_white_space s.
Proof.
  split; [apply trimStart_from_empty|].
  intros (cps & -> & Hall). by apply trimStart_from_white_space.
Qed.

Lemma all_white_space_app s1 s2 :
  all_white_space s1 → all_white_space s2 → all_white_space (s1 +:+ s2).
Proof.
  intros (cps1 & -> & H1) (cps2 & -> & H2). exists (cps1 ++ cps2).
  split; [by rewrite utf8_string_app|by apply Forall_app].
Qed.

(** What [trimEnd] removes is white space. *)
Lemma trimEnd_spec s : ∃ blanks, s = trimEnd s +:+ blanks ∧ all_white_space blanks.
Proof.
  induction s as [|c s (blanks & IH & Hblanks)].
  - exists "". split; [done|]. exists []. by split.
  - cbn [trimEnd]. destruct (String.eqb_spec (trimStart (String c s)) "") as [He|Hne].
    + exists (String c s). split; [done|]. by apply trimStart_empty.
    + exists blanks. split; [|done]. by rewrite append_cons, <- IH.
Qed.

Lemma trimEnd_white_space s : all_white_space s → trimEnd s = "".
Proof.
  intros H. destruct s as [|c s]; [done|]. cbn [trimEnd].
  apply trimStart_empty in H. by rewrite H.
Qed.

Lemma trim_empty s : trim s = "" ↔ all_white_space s.
Proof.
  unfold trim. split.
  - intros H. apply trimStart_empty in H.
    destruct (trimEnd_spec s) as (blanks & Hs & Hblanks).
    rewrite Hs. by apply all_white_space_app.
  - intros H. by rewrite (trimEnd_white_space s H).
Qed.

(** A response of blanks beyond ASCII is [null] too. *)
Lemma run_wide_blanks : run (Fulfilled wide_blanks) = Fulfilled None.
Proof. reflexivity. Qed.

(** [trim] removes the white space around a text, whatever its encoding,
    and leaves the white space inside. *)
Lemma trim_sample :
  trim (wide_blanks +:+ "no tools" +:+ utf8_string [0xFEFF; 0x0A]%N) = "no tools".
Proof. reflexivity. Qed.

(** X22. [run] returns [null] exactly when [completeTask] returned the
    empty string or white space only, be it the white space of ASCII or
    any other white space or line terminator [String.prototype.trim]
    removes; any other response is returned as it is, not trimmed; and a
    rejection of [completeTask] is passed on. *)
Theorem run_blank_is_null (llmResponse : Settled string) :
  (run llmResponse = Fulfilled None ↔
     ∃ response, llmResponse = Fulfilled response ∧ all_white_space response) ∧
  (∀ response, run llmResponse = Fulfilled (Some response) ↔
     llmResponse = Fulfilled response ∧ ¬ all_white_space response) ∧
  (∀ error, run llmResponse = Rejected error ↔ llmResponse = Rejected error).
Proof.
  destruct llmResponse as [response|error]; simpl.
  2: { split; [|split].
       - split; [done|]. by intros (? & ? & _).
       - intros response. split; [done|]. by intros [? _].
       - intros e. split; by intros [= ->]. }
  destruct (String.eqb_spec (trim response) "") as [Ht|Ht].
  - rewrite andb_false_r. apply trim_empty in Ht.
    split; [|split].
    + split; [intros _; by exists response|done].
    + intros r. split; [done|]. by intros [[= ->] ?].
    + done.
  - assert (Hw : ¬ all_white_space response) by (by rewrite <- trim_empty).
    assert (truthy response = true) as ->.
    { unfold truthy. destruct (String.eqb_spec response "") as [->|?]; [|done].
      destruct Hw. exists []. by split. }
    simpl. split; [|split].
    + split; [done|]. by intros (r & [= ->] & ?).
    + intros r. split; [by intros [= ->]|by intros [[= ->] _]].
    + done.
Qed.

(** X23. [connectMcpServer] settles as [connectServer] does and tells the
    event bus once: on success [saiki:mcpServerConnected] with
    [success: true] and then [saiki:availableToolsUpdated]; on failure
    [saiki:mcpServerConnected] with [success: false] and the message
    "Failed to connect to new server '<name>': <cause>".  For a name that
    is already registered it reports success although nothing was
    connected. *)
Theorem connectMcpServer_reports name config s bus :
  ∃ r s',
    connectMcpServer name config (s, bus) =
      Some (r, (s', bus ++
        match r with
        | Fulfilled _ => [McpServerConnected name true None; AvailableToolsUpdated]
        | Rejected _ =>
            [McpServerConnected name false
               (Some (connect_failure name (failure_cause config)))]
        end)) ∧
    connectServer name config s = (Done r, s') ∧
    (is_Some (clients (mgr s) !! name) → r = Fulfilled () ∧ s' = s).
Proof.
  unfold connectMcpServer.
  destruct (clients (mgr s) !! name) as [c|] eqn:Hreg.
  - rewrite connectServer_registered by (by eexists). by exists (Fulfilled ()), s.
  - pose proof (connectServer_settles name config s) as [r Hr].
    destruct (connectServer name config s) as [t s'] eqn:Hrun. simpl in Hr. subst t.
    destruct r as [[]|error].
    + exists (Fulfilled ()), s'. split; [done|]. split; [done|]. by intros [? ?].
    + destruct (connectServer_rejected _ _ _ _ _ Hrun) as (e & _ & Hout & -> & _).
      eexists (Rejected _), s'. split; [|split; [done|by intros [? ?]]].
      simpl. unfold failure_cause. by rewrite Hout.
Qed.

(** ** The local blob store *)

(** X24. A blob can be named by its id or by its [uri]: for an id that is
    not empty [parseReference] gives the id back from [`blob:${id}`].  What
    it returns is never empty, and it is the reference itself or the
    reference without its prefix [blob:].  It throws exactly for the empty
    reference and for the bare prefix. *)
Theorem parseReference_round_trip :
  (∀ id, id ≠ "" → parseReference (blob_uri id) = inr id) ∧
  (∀ reference id, parseReference reference = inr id →
     id ≠ "" ∧ (reference = id ∨ reference = blob_uri id)) ∧
  (∀ reference, (∃ e, parseReference reference = inl e) ↔
     reference = "" ∨ reference = "blob:").
Proof.
  assert (Htruthy : ∀ s, truthy s = true ↔ s ≠ "").
  { intros s. unfold truthy. by destruct (String.eqb_spec s ""). }
  assert (Hshape : ∀ reference,
    startsWith reference "blob:" = true →
    reference = blob_uri (substring_from 5 reference)).
  { intros reference. unfold blob_uri.
    do 5 (destruct reference as [|? reference]; [done|]; cbn [startsWith];
          match goal with |- context [Ascii.eqb ?a ?b] =>
            destruct (Ascii.eqb_spec a b) as [<-|]; [|done] end).
    done. }
  assert (Hprefix : ∀ id, startsWith (blob_uri id) "blob:" = true).
  { intros id. by destruct id. }
  split; [|split].
  - intros id Hid. unfold parseReference.
    assert (truthy (blob_uri id) = true) as -> by done.
    rewrite Hprefix. cbn [negb].
    change (substring_from 5 (blob_uri id)) with id.
    apply Htruthy in Hid. by rewrite Hid.
  - intros reference id. unfold parseReference.
    destruct (truthy reference) eqn:Hr; cbn [negb]; [|done].
    destruct (startsWith reference "blob:") eqn:Hp.
    + destruct (truthy (substring_from 5 reference)) eqn:Hid; cbn [negb]; [|done].
      intros [= <-]. split; [by apply Htruthy|]. right. by apply Hshape.
    + intros [= <-]. split; [by apply Htruthy|by left].
  - intros reference. unfold parseReference.
    destruct (truthy reference) eqn:Hr; cbn [negb].
    + destruct (startsWith reference "blob:") eqn:Hp.
      * destruct (truthy (substring_from 5 reference)) eqn:Hid; cbn [negb].
        -- split; [by intros [? ?]|]. intros [Heq|Heq]; subst; done.
        -- split; [|by eexists]. intros _. right.
           rewrite (Hshape reference Hp).
           destruct (substring_from 5 reference); [done|done].
      * split; [by intros [? ?]|]. intros [Heq|Heq]; subst; done.
    + split; [|by eexists]. intros _. left.
      destruct reference; [done|done].
Qed.

Section SevenTenths.

Local Open Scope Z_scope.

(** Rounding a mantissa of 53 bits keeps it or adds one, whatever is left
    of the division. *)
Lemma binary_round_aux_keep (q : positive) (e : Z) (loc : location) :
  2 ^ 52 ≤ Zpos q → Zpos q + 1 < 2 ^ 53 → -1074 ≤ e ≤ 971 →
  ∃ m1, binary_round_aux 53 1024 false (Zpos q) e loc = S754_finite false m1 e ∧
        Zpos q ≤ Zpos m1 ≤ Zpos q + 1.
Proof.
  intros Hlo Hhi He.
  assert (Hshift : fexp 53 1024 (Zdigits2 (Zpos q) + e) - e = 0).
  { unfold fexp, emin. simpl Zdigits2.
    rewrite (digits2_pos_unique q 53) by (change (53 - 1) with 52; lia). lia. }
  unfold binary_round_aux, shr_fexp at 1. rewrite Hshift. cbn [shr].
  pose proof (round_nearest_even_shr (shr_record_of_loc (Zpos q) loc)) as [Hm1 _].
  set (m1 := round_nearest_even _ _) in *.
  assert (Hq : shr_m (shr_record_of_loc (Zpos q) loc) = Zpos q) by by destruct loc as [|[]].
  rewrite Hq in Hm1. clearbody m1.
  destruct m1 as [|m1|m1]; [lia| |lia].
  exists m1. split; [|done].
  assert (Hshift2 : fexp 53 1024 (Zdigits2 (Zpos m1) + e) - e = 0).
  { unfold fexp, emin. simpl Zdigits2.
    rewrite (digits2_pos_unique m1 53) by (change (53 - 1) with 52; lia). lia. }
  unfold shr_fexp. rewrite Hshift2. cbn [shr shr_record_of_loc shr_m].
  replace (e <=? 1024 - 53) with true; [done|]. symmetry. apply Z.leb_le. lia.
Qed.

(** Rounding a mantissa of 54 bits halves it, and may add one. *)
Lemma binary_round_aux_halve (q : positive) (e : Z) (loc : location) :
  2 ^ 53 ≤ Zpos q → Zpos q / 2 + 1 < 2 ^ 53 → -1074 ≤ e + 1 ≤ 971 →
  ∃ m1, binary_round_aux 53 1024 false (Zpos q) e loc = S754_finite false m1 (e + 1) ∧
        Zpos q / 2 ≤ Zpos m1 ≤ Zpos q / 2 + 1.
Proof.
  intros Hlo Hhi He.
  assert (Hq54 : Zpos q < 2 ^ 54).
  { pose proof (Z.div_mod (Zpos q) 2 ltac:(lia)).
    pose proof (Z.mod_pos_bound (Zpos q) 2 ltac:(lia)). lia. }
  assert (Hshift : fexp 53 1024 (Zdigits2 (Zpos q) + e) - e = 1).
  { unfold fexp, emin. simpl Zdigits2.
    rewrite (digits2_pos_unique q 54) by (change (54 - 1) with 53; lia). lia. }
  unfold binary_round_aux, shr_fexp at 1. rewrite Hshift. cbn [shr iter_pos].
  set (mrs := shr_1 _).
  pose proof (round_nearest_even_shr mrs) as [Hm1 _].
  set (m1 := round_nearest_even _ _) in *.
  assert (Hq : shr_m mrs = Zpos q / 2).
  { unfold mrs. destruct loc as [|[]]; by apply shr_1_spec. }
  rewrite Hq in Hm1. clearbody m1.
  assert (2 ^ 52 ≤ Zpos q / 2) by (apply Z.div_le_lower_bound; lia).
  destruct m1 as [|m1|m1]; [lia| |lia].
  exists m1. split; [|done].
  assert (Hshift2 : fexp 53 1024 (Zdigits2 (Zpos m1) + (e + 1)) - (e + 1) = 0).
  { unfold fexp, emin. simpl Zdigits2.
    rewrite (digits2_pos_unique m1 53) by (change (53 - 1) with 52; lia). lia. }
  unfold shr_fexp. rewrite Hshift2. cbn [shr shr_record_of_loc shr_m].
  replace (e + 1 <=? 1024 - 53) with true; [done|]. symmetry. apply Z.leb_le. lia.
Qed.

(** The division of two numbers with full mantissas: the quotient of the
    mantissas, the first shifted by 53 bits, is rounded. *)
Lemma SFdiv_normal (mx my : positive) (ex ey : Z) :
  2 ^ 52 ≤ Zpos mx < 2 ^ 53 → 2 ^ 52 ≤ Zpos my < 2 ^ 53 →
  -1074 + 53 ≤ ex - ey →
  SFdiv 53 1024 (S754_finite false mx ex) (S754_finite false my ey) =
    binary_round_aux 53 1024 false (Zpos mx * 2 ^ 53 / Zpos my) (ex - ey - 53)
      (new_location (Zpos my) (Zpos mx * 2 ^ 53 mod Zpos my)).
Proof.
  intros Hx Hy He. unfold SFdiv, SFdiv_core_binary. cbn [xorb].
  simpl Zdigits2.
  rewrite (digits2_pos_unique mx 53), (digits2_pos_unique my 53)
    by (change (53 - 1) with 52; lia).
  assert (He' : fexp 53 1024 (53 + ex - (53 + ey)) `min` (ex - ey) = ex - ey - 53).
  { unfold fexp, emin. lia. }
  rewrite He'.
  replace (ex - ey - (ex - ey - 53)) with 53 by lia.
  rewrite Z.shiftl_mul_pow2 by lia.
  change (IntDef.Z.div_eucl ?a ?b) with (Z.div_eucl a b).
  unfold Z.div, Z.modulo.
  by destruct (Z.div_eucl _ _).
Qed.

(** [6305039478318694] is the mantissa of the literal [0.7]: a quotient
    of integers up to 512 that is not seven tenths is far from it. *)
Lemma seven_tenths_quotient (p s m1 : Z) :
  0 < p → 0 < s ≤ 512 → 10 * p ≠ 7 * s →
  p * 2 ^ 53 / s ≤ m1 ≤ p * 2 ^ 53 / s + 1 →
  (6305039478318694 <? m1) = (7 * s <? 10 * p).
Proof.
  intros Hp Hs Hne Hm1.
  pose proof (Z.div_mod (p * 2 ^ 53) s ltac:(lia)) as Hdm.
  pose proof (Z.mod_pos_bound (p * 2 ^ 53) s ltac:(lia)) as Hmod.
  revert Hm1 Hdm Hmod.
  generalize (p * 2 ^ 53 / s) ((p * 2 ^ 53) mod s). intros q r Hm1 Hdm Hmod.
  change (2 ^ 53) with 9007199254740992 in Hdm.
  destruct (Z.ltb_spec (7 * s) (10 * p)) as [Hgt|Hle].
  - apply Z.ltb_lt.
    assert (6305039478318694 < q); [|lia].
    assert (H : s * (10 * 6305039478318694 + 10) ≤ s * (10 * q + 9)); [|nia].
    nia.
  - apply Z.ltb_ge.
    assert (q + 1 ≤ 6305039478318694); [|lia].
    assert (H : s * (10 * q) ≤ s * (10 * 6305039478318694 - 10)); [|nia].
    nia.
Qed.

(** The comparison with the literal [0.7]. *)
Lemma SFltb_js_0_7 (m1 : positive) (e : Z) :
  js_gt (S754_finite false m1 e) js_0_7 =
    match -53 ?= e with
    | Eq => 6305039478318694 <? Zpos m1
    | Lt => true
    | Gt => false
    end.
Proof.
  unfold js_gt, js_0_7, SFltb, SFcompare.
  destruct (-53 ?= e); [|done|done].
  change (PosDef.Pos.compare_cont Eq ?a ?b) with (Pos.compare a b).
  unfold Z.ltb. cbn [Z.compare]. done.
Qed.

(** The quotient of two positive integers up to 512, as binary64 numbers,
    is above the literal [0.7] exactly when the exact quotient is above seven
    tenths, when it is not seven tenths. *)
Lemma above_seven_tenths_pos (p s : positive) :
  Zpos p ≤ Zpos s ≤ 512 → 10 * Zpos p ≠ 7 * Zpos s →
  js_gt (js_div (number_of_Z (Zpos p)) (number_of_Z (Zpos s))) js_0_7 =
    (7 * Zpos s <? 10 * Zpos p).
Proof.
  intros [Hps Hs] Hne.
  pose proof (digits2_pos_bounds p) as [Hplo Hphi].
  pose proof (digits2_pos_bounds s) as [Hslo Hshi].
  set (dp := Zpos (digits2_pos p)) in *. set (ds := Zpos (digits2_pos s)) in *.
  assert (Hdp : 1 ≤ dp) by (unfold dp; lia).
  assert (Hd : dp ≤ ds).
  { assert (dp - 1 < ds); [|lia]. apply (Z.pow_lt_mono_r_iff 2); lia. }
  assert (Hds : ds ≤ 10).
  { assert (ds - 1 < 10); [|lia]. apply (Z.pow_lt_mono_r_iff 2); lia. }
  destruct (number_of_Z_spec p) as (mp & -> & Hmp & Hmp52); [fold dp; lia|].
  destruct (number_of_Z_spec s) as (ms & -> & Hms & Hms52); [fold ds; lia|].
  fold dp in Hmp |- *. fold ds in Hms |- *.
  unfold js_div. rewrite SFdiv_normal by lia.
  (* the quotient of the mantissas *)
  set (T := 2 ^ (ds - dp)). set (B := 2 ^ (53 - ds)).
  assert (HB : 0 < B) by (apply Z.pow_pos_nonneg; lia).
  assert (HT : 0 < T) by (apply Z.pow_pos_nonneg; lia).
  assert (Hmp' : Zpos mp = Zpos p * T * B).
  { rewrite Hmp. unfold T, B. rewrite <- Z.mul_assoc, <- Z.pow_add_r by lia.
    do 2 f_equal. lia. }
  fold B in Hms.
  assert (HQ : Zpos mp * 2 ^ 53 / Zpos ms = Zpos p * T * 2 ^ 53 / Zpos s).
  { rewrite Hmp', Hms.
    replace (Zpos p * T * B * 2 ^ 53) with (Zpos p * T * 2 ^ 53 * B) by lia.
    apply Z.div_mul_cancel_r; lia. }
  rewrite HQ.
  generalize (new_location (Zpos ms) ((Zpos mp * 2 ^ 53) mod Zpos ms)). intros loc.
  assert (HP1 : Zpos p * T < 2 * Zpos s) by nia.
  assert (HP2 : Zpos s < 2 * (Zpos p * T)) by nia.
  pose proof (Z.div_mod (Zpos p * T * 2 ^ 53) (Zpos s) ltac:(lia)) as Hdm.
  pose proof (Z.mod_pos_bound (Zpos p * T * 2 ^ 53) (Zpos s) ltac:(lia)) as Hmod.
  assert (HT' : ds - dp = 0 ∧ T = 1 ∨ ds - dp = 1 ∧ T = 2 ∨ 2 ≤ ds - dp ∧ 4 ≤ T).
  { destruct (Z.eq_dec (ds - dp) 0) as [E|]; [left; split; [done|]; unfold T; by rewrite E|].
    destruct (Z.eq_dec (ds - dp) 1) as [E|]; [right; left; split; [done|]; unfold T; by rewrite E|].
    right; right. split; [lia|]. unfold T. change 4 with (2 ^ 2).
    apply Z.pow_le_mono_r; lia. }
  assert (Hhalf : Zpos p * T * 2 ^ 53 / Zpos s / 2 = Zpos p * T * 2 ^ 52 / Zpos s).
  { rewrite Z.div_div by lia.
    replace (Zpos p * T * 2 ^ 53) with (Zpos p * T * 2 ^ 52 * 2) by lia.
    apply Z.div_mul_cancel_r; lia. }
  clearbody T. clear Hmp Hmp' Hms HQ B HB Hmp52 Hms52 Hplo Hphi Hslo Hshi.
  remember (Zpos p * T * 2 ^ 53 / Zpos s) as Q eqn:EQ.
  destruct (Z_lt_le_dec (Zpos p * T) (Zpos s)) as [Hlt|Hge].
  - (* the quotient has 53 bits *)
    assert (HQlo : 2 ^ 52 ≤ Q) by nia.
    assert (HQhi : Q + 1 < 2 ^ 53) by nia.
    destruct Q as [|q|q]; [lia| |lia].
    destruct (binary_round_aux_keep q (dp - 53 - (ds - 53) - 53) loc)
      as (m1 & -> & Hm1); [lia|lia|lia|].
    rewrite SFltb_js_0_7.
    destruct HT' as [[Ht ->]|[[Ht ->]|[Ht HT4]]].
    + replace (dp - 53 - (ds - 53) - 53) with (-53) by lia.
      rewrite Z.compare_refl.
      apply seven_tenths_quotient; [lia|lia|lia|].
      rewrite Z.mul_1_r in EQ. rewrite <- EQ. lia.
    + replace (-53 ?= dp - 53 - (ds - 53) - 53) with Gt by (symmetry; apply Z.compare_gt_iff; lia).
      symmetry. apply Z.ltb_ge. lia.
    + replace (-53 ?= dp - 53 - (ds - 53) - 53) with Gt by (symmetry; apply Z.compare_gt_iff; lia).
      symmetry. apply Z.ltb_ge. nia.
  - (* the quotient has 54 bits *)
    assert (HQlo : 2 ^ 53 ≤ Q) by nia.
    assert (HQhi : Q / 2 + 1 < 2 ^ 53).
    { rewrite Hhalf.
      pose proof (Z.div_mod (Zpos p * T * 2 ^ 52) (Zpos s) ltac:(lia)) as Hdm'.
      pose proof (Z.mod_pos_bound (Zpos p * T * 2 ^ 52) (Zpos s) ltac:(lia)) as Hmod'.
      nia. }
    destruct Q as [|q|q]; [lia| |lia].
    destruct (binary_round_aux_halve q (dp - 53 - (ds - 53) - 53) loc)
      as (m1 & -> & Hm1); [lia|lia|lia|].
    rewrite SFltb_js_0_7.
    destruct HT' as [[Ht ->]|[[Ht ->]|[Ht HT4]]].
    + replace (-53 ?= dp - 53 - (ds - 53) - 53 + 1) with Lt by (symmetry; apply Z.compare_lt_iff; lia).
      symmetry. apply Z.ltb_lt. lia.
    + replace (dp - 53 - (ds - 53) - 53 + 1) with (-53) by lia. rewrite Z.compare_refl.
      apply seven_tenths_quotient; [lia|lia|lia|].
      rewrite Hhalf in Hm1.
      replace (Zpos p * 2 ^ 53) with (Zpos p * 2 * 2 ^ 52) by lia. lia.
    + replace (-53 ?= dp - 53 - (ds - 53) - 53 + 1) with Gt by (symmetry; apply Z.compare_gt_iff; lia).
      symmetry. apply Z.ltb_ge. nia.
Qed.

(** The fractions equal to seven tenths, [7k / 10k] for [k] up to 51, are
    rounded to the literal [0.7]: checked for each. *)
Lemma seven_tenths_exact_table :
  forallb (λ k, negb (js_gt (js_div (number_of_Z (7 * k)) (number_of_Z (10 * k))) js_0_7))
          (seqZ 1 51) = true.
Proof. vm_compute. reflexivity. Qed.

(** The quotient of two integers up to 512, as binary64 numbers, is above
    the literal [0.7] exactly when the exact quotient is above seven
    tenths. *)
Lemma above_seven_tenths (p s : Z) :
  (0 ≤ p ≤ s)%Z → (s ≤ 512)%Z →
  js_gt (js_div (number_of_Z p) (number_of_Z s)) js_0_7 = (7 * s <? 10 * p)%Z.
Proof.
  intros [Hp Hps] Hs. destruct p as [|p|p]; [|clear Hp|lia].
  - destruct s as [|s|s]; [done| |lia].
    destruct (number_of_Z_spec s) as (ms & -> & _).
    { pose proof (digits2_pos_bounds s) as [Hlo _].
      assert (Zpos (digits2_pos s) - 1 < 10); [|lia].
      apply (Z.pow_lt_mono_r_iff 2); lia. }
    done.
  - destruct s as [|s|s]; [lia| |lia].
    destruct (Z.eq_dec (10 * Zpos p) (7 * Zpos s)) as [Heq|Hne].
    + pose proof seven_tenths_exact_table as H. rewrite forallb_forall in H.
      assert (Hk : In (Zpos s / 10) (seqZ 1 51)).
      { apply list_elem_of_In, elem_of_seqZ.
        pose proof (Z.div_mod (Zpos s) 10 ltac:(lia)).
        pose proof (Z.mod_pos_bound (Zpos s) 10 ltac:(lia)). lia. }
      specialize (H _ Hk).
      replace (7 * (Zpos s / 10)) with (Zpos p) in H.
      2:{ pose proof (Z.div_mod (Zpos s) 10 ltac:(lia)).
          pose proof (Z.mod_pos_bound (Zpos s) 10 ltac:(lia)). lia. }
      replace (10 * (Zpos s / 10)) with (Zpos s) in H.
      2:{ pose proof (Z.div_mod (Zpos s) 10 ltac:(lia)).
          pose proof (Z.mod_pos_bound (Zpos s) 10 ltac:(lia)). lia. }
      apply Bool.negb_true_iff in H. rewrite H.
      symmetry. apply Z.ltb_ge. lia.
    + apply above_seven_tenths_pos; [lia|done].
Qed.

End SevenTenths.

(** X25. [isTextBuffer] looks at the first 512 bytes and answers [true]
    exactly when more than seven tenths of them are printable: the
    division and the comparison with [0.7] in binary64 agree with the exact
    ones.  At exactly seven tenths, and for the empty buffer, the answer is
    [false]. *)
Theorem isTextBuffer_threshold (buffer : list byte) :
  let sample := take 512 buffer in
  let printableCount := length (filter (λ b, printable b = true) sample) in
  isTextBuffer buffer = bool_decide (7 * length sample < 10 * printableCount).
Proof.
  intros sample printableCount. unfold isTextBuffer.
  assert (Hsample : take (512 `min` length buffer) buffer = sample).
  { unfold sample. destruct (decide (length buffer ≤ 512)).
    - rewrite Nat.min_r by done. by rewrite !take_ge by lia.
    - by rewrite Nat.min_l by lia. }
  assert (Hlen : 512 `min` length buffer = length sample).
  { unfold sample. rewrite length_take. done. }
  rewrite Hsample, Hlen. fold printableCount.
  assert (printableCount ≤ length sample) by apply length_filter.
  assert (length sample ≤ 512) by (unfold sample; rewrite length_take; lia).
  rewrite above_seven_tenths by lia.
  destruct (Z.ltb_spec (7 * Z.of_nat (length sample)) (10 * Z.of_nat printableCount)).
  - rewrite bool_decide_eq_true_2; [done|lia].
  - rewrite bool_decide_eq_false_2; [done|lia].
Qed.

(** X26. [detectMimeType] never recognises a JPEG by its content: the
    four-byte signature is compared with a buffer of three bytes, which
    [Buffer.equals] never finds equal, so ["image/jpeg"] is returned only
    for a file name whose extension the table maps to it.  The signatures
    of PNG, GIF and PDF are recognised, and they decide whatever the file
    name says. *)
Theorem detectMimeType_signatures (extname : string → string) :
  (∀ buffer filename,
     detectMimeType extname buffer filename = "image/jpeg" →
     ∃ name, filename = Some name ∧
             assoc (toLowerCase (extname name)) mimeTypes = Some "image/jpeg") ∧
  (∀ rest filename,
     detectMimeType extname ([x89; x50; x4e; x47] ++ rest) filename = "image/png" ∧
     detectMimeType extname ([x47; x49; x46; x38] ++ rest) filename = "image/gif" ∧
     detectMimeType extname ([x25; x50; x44; x46] ++ rest) filename = "application/pdf").
Proof.
  split.
  - intros buffer filename. unfold detectMimeType, by_signature.
    set (header := take 16 buffer).
    assert (Hjpeg : 4 ≤ length header → take 4 header ≠ [xff; xd8; xff]).
    { intros Hlen Heq. apply (f_equal length) in Heq.
      rewrite length_take, Nat.min_l in Heq by done. done. }
    destruct (Nat.leb_spec 4 (length header)) as [Hlen|Hlen].
    + rewrite bool_decide_eq_false_2 by auto.
      repeat (case_bool_decide; [done|]).
      unfold by_extension. destruct filename as [name|].
      * destruct (truthy name).
        -- destruct (assoc _ mimeTypes) as [m|] eqn:Hm.
           ++ intros ->. by exists name.
           ++ by destruct (isTextBuffer buffer).
        -- by destruct (isTextBuffer buffer).
      * by destruct (isTextBuffer buffer).
    + unfold by_extension. destruct filename as [name|].
      * destruct (truthy name).
        -- destruct (assoc _ mimeTypes) as [m|] eqn:Hm.
           ++ intros ->. by exists name.
           ++ by destruct (isTextBuffer buffer).
        -- by destruct (isTextBuffer buffer).
      * by destruct (isTextBuffer buffer).
  - intros rest filename. unfold detectMimeType, by_signature. simpl.
    destruct (take 12 rest); done.
Qed.
